(** * use-api: the token lifecycle of the [useAPI] hook

    A shallow embedding of [src/useAPI.ts] (the hook's [decode_token],
    [runRawRequest], [clear_tokens], [runTokenRequest], [login], [logout]
    and [request]) together with the parts of the browser it talks to:
    the two Web Storage areas, [fetch], [Date.now] and the module-level
    [Mutex].  Of the react-query wrappers ([useQuery], [useMutationFn],
    [useMutationQuery], [asyncQuery]) the query key and the mutation
    callback are embedded; the calls into react-query are not.  The fetch
    mock of the tests, [test/mockFetch.ts], is embedded as well.

    Conventions of the embedding:
    - a JavaScript string is a [string] (a sequence of bytes, read as UTF-8);
    - [undefined]/[null] results of storage reads are [None];
    - a thrown JavaScript value is an [Exn], a computation that may throw
      returns a [Res];
    - effectful code runs in the monad [M] over an explicit [World];
    - a number inside a value is an integer, compared exactly; its text
      ([String]) is that of the Number nearest to it;
    - [Date.now()] is a number of milliseconds; [exp > Date.now() / 1000]
      is compared exactly, as [Date.now() < exp * 1000] for an [exp] that
      is an integer;
    - what a decoded token holds is a value like any other: [jwtDecode]
      hands back whatever the payload parses to, and the hook reads its
      [exp], [sub] and [api] as properties. *)

From Stdlib Require Import ZArith QArith_base Ascii String List Bool Lia.
From stdpp Require Import base option list gmap strings pretty.

Open Scope Z_scope.
Open Scope string_scope.
Open Scope list_scope.

#[local] Set Warnings "-register-all".

(** ** JavaScript values *)

(** The dynamically typed values the hook manipulates: what [resp.json()]
    produces, plus [undefined].  Numbers are restricted to integers. *)
Inductive JSValue : Type :=
| JUndefined
| JNull
| JBool (b : bool)
| JNum (z : Z)
| JStr (s : string)
| JArr (elems : list JSValue)
| JObj (props : list (string * JSValue)).

(** Thrown values.  [APIError] is the class of [useAPI.types.ts]; [JSError]
    stands for the built-in [Error] objects ([TypeError], [SyntaxError], ...);
    [Thrown] is any other thrown value, carried by its [String(...)]. *)
Inductive Exn : Type :=
| APIError (errmsg : string) (code : Z)
| JSError (name : string) (message : string)
| Thrown (repr : string).

Inductive Res (A : Type) : Type :=
| Ok (a : A)
| Throw (e : Exn).
Arguments Ok {A} a.
Arguments Throw {A} e.

Definition res_bind {A B} (r : Res A) (k : A -> Res B) : Res B :=
  match r with
  | Ok a => k a
  | Throw e => Throw e
  end.

(** [try { body } catch (e) { handler(e) }] *)
Definition try_catch {A} (body : Res A) (handler : Exn -> Res A) : Res A :=
  match body with
  | Ok a => Ok a
  | Throw e => handler e
  end.

(** [error instanceof Error ? error.message : String(error)] *)
Definition exn_message (e : Exn) : string :=
  match e with
  | APIError m _ => m
  | JSError _ m => m
  | Thrown r => r
  end.

(** Truthiness of a [string | undefined | null]. *)
Definition truthy (o : option string) : bool :=
  match o with
  | Some s => negb (String.eqb s "")
  | None => false
  end.

(** [a || b] on [string | undefined | null] operands. *)
Definition js_or (a b : option string) : option string :=
  if truthy a then a else b.

(** The Number nearest to an integer: 53 significant bits, ties to even. *)
Definition nearest_double (z : Z) : Z :=
  let a := Z.abs z in
  let b := Z.log2 a in
  if Z.leb b 52 then z
  else
    let sh := b - 52 in
    let q := Z.shiftr a sh in
    let r := a - Z.shiftl q sh in
    let half := Z.shiftl 1 (sh - 1) in
    let q' := if Z.ltb half r || (Z.eqb r half && Z.odd q) then q + 1 else q in
    Z.sgn z * Z.shiftl q' sh.

Definition decimal_digits (a : Z) : Z := Z.of_nat (String.length (pretty a)).

(** The decimal with the fewest significant digits that still reads back
    as the Number [a] (the closest one if there are two), for [a > 0]. *)
Fixpoint shortest_decimal (a n k : Z) (fuel : nat) : Z :=
  match fuel with
  | O => a
  | S fuel' =>
      if Z.leb n k then a
      else
        let p := 10 ^ (n - k) in
        let lo := a / p in
        let c1 := lo * p in
        let c2 := (lo + 1) * p in
        let ok1 := Z.eqb (nearest_double c1) a in
        let ok2 := Z.eqb (nearest_double c2) a in
        if ok1 && ok2 then
          if Z.ltb (a - c1) (c2 - a) then c1
          else if Z.ltb (c2 - a) (a - c1) then c2
          else if Z.even lo then c1 else c2
        else if ok1 then c1
        else if ok2 then c2
        else shortest_decimal a n (k + 1) fuel'
  end.

Fixpoint strip_zeros (rev_digits : list ascii) : list ascii :=
  match rev_digits with
  | "0"%char :: rest => strip_zeros rest
  | _ => rev_digits
  end.

(** [Number.prototype.toString] on an integer-valued Number: the shortest
    digits that identify it, padded with zeros below 10^21 and in exponent
    form from there on. *)
Definition number_to_string (z : Z) : string :=
  let x := nearest_double z in
  let a := Z.abs x in
  if Z.eqb a 0 then "0"
  else if Z.leb (2 ^ 1024) a then (if Z.ltb x 0 then "-Infinity" else "Infinity")
  else
    let c := shortest_decimal a (decimal_digits a) 1 17 in
    let sign := if Z.ltb x 0 then "-" else "" in
    if Z.leb (decimal_digits c) 21 then sign +:+ pretty c
    else
      let mantissa := rev (strip_zeros (rev (list_ascii_of_string (pretty c)))) in
      let exponent := pretty (decimal_digits c - 1) in
      match mantissa with
      | [] => sign +:+ pretty c
      | [d] => sign +:+ String d ("e+" +:+ exponent)
      | d :: rest => sign +:+ String d ("." +:+ string_of_list_ascii rest +:+ "e+" +:+ exponent)
      end.

(** [String(v)] / template-literal conversion. *)
Fixpoint js_String (v : JSValue) : string :=
  match v with
  | JUndefined => "undefined"
  | JNull => "null"
  | JBool true => "true"
  | JBool false => "false"
  | JNum z => number_to_string z
  | JStr s => s
  | JArr elems =>
      let elem x :=
        match x with
        | JUndefined | JNull => ""
        | _ => js_String x
        end in
      (fix join (l : list JSValue) : string :=
         match l with
         | [] => ""
         | [x] => elem x
         | x :: rest => elem x +:+ "," +:+ join rest
         end) elems
  | JObj _ => "[object Object]"
  end.

Fixpoint assoc (k : string) (l : list (string * JSValue)) : option JSValue :=
  match l with
  | [] => None
  | (k', v) :: rest => if String.eqb k k' then Some v else assoc k rest
  end.

(** The message of the [TypeError] raised by a property read on
    [undefined] or [null], as V8 words it. *)
Definition type_error_message (v : JSValue) (k : string) : string :=
  "Cannot read properties of " +:+ js_String v +:+ " (reading '" +:+ k +:+ "')".

(** Property read [v.k], for the keys the hook reads this way
    ([access_token], [refresh_token], [token_type], [detail], [exp],
    [api]), none of which is a built-in property of a primitive, of an
    array or of a plain object. *)
Definition get_prop (v : JSValue) (k : string) : Res JSValue :=
  match v with
  | JUndefined | JNull => Throw (JSError "TypeError" (type_error_message v k))
  | JObj props => Ok (default JUndefined (assoc k props))
  | _ => Ok JUndefined
  end.

(** [typeof v === 'string'] *)
Definition is_string (v : JSValue) : bool :=
  match v with
  | JStr _ => true
  | _ => false
  end.

(** [v === s] for a string literal [s]. *)
Definition strict_eq_str (v : JSValue) (s : string) : bool :=
  match v with
  | JStr s' => String.eqb s' s
  | _ => false
  end.

(** [Array.isArray(data) && data.every(p)] *)
Definition is_array_every (p : JSValue -> bool) (v : JSValue) : bool :=
  match v with
  | JArr elems => forallb p elems
  | _ => false
  end.

(** ** URLSearchParams *)

Definition URLSearchParams : Type := list (string * string).

(** [params.get(name)]: the first value of that name, or [null]. *)
Fixpoint usp_get (p : URLSearchParams) (name : string) : option string :=
  match p with
  | [] => None
  | (k, v) :: rest => if String.eqb k name then Some v else usp_get rest name
  end.

Definition hex_digit (n : nat) : ascii :=
  ascii_of_nat (if Nat.ltb n 10 then 48 + n else 55 + n).

(** The application/x-www-form-urlencoded byte serializer. *)
Definition urlencode_byte (c : ascii) : string :=
  let n := nat_of_ascii c in
  if Nat.eqb n 32 then "+"
  else if (Nat.leb 48 n && Nat.leb n 57) || (Nat.leb 65 n && Nat.leb n 90)
          || (Nat.leb 97 n && Nat.leb n 122)
          || Nat.eqb n 42 || Nat.eqb n 45 || Nat.eqb n 46 || Nat.eqb n 95
  then String c EmptyString
  else String "%" (String (hex_digit (Nat.div n 16)) (String (hex_digit (Nat.modulo n 16)) EmptyString)).

Fixpoint urlencode (s : string) : string :=
  match s with
  | EmptyString => EmptyString
  | String c rest => urlencode_byte c +:+ urlencode rest
  end.

(** [params.toString()] *)
Fixpoint usp_toString (p : URLSearchParams) : string :=
  match p with
  | [] => ""
  | [(k, v)] => urlencode k +:+ "=" +:+ urlencode v
  | (k, v) :: rest => urlencode k +:+ "=" +:+ urlencode v +:+ "&" +:+ usp_toString rest
  end.

(** ** Numbers as the hook compares them *)

(** A Number: not-a-number, a finite value, or an infinity. *)
Inductive JSNumber : Type :=
| NaN
| Finite (q : Q)
| Infinite (positive : bool).

(** [a < b]; a comparison with [NaN] is false. *)
Definition number_lt (a b : JSNumber) : bool :=
  match a, b with
  | NaN, _ | _, NaN => false
  | Finite x, Finite y => negb (Qle_bool y x)
  | Finite _, Infinite positive => positive
  | Infinite positive, Finite _ => negb positive
  | Infinite pa, Infinite pb => negb pa && pb
  end.

(** [a - k] for an integer literal [k]. *)
Definition number_minus (a : JSNumber) (k : Z) : JSNumber :=
  match a with
  | Finite x => Finite (Qminus x (inject_Z k))
  | other => other
  end.

(** [now / 1000] for a clock reading [now]. *)
Definition seconds (now : N) : JSNumber := Finite (Qmake (Z.of_N now) 1000).

(** ** Token codec *)

(** The interface [TokenData] is erased at run time: this is the object a
    token with these four claims decodes to. *)
Definition TokenData (sub : string) (iat exp : Z) (api : string) : JSValue :=
  JObj [("sub", JStr sub); ("iat", JNum iat); ("exp", JNum exp); ("api", JStr api)].

(** The value of [{ sub: '', iat: 0, exp: 0, api: '' }]. *)
Definition no_token_data : JSValue := TokenData "" 0 0 "".

(** Type predicate for APIAuthTokens. *)
Definition isAPIAuthTokens (val : JSValue) : bool :=
  match
    try_catch
      (res_bind (get_prop val "access_token") (fun a =>
       res_bind (get_prop val "refresh_token") (fun r =>
       res_bind (get_prop val "token_type") (fun t =>
       Ok (is_string a && is_string r && strict_eq_str t "bearer")))))
      (fun _ => Ok false)
  with
  | Ok b => b
  | Throw _ => false
  end.

(** ** The browser: requests, responses, storage, clock *)

Inductive Method : Type := GET | POST | PUT | DELETE.

(** What [fetch(url, { method, headers, body })] is called with.  The
    headers are the contents of the mapping at the time of the call. *)
Record FetchRequest : Type := mkFetchRequest {
  fr_url : string;
  fr_method : Method;
  fr_headers : option (gmap string string);
  fr_body : option string
}.

(** The part of a [Response] the hook reads: [status], [ok], [statusText]
    and the outcome of [json()]. *)
Record Response : Type := mkResponse {
  status : Z;
  ok : bool;
  statusText : string;
  json : Res JSValue
}.

Inductive FetchOutcome : Type :=
| Resolve (resp : Response)
| Reject (e : Exn).

(** The collaborators the hook does not implement: [jwtDecode] of the
    jwt-decode package, which throws when the token has no second part or
    that part is not base64url-encoded JSON, and otherwise returns what the
    payload parses to, whatever that is ([jwtDecode<TokenData>] only asserts
    a type); the transport behind [fetch], which answers the [n]-th call of
    a run; the clock, which answers the [n]-th [Date.now()] of a run with a
    number of milliseconds since the epoch; and the engine's conversion of
    a string, an array or an object to a Number (the numeric string grammar
    and [ToPrimitive]), which may throw. *)
Record Env : Type := mkEnv {
  jwtDecode : string -> Res JSValue;
  transport : nat -> FetchRequest -> FetchOutcome;
  clock : nat -> N;
  toNumber : JSValue -> Res JSNumber
}.

(** [ToNumber(v)] *)
Definition ToNumber (E : Env) (v : JSValue) : Res JSNumber :=
  match v with
  | JUndefined => Ok NaN
  | JNull => Ok (Finite (inject_Z 0))
  | JBool b => Ok (Finite (inject_Z (if b then 1 else 0)))
  | JNum z => Ok (Finite (inject_Z z))
  | JStr _ | JArr _ | JObj _ => toNumber E v
  end.

(** An API request that is expected to respond with T.  [H] is how the
    [headers] mapping is held: by reference in the caller's object, by
    value once read. *)
Record APIRequest (H : Type) : Type := mkAPIRequest {
  method : Method;
  url : string;
  headers : option H;
  params : option URLSearchParams;
  body : option string;
  validate : option (JSValue -> bool);
  validateOptional : option (JSValue -> bool);
  validateList : option (JSValue -> bool)
}.
Arguments mkAPIRequest {H}.
Arguments method {H}.
Arguments url {H}.
Arguments headers {H}.
Arguments params {H}.
Arguments body {H}.
Arguments validate {H}.
Arguments validateOptional {H}.
Arguments validateList {H}.

(** An API response containing T. *)
Record APIResponse : Type := mkAPIResponse {
  code : Z;
  data : JSValue
}.

Inductive Event : Type :=
| EvLock
| EvUnlock
| EvFetch (req : FetchRequest).

(** The mutable state a run of the hook's callbacks can touch: the two
    storage areas, the caller's request objects and header mappings (both
    held by reference), the record of mutex and transport events, and the
    number of clock reads so far. *)
Record World : Type := mkWorld {
  localStorage : gmap string string;
  sessionStorage : gmap string string;
  request_objs : gmap positive (APIRequest positive);
  header_objs : gmap positive (gmap string string);
  log : list Event;
  ticks : nat
}.

Definition M (A : Type) : Type := World -> Res A * World.

Definition ret {A} (a : A) : M A := fun w => (Ok a, w).

Definition throw {A} (e : Exn) : M A := fun w => (Throw e, w).

Definition bind {A B} (m : M A) (k : A -> M B) : M B :=
  fun w =>
    match m w with
    | (Ok a, w') => k a w'
    | (Throw e, w') => (Throw e, w')
    end.

Definition lift {A} (r : Res A) : M A := fun w => (r, w).

Declare Scope js_scope.
Delimit Scope js_scope with js.
Notation "'let!' x ':=' c 'in' k" := (bind c (fun x => k))
  (at level 10, x name, c at level 100, k at level 200) : js_scope.
Open Scope js_scope.

Definition is_lock (ev : Event) : bool :=
  match ev with
  | EvLock => true
  | _ => false
  end.

(** The transport calls of a log, oldest first. *)
Definition fetches (l : list Event) : list FetchRequest :=
  omap (fun ev => match ev with EvFetch r => Some r | _ => None end) l.

Definition emit (ev : Event) : M unit :=
  fun w => (Ok tt, mkWorld (localStorage w) (sessionStorage w) (request_objs w)
                           (header_objs w) (log w ++ [ev]) (ticks w)).

(** [Date.now()] *)
Definition date_now (E : Env) : M N :=
  fun w => (Ok (clock E (ticks w)),
            mkWorld (localStorage w) (sessionStorage w) (request_objs w)
                    (header_objs w) (log w) (S (ticks w))).

(** [await fetch(url, init)]: the call is recorded, the transport answers. *)
Definition fetch (E : Env) (req : FetchRequest) : M FetchOutcome :=
  fun w => (Ok (transport E (length (fetches (log w))) req),
            mkWorld (localStorage w) (sessionStorage w) (request_objs w)
                    (header_objs w) (log w ++ [EvFetch req]) (ticks w)).

Definition set_localStorage (f : gmap string string -> gmap string string) : M unit :=
  fun w => (Ok tt, mkWorld (f (localStorage w)) (sessionStorage w) (request_objs w)
                           (header_objs w) (log w) (ticks w)).

Definition set_sessionStorage (f : gmap string string -> gmap string string) : M unit :=
  fun w => (Ok tt, mkWorld (localStorage w) (f (sessionStorage w)) (request_objs w)
                           (header_objs w) (log w) (ticks w)).

(** [localStorage.getItem(key) || sessionStorage.getItem(key)] *)
Definition current_item (key : string) : M (option string) :=
  fun w => (Ok (js_or (localStorage w !! key) (sessionStorage w !! key)), w).

(** The setters and [removeItem]s returned by [useLocalStorageState] and
    [useSessionStorageState] with the serializer
    [{ stringify: String, parse: String }]: a setter stores [String(value)]
    under the hook's key. *)
Definition setAccessTokenLS (v : JSValue) : M unit :=
  set_localStorage (insert "access_token" (js_String v)).
Definition setRefreshTokenLS (v : JSValue) : M unit :=
  set_localStorage (insert "refresh_token" (js_String v)).
Definition setAccessTokenSS (v : JSValue) : M unit :=
  set_sessionStorage (insert "access_token" (js_String v)).
Definition setRefreshTokenSS (v : JSValue) : M unit :=
  set_sessionStorage (insert "refresh_token" (js_String v)).
Definition removeAccessTokenLS : M unit := set_localStorage (delete "access_token").
Definition removeRefreshTokenLS : M unit := set_localStorage (delete "refresh_token").
Definition removeAccessTokenSS : M unit := set_sessionStorage (delete "access_token").
Definition removeRefreshTokenSS : M unit := set_sessionStorage (delete "refresh_token").

(** ** The hook *)

(** [decode_token]: the [try] block returns what [jwtDecode] returns when
    the token is truthy and [jwtDecode] does not throw; the [catch] block
    ignores the exception; the function then returns the zero claims. *)
Definition decode_token (E : Env) (token : option string) : Res JSValue :=
  res_bind
    (try_catch
       (match token with
        | Some t =>
            if truthy token
            then res_bind (jwtDecode E t) (fun d => Ok (Some d))
            else Ok None
        | None => Ok None
        end)
       (fun _ => Ok None))
    (fun returned =>
       match returned with
       | Some d => Ok d
       | None => Ok no_token_data
       end).

(** What one render of [useAPI] binds: the four storage states and
    [tokenData]. *)
Record Snapshot : Type := mkSnapshot {
  accessTokenLS : option string;
  refreshTokenLS : option string;
  accessTokenSS : option string;
  refreshTokenSS : option string;
  tokenData : JSValue
}.

Definition accessToken (s : Snapshot) : option string :=
  js_or (accessTokenLS s) (accessTokenSS s).

Definition refreshToken (s : Snapshot) : option string :=
  js_or (refreshTokenLS s) (refreshTokenSS s).

(** A render of the hook over the current storage, with the [tokenData]
    state left by the previous render ([no_token_data] on mount). *)
Definition useAPI_render (w : World) (td : JSValue) : Snapshot :=
  {| accessTokenLS := localStorage w !! "access_token";
     refreshTokenLS := localStorage w !! "refresh_token";
     accessTokenSS := sessionStorage w !! "access_token";
     refreshTokenSS := sessionStorage w !! "refresh_token";
     tokenData := td |}.

(** The effect that updates the token data whenever the accessToken
    changes: the value passed to [setTokenData]. *)
Definition useAPI_effect (E : Env) (s : Snapshot) : Res JSValue :=
  decode_token E (accessToken s).

Definition token_url : string := "/api/oauth2/token/".
Definition logout_url : string := "/api/oauth2/logout/".

(** The argument of [fetch] in [runRawRequest]. *)
Definition raw_fetch_request (options : APIRequest (gmap string string)) : FetchRequest :=
  {| fr_url := match params options with
               | Some p => url options +:+ "?" +:+ usp_toString p
               | None => url options
               end;
     fr_method := method options;
     fr_headers := headers options;
     fr_body := body options |}.

(** [new APIError(errmsg, code)] for an [errmsg] read from a response:
    [Error]'s constructor leaves the message empty for [undefined] and
    converts anything else to a string. *)
Definition new_APIError (errmsg : JSValue) (code : Z) : Exn :=
  match errmsg with
  | JUndefined => APIError "" code
  | v => APIError (js_String v) code
  end.

Definition validator_rejects (v : option (JSValue -> bool)) (d : JSValue) : bool :=
  match v with
  | Some p => negb (p d)
  | None => false
  end.

Definition is_undefined (v : JSValue) : bool :=
  match v with
  | JUndefined => true
  | _ => false
  end.

(** The body of [runRawRequest]'s [try] block from the response on. *)
Definition raw_try_body (s : Snapshot) (options : APIRequest (gmap string string))
    (resp : Response) : Res APIResponse :=
  let code := status resp in
  res_bind
    (if Z.eqb code 204 then
       if String.eqb (url options) token_url then
         (* Successfully validated credentials *)
         Ok (JObj [("access_token", JStr (default "" (js_or (accessToken s) (Some ""))));
                   ("refresh_token", JStr (default "" (js_or (refreshToken s) (Some ""))));
                   ("token_type", JStr "bearer")])
       else Ok JUndefined
     else
       res_bind (json resp) (fun data =>
         if negb (ok resp) then
           res_bind (get_prop data "detail") (fun detail =>
             Throw (new_APIError detail code))
         else Ok data))
    (fun data =>
       if validator_rejects (validate options) data then
         Throw (APIError "Response validation failed" code)
       else if negb (is_undefined data) && validator_rejects (validateOptional options) data then
         Throw (APIError "Response validation failed" code)
       else if match validateList options with
               | Some p => negb (is_array_every p data)
               | None => false
               end then
         Throw (APIError "Response validation failed" code)
       else if Z.leb 400 code then
         Throw (APIError (statusText resp) code)
       else Ok {| data := data; code := code |}).

(** [runRawRequest] once [fetch] has settled: [code] is still [-1] when the
    transport rejects, and the response's status afterwards; the [catch]
    block rethrows everything as an [APIError] with that code. *)
Definition raw_complete (s : Snapshot) (options : APIRequest (gmap string string))
    (out : FetchOutcome) : Res APIResponse :=
  match out with
  | Reject e => Throw (APIError (exn_message e) (-1))
  | Resolve resp =>
      try_catch (raw_try_body s options resp)
                (fun error => Throw (APIError (exn_message error) (status resp)))
  end.

Definition runRawRequest (E : Env) (s : Snapshot)
    (options : APIRequest (gmap string string)) : M APIResponse :=
  let! out := fetch E (raw_fetch_request options) in
  lift (raw_complete s options out).

Definition clear_tokens : M unit :=
  let! _ := removeAccessTokenLS in
  let! _ := removeRefreshTokenLS in
  let! _ := removeAccessTokenSS in
  removeRefreshTokenSS.

(** The request literal of [runTokenRequest]. *)
Definition token_request (creds : URLSearchParams) : APIRequest (gmap string string) :=
  {| method := POST;
     url := token_url;
     headers := Some {[ "Content-Type" := "application/x-www-form-urlencoded" ]};
     params := None;
     body := Some (usp_toString creds);
     validate := Some isAPIAuthTokens;
     validateOptional := None;
     validateList := None |}.

Definition opt_value (o : option string) : JSValue :=
  match o with
  | Some s => JStr s
  | None => JNull
  end.

(** What the exclusive section of [runTokenRequest] does before it awaits:
    it re-reads the stored tokens, decodes the access token, clears the
    storage, and either has its response already or needs the network. *)
Inductive TokenStep : Type :=
| Stored (resp : APIResponse)
| Network (options : APIRequest (gmap string string)).

Definition token_enter (E : Env) (creds : URLSearchParams) : M TokenStep :=
  let! current_access_token := current_item "access_token" in
  let! current_refresh_token := current_item "refresh_token" in
  let! accessTokenData := lift (decode_token E current_access_token) in
  let! _ := clear_tokens in
  (* accessTokenData.exp > Date.now() / 1000: the property is read, then the
     clock, then the operands are compared as Numbers *)
  let! exp := lift (get_prop accessTokenData "exp") in
  let! now := date_now E in
  let! exp := lift (ToNumber E exp) in
  if number_lt (seconds now) exp then
    ret (Stored {| code := 200;
                   data := JObj [("access_token", opt_value current_access_token);
                                 ("refresh_token", opt_value current_refresh_token);
                                 ("token_type", JStr "bearer")] |})
  else ret (Network (token_request creds)).

(** The rest of the exclusive section, once [resp] is there. *)
Definition token_persist (creds : URLSearchParams) (resp : APIResponse) : M APIResponse :=
  let! _ :=
    (if decide (usp_get creds "remember" = Some "true") then
       let! a := lift (get_prop (data resp) "access_token") in
       let! _ := setAccessTokenLS a in
       let! r := lift (get_prop (data resp) "refresh_token") in
       setRefreshTokenLS r
     else
       let! a := lift (get_prop (data resp) "access_token") in
       let! _ := setAccessTokenSS a in
       let! r := lift (get_prop (data resp) "refresh_token") in
       setRefreshTokenSS r) in
  ret resp.

(** [mutex.runExclusive(callback)] for one caller at a time: the lock is
    taken, the callback runs, and the lock is released whether the callback
    returns or throws. *)
Definition runExclusive {A} (callback : M A) : M A :=
  fun w =>
    match bind (emit EvLock) (fun _ => callback) w with
    | (r, w') => (r, snd (emit EvUnlock w'))
    end.

Definition runTokenRequest (E : Env) (s : Snapshot) (creds : URLSearchParams) : M APIResponse :=
  runExclusive
    (let! step := token_enter E creds in
     let! resp := match step with
                  | Stored resp => ret resp
                  | Network options => runRawRequest E s options
                  end in
     token_persist creds resp).

Definition login_creds (user password : string) (remember : bool) : URLSearchParams :=
  [("username", user);
   ("password", password);
   ("remember", if remember then "true" else "false");
   ("grant_type", "password")].

Definition login (E : Env) (s : Snapshot) (user password : string) (remember : bool) : M APIResponse :=
  runTokenRequest E s (login_creds user password remember).

Definition logout_request (refresh_token : string) : APIRequest (gmap string string) :=
  {| method := POST;
     url := logout_url;
     headers := Some {[ "Content-Type" := "application/x-www-form-urlencoded" ]};
     params := None;
     body := Some (usp_toString [("refresh_token", refresh_token);
                                 ("grant_type", "refresh_token")]);
     validate := None;
     validateOptional := None;
     validateList := None |}.

Definition logout (E : Env) (s : Snapshot) : M APIResponse :=
  let! resp :=
    (match refreshToken s with
     | Some r =>
         if truthy (refreshToken s)
         then runRawRequest E s (logout_request r)
         else ret {| code := 204; data := JUndefined |}
     | None => ret {| code := 204; data := JUndefined |}
     end) in
  let! _ := clear_tokens in
  ret resp.

(** *** [request] and the caller's request object

    [request(options)] receives a reference to the caller's object and
    assigns to it; [options.headers] is itself a reference to a mapping. *)

Definition load_request (o : positive) : M (APIRequest positive) :=
  fun w =>
    match request_objs w !! o with
    | Some r => (Ok r, w)
    | None => (Throw (JSError "ReferenceError" "no such request object"), w)
    end.

Definition with_headers {A B} (r : APIRequest A) (h : option B) : APIRequest B :=
  {| method := method r;
     url := url r;
     headers := h;
     params := params r;
     body := body r;
     validate := validate r;
     validateOptional := validateOptional r;
     validateList := validateList r |}.

(** [options.headers = { ...entries }]: a new mapping is created and the
    caller's object is made to point to it. *)
Definition assign_new_headers (o : positive) (entries : gmap string string) : M unit :=
  fun w =>
    match request_objs w !! o with
    | Some r =>
        let h := fresh (dom (header_objs w)) in
        (Ok tt, mkWorld (localStorage w) (sessionStorage w)
                        (<[o := with_headers r (Some h)]> (request_objs w))
                        (<[h := entries]> (header_objs w))
                        (log w) (ticks w))
    | None => (Throw (JSError "ReferenceError" "no such request object"), w)
    end.

(** [options.headers[name] = value] *)
Definition assign_header (o : positive) (name value : string) : M unit :=
  fun w =>
    match request_objs w !! o with
    | Some r =>
        match headers r with
        | Some h =>
            (Ok tt, mkWorld (localStorage w) (sessionStorage w) (request_objs w)
                            (<[h := <[name := value]> (default ∅ (header_objs w !! h))]>
                               (header_objs w))
                            (log w) (ticks w))
        | None =>
            (Throw (JSError "TypeError" ("Cannot set properties of undefined (setting '"
                                         +:+ name +:+ "')")), w)
        end
    | None => (Throw (JSError "ReferenceError" "no such request object"), w)
    end.

(** The request object as [runRawRequest] reads it: the fields of the
    object and the current contents of its headers mapping. *)
Definition read_request (o : positive) : M (APIRequest (gmap string string)) :=
  fun w =>
    match request_objs w !! o with
    | Some r => (Ok (with_headers r (headers r ≫= fun h => header_objs w !! h)), w)
    | None => (Throw (JSError "ReferenceError" "no such request object"), w)
    end.

Definition refresh_creds (s : Snapshot) : URLSearchParams :=
  [("refresh_token", default "" (refreshToken s));
   ("remember", if truthy (accessTokenLS s) then "true" else "false");
   ("grant_type", "refresh_token")].

Definition is_GET (m : Method) : bool :=
  match m with
  | GET => true
  | _ => false
  end.

(** The [if (!options.headers)] block of [request]. *)
Definition default_headers (s : Snapshot) (o : positive) : M unit :=
  let! options := load_request o in
  match headers options with
  | None =>
      let! _ := assign_new_headers o
                  {[ "Authorization" := "Bearer " +:+ default "" (accessToken s) ]} in
      if negb (is_GET (method options)) then
        assign_header o "Content-Type" "application/json"
      else ret tt
  | Some _ => ret tt
  end.

(** The [if (tokenData.exp - 10 < Date.now() / 1000 && refreshToken)] block
    of [request]. *)
Definition refresh_if_expiring (E : Env) (s : Snapshot) (o : positive) : M unit :=
  (* the left operand is evaluated first: the property read and the
     subtraction, which converts to a Number; then the clock is read *)
  let! exp := lift (get_prop (tokenData s) "exp") in
  let! exp := lift (ToNumber E exp) in
  let! now := date_now E in
  if number_lt (number_minus exp 10) (seconds now) && truthy (refreshToken s) then
    (* Token has expired (or will within 10 seconds), refresh it *)
    let! tokResp := runTokenRequest E s (refresh_creds s) in
    let! tok := lift (get_prop (data tokResp) "access_token") in
    assign_header o "Authorization" ("Bearer " +:+ js_String tok)
  else ret tt.

Definition request (E : Env) (s : Snapshot) (o : positive) : M APIResponse :=
  if negb (truthy (accessToken s)) then
    throw (APIError "Missing access token" 401)
  else
    let! _ := default_headers s o in
    let! _ := refresh_if_expiring E s o in
    let! options := read_request o in
    runRawRequest E s options.

(** ** Interleaved token requests

    Several [runTokenRequest] calls in flight at once.  A call suspends at
    the mutex, then inside the exclusive section at its [await] (of the
    stored response or of [fetch]), and finishes.  The scheduler picks
    which call resumes next; a call waiting for the mutex can only resume
    when nobody holds it. *)

Inductive Phase : Type :=
| Waiting
| HasStored (resp : APIResponse)
| Fetching (options : APIRequest (gmap string string)) (out : FetchOutcome)
| Finished (r : Res APIResponse).

Record Flow : Type := mkFlow {
  flow_snapshot : Snapshot;
  flow_creds : URLSearchParams;
  flow_phase : Phase
}.

Record Sched : Type := mkSched {
  world : World;
  holder : option nat;
  flows : list Flow
}.

Definition set_phase (f : Flow) (p : Phase) : Flow :=
  {| flow_snapshot := flow_snapshot f; flow_creds := flow_creds f; flow_phase := p |}.

(** From the acquisition of the mutex to the first [await] inside it. *)
Definition flow_enter (E : Env) (f : Flow) : M Phase :=
  let! _ := emit EvLock in
  let! step := token_enter E (flow_creds f) in
  match step with
  | Stored resp => ret (HasStored resp)
  | Network options =>
      let! out := fetch E (raw_fetch_request options) in
      ret (Fetching options out)
  end.

(** From that [await] to the release of the mutex. *)
Definition flow_leave (f : Flow) (awaited : Res APIResponse) : World -> Res APIResponse * World :=
  fun w =>
    match bind (lift awaited) (token_persist (flow_creds f)) w with
    | (r, w') => (r, snd (emit EvUnlock w'))
    end.

Definition sched_step (E : Env) (i : nat) (σ : Sched) : option Sched :=
  match flows σ !! i with
  | None => None
  | Some f =>
      match flow_phase f with
      | Waiting =>
          match holder σ with
          | Some _ => None
          | None =>
              match flow_enter E f (world σ) with
              | (Ok p, w') =>
                  Some {| world := w'; holder := Some i;
                          flows := <[i := set_phase f p]> (flows σ) |}
              | (Throw e, w') =>
                  Some {| world := snd (emit EvUnlock w'); holder := None;
                          flows := <[i := set_phase f (Finished (Throw e))]> (flows σ) |}
              end
          end
      | HasStored resp =>
          match flow_leave f (Ok resp) (world σ) with
          | (r, w') =>
              Some {| world := w'; holder := None;
                      flows := <[i := set_phase f (Finished r)]> (flows σ) |}
          end
      | Fetching options out =>
          match flow_leave f (raw_complete (flow_snapshot f) options out) (world σ) with
          | (r, w') =>
              Some {| world := w'; holder := None;
                      flows := <[i := set_phase f (Finished r)]> (flows σ) |}
          end
      | Finished _ => None
      end
  end.

Fixpoint sched_run (E : Env) (schedule : list nat) (σ : Sched) : option Sched :=
  match schedule with
  | [] => Some σ
  | i :: rest =>
      match sched_step E i σ with
      | Some σ' => sched_run E rest σ'
      | None => None
      end
  end.

(** All calls made, none started. *)
Definition sched_init (w : World) (calls : list (Snapshot * URLSearchParams)) : Sched :=
  {| world := w;
     holder := None;
     flows := map (fun c => mkFlow (fst c) (snd c) Waiting) calls |}.

(** ** Worlds the proofs speak about *)

(** Both token keys removed from one storage area. *)
Definition clear_storage (st : gmap string string) : gmap string string :=
  delete "refresh_token" (delete "access_token" st).

(** The tokens a re-read of the storage finds. *)
Definition current_access (w : World) : option string :=
  js_or (localStorage w !! "access_token") (sessionStorage w !! "access_token").

Definition current_refresh (w : World) : option string :=
  js_or (localStorage w !! "refresh_token") (sessionStorage w !! "refresh_token").

(** The world after the two setters of the branch chosen by [remember]. *)
Definition persisted (creds : URLSearchParams) (a r : JSValue) (w : World) : World :=
  if decide (usp_get creds "remember" = Some "true") then
    mkWorld (<["refresh_token" := js_String r]> (<["access_token" := js_String a]> (localStorage w)))
            (sessionStorage w) (request_objs w) (header_objs w) (log w) (ticks w)
  else
    mkWorld (localStorage w)
            (<["refresh_token" := js_String r]> (<["access_token" := js_String a]> (sessionStorage w)))
            (request_objs w) (header_objs w) (log w) (ticks w).

(** The response [runTokenRequest] builds from the stored tokens. *)
Definition stored_response (w : World) : APIResponse :=
  {| code := 200;
     data := JObj [("access_token", opt_value (current_access w));
                   ("refresh_token", opt_value (current_refresh w));
                   ("token_type", JStr "bearer")] |}.

(** The world inside the exclusive section, after the stored tokens were
    re-read and cleared and before the clock is read. *)
Definition locked (w : World) : World :=
  mkWorld (clear_storage (localStorage w)) (clear_storage (sessionStorage w))
          (request_objs w) (header_objs w) (log w ++ [EvLock]) (ticks w).

(** The world inside the exclusive section, after the stored tokens were
    re-read and cleared and the clock was read. *)
Definition entered (w : World) : World :=
  mkWorld (clear_storage (localStorage w)) (clear_storage (sessionStorage w))
          (request_objs w) (header_objs w) (log w ++ [EvLock]) (S (ticks w)).

Definition logged (ev : Event) (w : World) : World := snd (emit ev w).

(** The rest of [runTokenRequest] once the section needs the network. *)
Definition token_network (E : Env) (s : Snapshot) (creds : URLSearchParams) (w : World)
    : Res APIResponse * World :=
  let req := raw_fetch_request (token_request creds) in
  match raw_complete s (token_request creds)
                     (transport E (length (fetches (log w))) req) with
  | Ok resp =>
      match token_persist creds resp (logged (EvFetch req) (entered w)) with
      | (r, w') => (r, logged EvUnlock w')
      end
  | Throw e => (Throw e, logged EvUnlock (logged (EvFetch req) (entered w)))
  end.

(** One storage area holds exactly this pair / holds no token at all. *)
Definition scope_holds (st : gmap string string) (a r : string) : Prop :=
  st !! "access_token" = Some a /\ st !! "refresh_token" = Some r.

Definition scope_cleared (st : gmap string string) : Prop :=
  st !! "access_token" = None /\ st !! "refresh_token" = None.

(** The operations of the token lifecycle: [login], the refresh that
    [request] asks [runTokenRequest] for, and [logout]. *)
Inductive Op : Type :=
| OpLogin (user password : string) (remember : bool)
| OpRefresh
| OpLogout.

Definition run_op (E : Env) (s : Snapshot) (op : Op) : M APIResponse :=
  match op with
  | OpLogin user password remember => login E s user password remember
  | OpRefresh => runTokenRequest E s (refresh_creds s)
  | OpLogout => logout E s
  end.

Definition via_runTokenRequest (op : Op) : bool :=
  match op with
  | OpLogout => false
  | _ => true
  end.

(** A storage area without a non-empty token, and the invariant of the
    two areas. *)
Definition scope_empty (st : gmap string string) : Prop :=
  truthy (st !! "access_token") = false /\ truthy (st !! "refresh_token") = false.

Definition at_most_one_scope (w : World) : Prop :=
  scope_empty (localStorage w) \/ scope_empty (sessionStorage w).

(** [a || b] spelled out: the durable value if it is non-empty, the
    session value otherwise. *)
Definition durable_else_session (durable session : option string) : option string :=
  match durable with
  | Some t => if String.eqb t "" then session else Some t
  | None => session
  end.

(** The world after [clear_tokens]. *)
Definition cleared (w : World) : World :=
  mkWorld (clear_storage (localStorage w)) (clear_storage (sessionStorage w))
          (request_objs w) (header_objs w) (log w) (ticks w).

(** The headers [request] gives a request that came without any. *)
Definition default_entries (s : Snapshot) (m : Method) : gmap string string :=
  if is_GET m then {[ "Authorization" := "Bearer " +:+ default "" (accessToken s) ]}
  else <["Content-Type" := "application/json"]>
         {[ "Authorization" := "Bearer " +:+ default "" (accessToken s) ]}.

(** The world after the [if (!options.headers)] block, for the caller's
    object [options] at address [o]. *)
Definition with_default_headers (s : Snapshot) (o : positive) (options : APIRequest positive)
    (w : World) : World :=
  match headers options with
  | Some _ => w
  | None =>
      let h := fresh (dom (header_objs w)) in
      mkWorld (localStorage w) (sessionStorage w)
              (<[o := with_headers options (Some h)]> (request_objs w))
              (<[h := default_entries s (method options)]> (header_objs w))
              (log w) (ticks w)
  end.

(** The world after one more [Date.now()]. *)
Definition ticked (w : World) : World :=
  mkWorld (localStorage w) (sessionStorage w) (request_objs w) (header_objs w)
          (log w) (S (ticks w)).

(** The world after [options.headers.Authorization = value], for the
    headers mapping at address [h]. *)
Definition with_authorization (h : positive) (value : string) (w : World) : World :=
  mkWorld (localStorage w) (sessionStorage w) (request_objs w)
          (<[h := <["Authorization" := value]> (default ∅ (header_objs w !! h))]> (header_objs w))
          (log w) (ticks w).

(** [tokenData.exp - 10 < Date.now() / 1000] for the token data [td] and
    the clock reading [now]. *)
Definition expiring (E : Env) (td : JSValue) (now : N) : Res bool :=
  res_bind (get_prop td "exp") (fun v =>
  res_bind (ToNumber E v) (fun x =>
  Ok (number_lt (number_minus x 10) (seconds now)))).

(** [request] on the caller's object [options] at [o] goes through
    [runTokenRequest] exactly once, with the refresh grant, before anything
    is sent for the caller; if that throws, [request] throws the same; if
    it returns a token, the one call that follows is the caller's, with
    that token as its bearer. *)
Definition takes_refresh_path (E : Env) (s : Snapshot) (o : positive)
    (options : APIRequest positive) (w : World) : Prop :=
  let r := request E s o w in
  filter is_lock (log (snd r)) = filter is_lock (log w) ++ [EvLock] /\
  usp_get (refresh_creds s) "grant_type" = Some "refresh_token" /\
  usp_get (refresh_creds s) "remember" =
    Some (if truthy (accessTokenLS s) then "true" else "false") /\
  exists w1 tr w2,
    log w1 = log w /\
    ticks w1 = S (ticks w) /\
    localStorage w1 = localStorage w /\
    sessionStorage w1 = sessionStorage w /\
    runTokenRequest E s (refresh_creds s) w1 = (tr, w2) /\
    (exists events, log w2 = log w ++ EvLock :: events) /\
    match tr with
    | Throw e => r = (Throw e, w2)
    | Ok tokResp =>
        exists tok target,
          get_prop (data tokResp) "access_token" = Ok (JStr tok) /\
          log (snd r) = log w2 ++ [EvFetch target] /\
          fr_url target = match params options with
                          | Some p => url options +:+ "?" +:+ usp_toString p
                          | None => url options
                          end /\
          fr_method target = method options /\
          fr_body target = body options /\
          fr_headers target ≫= (fun h => h !! "Authorization") = Some ("Bearer " +:+ tok)
    end.

(** *** Interleavings *)

(** Inside the exclusive section. *)
Definition in_section (p : Phase) : bool :=
  match p with
  | HasStored _ | Fetching _ _ => true
  | Waiting | Finished _ => false
  end.

(** An access token that decodes to an expiry not before [T] (in
    milliseconds). *)
Definition fresh_token (E : Env) (T : Z) (tok : string) : Prop :=
  tok <> "" /\
  exists d e, jwtDecode E tok = Ok d /\ get_prop d "exp" = Ok (JNum e) /\ T <= e * 1000.

(** A stored token whose expiry the exclusive section can read and
    compare: what it decodes to is neither [null] nor [undefined], and its
    [exp] converts to a Number. *)
Definition expiry_readable (E : Env) (token : option string) : Prop :=
  exists d v x,
    decode_token E token = Ok d /\ get_prop d "exp" = Ok v /\ ToNumber E v = Ok x.

(** A transport answer that hands out such a token in a valid pair. *)
Definition fresh_answer (E : Env) (T : Z) (out : FetchOutcome) : Prop :=
  exists resp d a,
    out = Resolve resp /\ status resp <> 204 /\ status resp < 400 /\ ok resp = true /\
    json resp = Ok d /\ isAPIAuthTokens d = true /\
    get_prop d "access_token" = Ok (JStr a) /\ fresh_token E T a.

Definition stored_pair (resp : APIResponse) (a : string) : Prop :=
  exists r, get_prop (data resp) "access_token" = Ok (JStr a) /\
            get_prop (data resp) "refresh_token" = Ok r.

(** What every reachable state of the interleaved calls satisfies, when
    [n0] transport calls were made before they started; [readable] says
    that the expiry of the token stored at the start could be read. *)
Definition sched_inv (E : Env) (T : Z) (readable : Prop) (n0 : nat) (σ : Sched) : Prop :=
  (forall i f, flows σ !! i = Some f -> in_section (flow_phase f) = true -> holder σ = Some i) /\
  (is_Some (holder σ) ->
     scope_cleared (localStorage (world σ)) /\ scope_cleared (sessionStorage (world σ))) /\
  (readable ->
     (forall i f e, flows σ !! i = Some f -> flow_phase f <> Finished (Throw e)) /\
     (holder σ = None -> expiry_readable E (current_access (world σ))) /\
     (forall i f resp, flows σ !! i = Some f -> flow_phase f = HasStored resp ->
        exists a, get_prop (data resp) "access_token" = Ok (JStr a) /\
                  expiry_readable E (Some a))) /\
  (forall i f resp, flows σ !! i = Some f -> flow_phase f = HasStored resp ->
     exists a, stored_pair resp a) /\
  (forall i f o out, flows σ !! i = Some f -> flow_phase f = Fetching o out ->
     o = token_request (flow_creds f) /\ fresh_answer E T out /\
     length (fetches (log (world σ))) = S n0) /\
  (length (fetches (log (world σ))) = n0 \/
   length (fetches (log (world σ))) = S n0 /\
   (holder σ = None -> exists a, current_access (world σ) = Some a /\ fresh_token E T a) /\
   (forall i f resp, flows σ !! i = Some f -> flow_phase f = HasStored resp ->
      exists a, stored_pair resp a /\ fresh_token E T a)).

(** No validator of the request rejects the data. *)
Definition validators_accept {H} (options : APIRequest H) (d : JSValue) : bool :=
  negb (validator_rejects (validate options) d)
  && (is_undefined d || negb (validator_rejects (validateOptional options) d))
  && match validateList options with
     | Some p => is_array_every p d
     | None => true
     end.

(** ** Fixtures, after [useAPI.test.tsx]

    A clock stopped at [fixture_now] seconds, the tokens the tests build
    with [jwtEncode], and transports that answer like the tests' mocks. *)

Definition fixture_now : Z := 1700000000.

Definition old_access_token : string := "old.access.jwt".
Definition new_access_token : string := "new.access.jwt".
Definition edge_access_token : string := "edge.access.jwt".
Definition the_refresh_token : string := "the.refresh.jwt".

(** A token whose payload is the JSON text [null]: jwt-decode accepts it
    and returns [null]. *)
Definition null_payload_token : string := "h.bnVsbA.s".

Definition fixture_jwtDecode (t : string) : Res JSValue :=
  if String.eqb t old_access_token then
    Ok (TokenData "joe@example.com" (fixture_now - 600) (fixture_now - 300) "")
  else if String.eqb t new_access_token then
    Ok (TokenData "joe@example.com" fixture_now (fixture_now + 300) "")
  else if String.eqb t edge_access_token then
    Ok (TokenData "joe@example.com" (fixture_now - 290) (fixture_now + 10) "")
  else if String.eqb t the_refresh_token then
    Ok (TokenData "joe@example.com" fixture_now (fixture_now + 3000) "")
  else if String.eqb t null_payload_token then
    Ok JNull
  else Throw (JSError "InvalidTokenError" "Invalid token specified").

(** The engine's conversion in the examples.  None of them reaches it:
    the expiries they read are numbers, [undefined], or cannot be read at
    all.  It answers for the values that need no number grammar: the empty
    string and the empty array are 0, and whatever is not the text of a
    number is not-a-number. *)
Definition fixture_toNumber (v : JSValue) : Res JSNumber :=
  match v with
  | JStr "" | JArr [] => Ok (Finite (inject_Z 0))
  | _ => Ok NaN
  end.

Definition fixture_clock (n : nat) : N := Z.to_N (fixture_now * 1000).

(** A [Response] as the Fetch standard builds it: [ok] is set exactly for
    the statuses 200 to 299. *)
Definition http_response (status : Z) (statusText : string) (json : Res JSValue) : Response :=
  {| status := status;
     ok := Z.leb 200 status && Z.leb status 299;
     statusText := statusText;
     json := json |}.

Definition good_token : JSValue :=
  JObj [("access_token", JStr new_access_token);
        ("refresh_token", JStr the_refresh_token);
        ("token_type", JStr "bearer")].

Definition empty_body : Res JSValue :=
  Throw (JSError "SyntaxError" "Unexpected end of JSON input").

(** The server of the test 'Will refresh a token if it has expired'. *)
Definition refresh_transport (n : nat) (req : FetchRequest) : FetchOutcome :=
  if String.eqb (fr_url req) token_url then
    Resolve (http_response 200 "OK" (Ok good_token))
  else if String.eqb (fr_url req) logout_url then
    Resolve (http_response 200 "OK" (Ok (JObj [])))
  else
    match fr_headers req ≫= fun h => h !! "Authorization" with
    | Some auth =>
        if String.eqb auth ("Bearer " +:+ new_access_token) then
          Resolve (http_response 200 "OK" (Ok (JObj [("foo", JStr "success")])))
        else Resolve (http_response 401 "Unauthorized" empty_body)
    | None => Resolve (http_response 401 "Unauthorized" empty_body)
    end.

(** A network that is down. *)
Definition failing_transport (n : nat) (req : FetchRequest) : FetchOutcome :=
  Reject (JSError "TypeError" "Failed to fetch").

(** A server that answers every call with the given response. *)
Definition constant_transport (resp : Response) (n : nat) (req : FetchRequest) : FetchOutcome :=
  Resolve resp.

Definition refresh_env : Env :=
  {| jwtDecode := fixture_jwtDecode; transport := refresh_transport; clock := fixture_clock;
     toNumber := fixture_toNumber |}.

Definition offline_env : Env :=
  {| jwtDecode := fixture_jwtDecode; transport := failing_transport; clock := fixture_clock;
     toNumber := fixture_toNumber |}.

Definition constant_env (resp : Response) : Env :=
  {| jwtDecode := fixture_jwtDecode; transport := constant_transport resp; clock := fixture_clock;
     toNumber := fixture_toNumber |}.

Definition get_request (u : string) : APIRequest positive :=
  {| method := GET; url := u; headers := None; params := None; body := None;
     validate := None; validateOptional := None; validateList := None |}.

Definition empty_world : World :=
  {| localStorage := ∅; sessionStorage := ∅; request_objs := ∅; header_objs := ∅;
     log := []; ticks := 0 |}.

(** [localStorage] holding the given tokens, and one request object
    [GET /do/refresh/] without headers at address 1. *)
Definition remembered_world (access refresh : string) : World :=
  {| localStorage := {[ "access_token" := access; "refresh_token" := refresh ]};
     sessionStorage := ∅;
     request_objs := {[ 1%positive := get_request "/do/refresh/" ]};
     header_objs := ∅;
     log := [];
     ticks := 0 |}.

Definition raw_get (u : string) : APIRequest (gmap string string) :=
  {| method := GET; url := u; headers := Some ∅; params := None; body := None;
     validate := None; validateOptional := None; validateList := None |}.

(** The first render over [remembered_world] with the expired token. *)
Definition expired_world : World := remembered_world old_access_token the_refresh_token.
Definition expired_snapshot : Snapshot := useAPI_render expired_world no_token_data.

(** Both storage areas holding a pair, as the test 'removes tokens from
    local storage on unsuccessful login' sets them up. *)
Definition doubly_stored_world : World :=
  {| localStorage := {[ "access_token" := old_access_token; "refresh_token" := the_refresh_token ]};
     sessionStorage := {[ "access_token" := old_access_token; "refresh_token" := the_refresh_token ]};
     request_objs := ∅; header_objs := ∅; log := []; ticks := 0 |}.

(** The token that expires in exactly ten seconds, stored and decoded. *)
Definition edge_world : World := remembered_world edge_access_token the_refresh_token.
Definition edge_snapshot : Snapshot :=
  useAPI_render edge_world (TokenData "joe@example.com" (fixture_now - 290) (fixture_now + 10) "").

(** An undecodable access token next to a refresh token. *)
Definition garbled_world : World := remembered_world "not a token" the_refresh_token.
Definition garbled_snapshot : Snapshot := useAPI_render garbled_world no_token_data.

(** The expired token again, and at address 2 a request that brings its
    own headers mapping, held at address 7. *)
Definition supplied_world : World :=
  {| localStorage := {[ "access_token" := old_access_token; "refresh_token" := the_refresh_token ]};
     sessionStorage := ∅;
     request_objs := {[ 2%positive := with_headers (get_request "/foo/get/") (Some 7%positive) ]};
     header_objs := {[ 7%positive := {[ "Authorization" := "Bearer mine"; "X-Trace" := "1" ]} ]};
     log := [];
     ticks := 0 |}.

(** Two refreshes in flight over the expired token. *)
Definition two_refreshes : Sched :=
  sched_init expired_world
    [(expired_snapshot, refresh_creds expired_snapshot);
     (expired_snapshot, refresh_creds expired_snapshot)].

(** ** The rest of the hook: query keys, mutations, session info *)

Definition method_name (m : Method) : string :=
  match m with
  | GET => "GET"
  | POST => "POST"
  | PUT => "PUT"
  | DELETE => "DELETE"
  end.

(** [queryKey] as [useQuery] and [asyncQuery] build it: the method, the
    url, then the key and the value of every parameter. *)
Definition queryKey {H} (opts : APIRequest H) : list string :=
  [method_name (method opts); url opts] ++
  match params opts with
  | Some p => flat_map (fun kv => [fst kv; snd kv]) p
  | None => []
  end.

(** What [tokenData.sub] evaluates to: the property of an object, or, when
    the token data is a string, the method [String.prototype.sub]. *)
Inductive SubMember : Type :=
| SubValue (v : JSValue)
| SubMethod.

(** What the hook returns next to its callbacks. *)
Record SessionInfo : Type := mkSessionInfo {
  user : SubMember;
  readwrite : bool;
  expiry : JSValue
}.

(** The last three entries of the object the hook returns: [tokenData.sub],
    [tokenData.api === 'rw'] and [tokenData.exp], read in this order; the
    render throws when the token data is [null]. *)
Definition session_info (s : Snapshot) : Res SessionInfo :=
  res_bind (match tokenData s with
            | JStr _ => Ok SubMethod
            | d => res_bind (get_prop d "sub") (fun v => Ok (SubValue v))
            end) (fun user =>
  res_bind (get_prop (tokenData s) "api") (fun api =>
  res_bind (get_prop (tokenData s) "exp") (fun exp =>
  Ok {| user := user; readwrite := strict_eq_str api "rw"; expiry := exp |}))).

(** Truthiness of a value. *)
Definition js_truthy (v : JSValue) : bool :=
  match v with
  | JUndefined | JNull => false
  | JBool b => b
  | JNum z => negb (Z.eqb z 0)
  | JStr s => negb (String.eqb s "")
  | JArr _ | JObj _ => true
  end.

Definition with_body {H} (r : APIRequest H) (b : option string) : APIRequest H :=
  {| method := method r;
     url := url r;
     headers := headers r;
     params := params r;
     body := b;
     validate := validate r;
     validateOptional := validateOptional r;
     validateList := validateList r |}.

(** An object literal passed to [request]: a new request object. *)
Definition new_request (r : APIRequest positive) : M positive :=
  fun w =>
    let o := fresh (dom (request_objs w)) in
    (Ok o, mkWorld (localStorage w) (sessionStorage w) (<[o := r]> (request_objs w))
                   (header_objs w) (log w) (ticks w)).

(** The callback [useMutationQuery] hands to [useMutationFn]:
    [request({ ...apiOpts, body })] with
    [body = data ? JSON.stringify(data) : undefined].  [JSON.stringify] is
    the platform's. *)
Definition mutation_fn (JSON_stringify : JSValue -> string) (E : Env) (s : Snapshot)
    (apiOpts : APIRequest positive) (data : JSValue) : M APIResponse :=
  let body := if js_truthy data then Some (JSON_stringify data) else None in
  let! o := new_request (with_body apiOpts body) in
  request E s o.

(** ** The fetch mock of [mockFetch.ts] *)

Module MockFetch.

Record MockFetchRequest : Type := mkMockFetchRequest {
  req_url : string;
  req_method : string;
  req_headers : gmap string string;
  req_body : option string
}.

Record MockFetchResponse : Type := mkMockFetchResponse {
  resp_body : string;
  resp_status : Z;
  resp_headers : gmap string string;
  resp_isError : bool
}.

(** An entry of [#responses]. *)
Record Rule : Type := mkRule {
  fn : MockFetchRequest -> bool;
  body : string;
  status : Z;
  headers : gmap string string;
  isError : bool
}.

(** The second argument of [fetch]. *)
Record RequestInit : Type := mkRequestInit {
  init_method : option string;
  init_headers : option (gmap string string);
  init_body : option string
}.

(** The private state of the class: [#responses], [#enabled], [#calls].
    While [enabled] holds, [globalThis.fetch] is the mock. *)
Record MockFetch : Type := mkMockFetch {
  responses : list Rule;
  enabled : bool;
  calls : list (MockFetchRequest * MockFetchResponse)
}.

(** [new MockFetch()]. *)
Definition initial : MockFetch := {| responses := []; enabled := false; calls := [] |}.

Definition setResponseIf (fn : MockFetchRequest -> bool) (body : string)
    (status : option Z) (headers : option (gmap string string)) (isError : option bool)
    (m : MockFetch) : MockFetch :=
  {| responses :=
       {| fn := fn;
          body := body;
          status := match status with
                    | Some st => if Z.eqb st 0 then 200 else st
                    | None => 200
                    end;
          headers := default ∅ headers;
          isError := default false isError |} :: responses m;
     enabled := enabled m;
     calls := calls m |}.

Definition setJSONResponseIf (JSON_stringify : JSValue -> string)
    (fn : MockFetchRequest -> bool) (body : JSValue)
    (status : option Z) (headers : option (gmap string string)) (isError : option bool)
    (m : MockFetch) : MockFetch :=
  let headers := default ∅ headers in
  let headers :=
    if negb (default false isError) && negb (bool_decide (is_Some (headers !! "Content-Type")))
    then <["Content-Type" := "application/json"]> headers
    else headers in
  setResponseIf fn (JSON_stringify body) status (Some headers) isError m.

Definition setFailureIf (fn : MockFetchRequest -> bool) (msg : string) (m : MockFetch) : MockFetch :=
  setResponseIf fn msg (Some (-1)) (Some ∅) (Some true) m.

Definition setResponse (body : string) (status : option Z)
    (headers : option (gmap string string)) (isError : option bool) (m : MockFetch) : MockFetch :=
  setResponseIf (fun _ => true) body status headers isError m.

Definition setJSONResponse (JSON_stringify : JSValue -> string) (body : JSValue)
    (status : option Z) (headers : option (gmap string string)) (isError : option bool)
    (m : MockFetch) : MockFetch :=
  setJSONResponseIf JSON_stringify (fun _ => true) body status headers isError m.

Definition setFailure (msg : string) (m : MockFetch) : MockFetch :=
  setFailureIf (fun _ => true) msg m.

Definition enable (m : MockFetch) : MockFetch :=
  if enabled m then m
  else {| responses := responses m; enabled := true; calls := calls m |}.

Definition disable (m : MockFetch) : MockFetch :=
  if enabled m then {| responses := responses m; enabled := false; calls := calls m |}
  else m.

Definition reset (m : MockFetch) : MockFetch :=
  enable (disable {| responses := []; enabled := enabled m; calls := [] |}).

Definition isEnabled (m : MockFetch) : bool := enabled m.

(** The request the mock builds from the arguments of [fetch]. *)
Definition mock_request (url : string) (params : option RequestInit) : MockFetchRequest :=
  {| req_url := url;
     req_method := default "GET" (js_or (params ≫= init_method) (Some "GET"));
     req_headers := default ∅ (params ≫= init_headers);
     req_body := js_or (params ≫= init_body) None |}.

(** The [for] loop over [#responses]: the first entry whose [fn] accepts. *)
Fixpoint first_match (rs : list Rule) (req : MockFetchRequest) : option Rule :=
  match rs with
  | [] => None
  | r :: rest => if fn r req then Some r else first_match rest req
  end.

Definition no_response : MockFetchResponse :=
  {| resp_body := "No response implemented";
     resp_status := -1;
     resp_headers := ∅;
     resp_isError := true |}.

(** The mock implementation installed by [enable].  [getReasonPhrase] (of
    http-status-codes, which throws on a status it does not know) and
    [JSON.parse] are the platform's; a throw of the implementation itself
    is a failed call like a rejection. *)
Definition mock_fetch (getReasonPhrase : Z -> Res string) (JSON_parse : string -> Res JSValue)
    (m : MockFetch) (url : string) (params : option RequestInit) : FetchOutcome * MockFetch :=
  let mockReq := mock_request url params in
  match first_match (responses m) mockReq with
  | Some resp =>
      let mockResp := {| resp_body := body resp;
                         resp_status := status resp;
                         resp_headers := headers resp;
                         resp_isError := isError resp |} in
      (if resp_isError mockResp then Reject (JSError "TypeError" (resp_body mockResp))
       else match getReasonPhrase (resp_status mockResp) with
            | Ok text => Resolve (mkResponse (resp_status mockResp) true text
                                             (JSON_parse (resp_body mockResp)))
            | Throw e => Reject e
            end,
       {| responses := responses m; enabled := enabled m;
          calls := calls m ++ [(mockReq, mockResp)] |})
  | None =>
      (Reject (JSError "TypeError" "No response implemented"),
       {| responses := responses m; enabled := enabled m;
          calls := calls m ++ [(mockReq, no_response)] |})
  end.

(** What [#calls] records as the response to a request. *)
Definition recorded (rs : list Rule) (req : MockFetchRequest) : MockFetchResponse :=
  match first_match rs req with
  | Some resp => {| resp_body := body resp;
                    resp_status := status resp;
                    resp_headers := headers resp;
                    resp_isError := isError resp |}
  | None => no_response
  end.

(** A series of [fetch] calls against the mock. *)
Fixpoint mock_fetches (getReasonPhrase : Z -> Res string) (JSON_parse : string -> Res JSValue)
    (m : MockFetch) (reqs : list (string * option RequestInit)) : list FetchOutcome * MockFetch :=
  match reqs with
  | [] => ([], m)
  | (url, params) :: rest =>
      let (out, m1) := mock_fetch getReasonPhrase JSON_parse m url params in
      let (outs, m2) := mock_fetches getReasonPhrase JSON_parse m1 rest in
      (out :: outs, m2)
  end.

(** The [fetch] call of [runRawRequest] as the mock receives it. *)
Definition init_of (req : FetchRequest) : option RequestInit :=
  Some {| init_method := Some (method_name (fr_method req));
          init_headers := fr_headers req;
          init_body := fr_body req |}.

(** The mock as the transport of a run of the hook. *)
Definition as_transport (getReasonPhrase : Z -> Res string) (JSON_parse : string -> Res JSValue)
    (m : MockFetch) (n : nat) (req : FetchRequest) : FetchOutcome :=
  fst (mock_fetch getReasonPhrase JSON_parse m (fr_url req) (init_of req)).

End MockFetch.

(** [getReasonPhrase] on the statuses the tests use; http-status-codes
    throws on a status it does not know. *)
Definition fixture_getReasonPhrase (st : Z) : Res string :=
  if Z.eqb st 200 then Ok "OK"
  else if Z.eqb st 204 then Ok "No Content"
  else if Z.eqb st 400 then Ok "Bad Request"
  else if Z.eqb st 401 then Ok "Unauthorized"
  else if Z.eqb st 404 then Ok "Not Found"
  else if Z.eqb st 500 then Ok "Internal Server Error"
  else Throw (JSError "Error" ("Status code does not exist: " +:+ pretty st)).

(** [JSON.stringify] and [JSON.parse] on the empty object, the only body
    the examples below send; the empty text stands for every other one. *)
Definition fixture_JSON_stringify (v : JSValue) : string :=
  match v with
  | JObj [] => "{}"
  | _ => ""
  end.

Definition fixture_JSON_parse (text : string) : Res JSValue :=
  if String.eqb text "{}" then Ok (JObj []) else empty_body.

(** The hook run against the mock holding the rules of [m]. *)
Definition mock_env (m : MockFetch.MockFetch) : Env :=
  {| jwtDecode := fixture_jwtDecode;
     transport := MockFetch.as_transport fixture_getReasonPhrase fixture_JSON_parse m;
     clock := fixture_clock;
     toNumber := fixture_toNumber |}.

(** ** Shapes the further proofs speak about *)

(** Reading and converting the expiry of what the token [token] decodes
    to throws [e]. *)
Definition expiry_throws (E : Env) (token : option string) (e : Exn) : Prop :=
  exists d,
    decode_token E token = Ok d /\
    (get_prop d "exp" = Throw e \/
     exists v, get_prop d "exp" = Ok v /\ ToNumber E v = Throw e).

(** The transport calls of one [request] for the caller's object
    [options]: the call for the caller, preceded by the refresh call if
    one was needed; or the refresh call alone, when it failed; or no call
    at all, when [request] threw before any was made: on the expiry of its
    token data, or, on its way through [runTokenRequest], on the expiry of
    the stored token. *)
Definition calls_of_request (E : Env) (s : Snapshot) (options : APIRequest positive)
    (w : World) (r : Res APIResponse * World) : Prop :=
  let token_call := raw_fetch_request (token_request (refresh_creds s)) in
  exists pre,
    (pre = [] \/ pre = [token_call]) /\
    ((exists target,
        fetches (log (snd r)) = fetches (log w) ++ pre ++ [target] /\
        fr_url target = match params options with
                        | Some p => url options +:+ "?" +:+ usp_toString p
                        | None => url options
                        end /\
        fr_method target = method options /\
        fr_body target = body options) \/
     (pre = [token_call] /\
      fetches (log (snd r)) = fetches (log w) ++ pre /\
      exists msg c, fst r = Throw (APIError msg c)) \/
     (pre = [] /\
      fetches (log (snd r)) = fetches (log w) /\
      exists e, fst r = Throw e /\
                (expiring E (tokenData s) (clock E (ticks w)) = Throw e \/
                 expiry_throws E (current_access w) e))).

(** How often a character occurs in a text. *)
Fixpoint count_char (c : ascii) (s : string) : nat :=
  match s with
  | EmptyString => 0
  | String c' rest => (if Ascii.eqb c' c then 1 else 0) + count_char c rest
  end.

(** * Proofs *)

(** ** The model against the tests of [useAPI.test.tsx] *)

(** 'can make a successful "remember" login request': the request body. *)
Example login_body :
  usp_toString (login_creds "joe@example.com" "foobar" true) =
  "username=joe%40example.com&password=foobar&remember=true&grant_type=password".
Proof. vm_compute. reflexivity. Qed.

(** 'Will refresh a token if it has expired': two calls, the refresh first,
    and the new token stored where the old one was. *)
Example refresh_then_target :
  let r := request refresh_env expired_snapshot 1 expired_world in
  fst r = Ok {| code := 200; data := JObj [("foo", JStr "success")] |} /\
  map fr_url (fetches (log (snd r))) = ["/api/oauth2/token/"; "/do/refresh/"] /\
  map fr_body (fetches (log (snd r))) =
    [Some "refresh_token=the.refresh.jwt&remember=true&grant_type=refresh_token"; None] /\
  localStorage (snd r) !! "access_token" = Some new_access_token.
Proof. vm_compute. auto. Qed.

(** "doesn't make a request if there is no access token" *)
Example missing_access_token :
  request refresh_env (useAPI_render empty_world no_token_data) 1 empty_world =
  (Throw (APIError "Missing access token" 401), empty_world).
Proof. reflexivity. Qed.

(** 'removes tokens from local storage on unsuccessful login' *)
Example failed_login_clears :
  let r := login (constant_env (http_response 401 "Unauthorized" empty_body))
                 (useAPI_render doubly_stored_world no_token_data)
                 "joe@foo.com" "foobar" true doubly_stored_world in
  fst r = Throw (APIError "Unexpected end of JSON input" 401) /\
  map (fun k => localStorage (snd r) !! k) ["access_token"; "refresh_token"] = [None; None] /\
  map (fun k => sessionStorage (snd r) !! k) ["access_token"; "refresh_token"] = [None; None].
Proof. vm_compute. auto. Qed.

(** ** Unfolding the monad *)

Ltac js_unfold :=
  cbv beta iota zeta delta
    [bind ret lift throw emit date_now fetch set_localStorage set_sessionStorage
     current_item setAccessTokenLS setRefreshTokenLS setAccessTokenSS setRefreshTokenSS
     removeAccessTokenLS removeRefreshTokenLS removeAccessTokenSS removeRefreshTokenSS
     clear_tokens runExclusive fst snd
     localStorage sessionStorage request_objs header_objs log ticks].

Lemma decode_token_total E token : exists d, decode_token E token = Ok d.
Proof.
  unfold decode_token.
  destruct token as [t|]; simpl; [|eauto].
  destruct (negb (String.eqb t "")); simpl; [|eauto].
  destruct (jwtDecode E t); simpl; eauto.
Qed.

(** ** Comparing an expiry with the clock *)

(** For an integer expiry the comparisons are those of the integers, in
    milliseconds. *)
Lemma number_lt_seconds now e :
  number_lt (seconds now) (Finite (inject_Z e)) = Z.ltb (Z.of_N now) (e * 1000).
Proof.
  unfold number_lt, seconds, Qle_bool, inject_Z. cbn [Qnum Qden].
  change (Z.pos 1000) with 1000. change (Z.pos 1) with 1.
  destruct (Z.leb_spec (e * 1000) (Z.of_N now * 1)), (Z.ltb_spec (Z.of_N now) (e * 1000));
    simpl; try reflexivity; lia.
Qed.

Lemma number_lt_minus now e :
  number_lt (number_minus (Finite (inject_Z e)) 10) (seconds now) =
  Z.ltb ((e - 10) * 1000) (Z.of_N now).
Proof.
  unfold number_lt, number_minus, seconds, Qle_bool, Qminus, Qplus, Qopp, inject_Z.
  cbn [Qnum Qden].
  change (Z.pos (1 * 1)) with 1. change (Z.pos 1000) with 1000. change (Z.pos 1) with 1.
  destruct (Z.leb_spec (Z.of_N now * 1) ((e * 1 + - (10) * 1) * 1000)),
           (Z.ltb_spec ((e - 10) * 1000) (Z.of_N now));
    simpl; try reflexivity; lia.
Qed.

(** No clock reading is before the epoch. *)
Lemma number_lt_seconds_zero now :
  number_lt (seconds now) (Finite (inject_Z 0)) = false.
Proof. rewrite number_lt_seconds. apply Z.ltb_ge. lia. Qed.

Lemma get_prop_cases v k :
  (exists x, get_prop v k = Ok x /\ forall k', exists y, get_prop v k' = Ok y) \/
  (forall k', get_prop v k' = Throw (JSError "TypeError" (type_error_message v k'))).
Proof.
  destruct v; simpl; eauto.
Qed.

(** ** The exclusive section, step by step *)

Lemma token_enter_spec E creds w d :
  decode_token E (current_access w) = Ok d ->
  token_enter E creds w =
    match get_prop d "exp" with
    | Throw e => (Throw e, cleared w)
    | Ok v =>
        match ToNumber E v with
        | Throw e => (Throw e, ticked (cleared w))
        | Ok x =>
            (Ok (if number_lt (seconds (clock E (ticks w))) x
                 then Stored (stored_response w)
                 else Network (token_request creds)),
             ticked (cleared w))
        end
    end.
Proof.
  intros Hd. unfold token_enter, stored_response, current_access, current_refresh in *.
  destruct w as [ls ss ro ho lg tk]. simpl in Hd. js_unfold.
  rewrite Hd. js_unfold.
  destruct (get_prop d "exp") as [v|e]; [|reflexivity].
  js_unfold. destruct (ToNumber E v) as [x|e]; [|reflexivity].
  destruct (number_lt _ _); reflexivity.
Qed.

Lemma token_persist_ok creds resp w a r :
  get_prop (data resp) "access_token" = Ok a ->
  get_prop (data resp) "refresh_token" = Ok r ->
  token_persist creds resp w = (Ok resp, persisted creds a r w).
Proof.
  intros Ha Hr. unfold token_persist, persisted.
  destruct w as [ls ss ro ho lg tk].
  case_decide; js_unfold; rewrite Ha; js_unfold; rewrite Hr; reflexivity.
Qed.

Lemma token_persist_throw creds resp w e :
  get_prop (data resp) "access_token" = Throw e ->
  token_persist creds resp w = (Throw e, w).
Proof.
  intros Ha. unfold token_persist.
  case_decide; js_unfold; rewrite Ha; reflexivity.
Qed.

(** Validated pairs have string tokens. *)
Lemma isAPIAuthTokens_strings v :
  isAPIAuthTokens v = true ->
  exists a r, get_prop v "access_token" = Ok (JStr a) /\ get_prop v "refresh_token" = Ok (JStr r)
              /\ get_prop v "token_type" = Ok (JStr "bearer").
Proof.
  unfold isAPIAuthTokens.
  destruct (get_prop v "access_token") as [a|] eqn:Ha; simpl; [|discriminate].
  destruct (get_prop v "refresh_token") as [r|] eqn:Hr; simpl; [|discriminate].
  destruct (get_prop v "token_type") as [t|] eqn:Ht; simpl; [|discriminate].
  intros H. apply andb_prop in H as [H Ht']. apply andb_prop in H as [Ha' Hr'].
  destruct a; try discriminate. destruct r; try discriminate.
  destruct t; try discriminate. simpl in Ht'. apply String.eqb_eq in Ht'. subst.
  eauto.
Qed.

Lemma fetches_app l1 l2 : fetches (l1 ++ l2) = fetches l1 ++ fetches l2.
Proof. unfold fetches. apply omap_app. Qed.

(** [runTokenRequest], by what the stored token decodes to: reading its
    [exp] throws; converting it throws; it is later than the clock; or the
    network is needed. *)
Lemma runTokenRequest_unfold E s creds w d :
  decode_token E (current_access w) = Ok d ->
  runTokenRequest E s creds w =
    match get_prop d "exp" with
    | Throw e => (Throw e, logged EvUnlock (locked w))
    | Ok v =>
        match ToNumber E v with
        | Throw e => (Throw e, logged EvUnlock (entered w))
        | Ok x =>
            if number_lt (seconds (clock E (ticks w))) x then
              (Ok (stored_response w),
               logged EvUnlock (persisted creds (opt_value (current_access w))
                                          (opt_value (current_refresh w)) (entered w)))
            else token_network E s creds w
        end
    end.
Proof.
  intros Hd. unfold runTokenRequest, runExclusive, token_network.
  unfold bind at 1. unfold emit at 1.
  unfold bind at 1.
  rewrite (token_enter_spec E creds _ d) by (destruct w; exact Hd).
  destruct w as [ls ss ro ho lg tk]. simpl ticks.
  destruct (get_prop d "exp") as [v|e]; [|reflexivity].
  destruct (ToNumber E v) as [x|e]; [|reflexivity].
  destruct (number_lt _ _).
  - unfold bind, ret.
    rewrite (token_persist_ok _ _ _ (opt_value (current_access (mkWorld ls ss ro ho lg tk)))
               (opt_value (current_refresh (mkWorld ls ss ro ho lg tk)))); try reflexivity.
  - unfold bind at 1. unfold runRawRequest. unfold bind at 1. unfold fetch.
    cbv beta iota zeta. simpl log. rewrite fetches_app. simpl fetches at 2.
    rewrite app_nil_r. unfold lift.
    destruct (raw_complete _ _ _); reflexivity.
Qed.

(** The same for a stored token that decodes to an integer expiry. *)
Lemma runTokenRequest_unfold_num E s creds w d e :
  decode_token E (current_access w) = Ok d ->
  get_prop d "exp" = Ok (JNum e) ->
  runTokenRequest E s creds w =
    if Z.ltb (Z.of_N (clock E (ticks w))) (e * 1000) then
      (Ok (stored_response w),
       logged EvUnlock (persisted creds (opt_value (current_access w))
                                  (opt_value (current_refresh w)) (entered w)))
    else token_network E s creds w.
Proof.
  intros Hd He. rewrite (runTokenRequest_unfold E s creds w d Hd), He.
  cbn [ToNumber]. rewrite number_lt_seconds. reflexivity.
Qed.

(** ** The token codec *)

Lemma decode_token_zero E token :
  token = None \/ token = Some "" \/
  (exists t e, token = Some t /\ jwtDecode E t = Throw e) ->
  decode_token E token = Ok no_token_data.
Proof.
  intros [-> | [-> | (t & e & -> & Hthrow)]]; try reflexivity.
  unfold decode_token. simpl.
  destruct (negb (String.eqb t "")); simpl; [|reflexivity].
  rewrite Hthrow. reflexivity.
Qed.

Lemma decode_token_accepted E t d :
  t <> "" -> jwtDecode E t = Ok d -> decode_token E (Some t) = Ok d.
Proof.
  intros Hne Hd. unfold decode_token. cbn [truthy].
  apply String.eqb_neq in Hne. rewrite Hne. cbn [negb]. rewrite Hd. reflexivity.
Qed.

(** C9, as the code has it: [decode_token] returns for every input and
    never throws; for an absent or empty token and for a token [jwtDecode]
    rejects it returns exactly the zero claims; for a token [jwtDecode]
    accepts it returns what [jwtDecode] returned, as it is. *)
Theorem decode_token_never_raises (E : Env) (token : option string) :
  (exists d, decode_token E token = Ok d) /\
  ((token = None \/ token = Some "" \/
    (exists t e, token = Some t /\ jwtDecode E t = Throw e)) ->
   decode_token E token =
     Ok (JObj [("sub", JStr ""); ("iat", JNum 0); ("exp", JNum 0); ("api", JStr "")])) /\
  (forall t d, token = Some t -> t <> "" -> jwtDecode E t = Ok d ->
   decode_token E token = Ok d).
Proof.
  split; [apply decode_token_total|]. split; [apply decode_token_zero|].
  intros t d -> Hne Hd. apply decode_token_accepted; assumption.
Qed.

Lemma decode_token_never_raises_witness :
  decode_token refresh_env (Some "not a token") =
    Ok (JObj [("sub", JStr ""); ("iat", JNum 0); ("exp", JNum 0); ("api", JStr "")]).
Proof.
  apply (decode_token_never_raises refresh_env (Some "not a token")).
  right. right. exists "not a token", (JSError "InvalidTokenError" "Invalid token specified").
  split; reflexivity.
Defined.

(** C9 as stated fails: a token whose payload is the JSON text [null] is
    malformed, yet [jwtDecode] accepts it, and [decode_token] returns
    [null] for it, not the zero claims; reading the expiry of that result
    throws. *)
Lemma decode_token_null_payload :
  let decoded := decode_token refresh_env (Some null_payload_token) in
  jwtDecode refresh_env null_payload_token = Ok JNull /\
  decoded = Ok JNull /\
  decoded <> Ok (JObj [("sub", JStr ""); ("iat", JNum 0); ("exp", JNum 0); ("api", JStr "")]) /\
  get_prop JNull "exp" =
    Throw (JSError "TypeError" "Cannot read properties of null (reading 'exp')").
Proof.
  split; [reflexivity|]. split; [reflexivity|]. split; [discriminate|reflexivity].
Qed.

(** ** The request executor *)

Lemma raw_complete_validated s creds out resp :
  raw_complete s (token_request creds) out = Ok resp ->
  isAPIAuthTokens (data resp) = true.
Proof.
  destruct out as [r|e]; simpl; [|done].
  unfold raw_try_body. simpl.
  destruct (Z.eqb (status r) 204); simpl.
  - destruct (Z.leb 400 (status r)); simpl; [done|].
    intros [= <-]. simpl. unfold isAPIAuthTokens. simpl. reflexivity.
  - destruct (json r) as [d|]; simpl; [|done].
    destruct (ok r); simpl.
    + destruct (isAPIAuthTokens d) eqn:Hv; simpl; [|done].
      rewrite andb_false_r.
      destruct (Z.leb 400 (status r)); simpl; [done|].
      intros [= <-]. exact Hv.
    + destruct (get_prop d "detail"); simpl; done.
Qed.

(** Whatever a response with an error status carries, the executor throws
    an [APIError] with that status. *)
Lemma raw_complete_error_status s options resp :
  400 <= status resp ->
  exists msg, raw_complete s options (Resolve resp) = Throw (APIError msg (status resp)).
Proof.
  intros Hst. simpl. unfold raw_try_body.
  assert (H204 : Z.eqb (status resp) 204 = false) by (apply Z.eqb_neq; lia).
  assert (H400 : Z.leb 400 (status resp) = true) by (apply Z.leb_le; lia).
  rewrite H204, H400.
  destruct (json resp) as [d|e]; simpl; [|eauto].
  destruct (ok resp); simpl.
  - destruct (validator_rejects (validate options) d); simpl; [eauto|].
    destruct (_ && _); simpl; [eauto|].
    destruct (match validateList options with Some _ => _ | None => _ end); simpl; eauto.
  - destruct (get_prop d "detail") as [x|]; simpl; [|eauto].
    destruct x; simpl; eauto.
Qed.

(** C6, as the code has it: a response with an error status always makes
    the executor throw an [APIError] with that status.  Its message is the
    body's [detail] when the response is not [ok] and [detail] is a string;
    it is the status text when the transport reports the response [ok] all
    the same, the body parses and no validator rejects it; it is the
    parser's message when the body does not parse. *)
Theorem runRawRequest_error_status (E : Env) (s : Snapshot)
    (options : APIRequest (gmap string string)) (w : World) (resp : Response) :
  transport E (length (fetches (log w))) (raw_fetch_request options) = Resolve resp ->
  400 <= status resp ->
  exists msg,
    fst (runRawRequest E s options w) = Throw (APIError msg (status resp)) /\
    (forall d detail, ok resp = false -> json resp = Ok d ->
       get_prop d "detail" = Ok (JStr detail) -> msg = detail) /\
    (forall d, ok resp = true -> json resp = Ok d ->
       validators_accept options d = true -> msg = statusText resp) /\
    (forall e, json resp = Throw e -> msg = exn_message e).
Proof.
  intros Htr Hst.
  unfold runRawRequest, bind, fetch, lift. rewrite Htr. cbv beta iota.
  change (fst (?a, ?b)) with a.
  destruct (raw_complete_error_status s options resp Hst) as [msg Hmsg].
  exists msg. split; [exact Hmsg|].
  simpl in Hmsg. unfold raw_try_body in Hmsg.
  assert (H204 : Z.eqb (status resp) 204 = false) by (apply Z.eqb_neq; lia).
  assert (H400 : Z.leb 400 (status resp) = true) by (apply Z.leb_le; lia).
  rewrite H204, H400 in Hmsg.
  split; [|split].
  - intros d detail Hok Hjson Hdetail.
    rewrite Hjson, Hok in Hmsg. simpl in Hmsg. rewrite Hdetail in Hmsg. simpl in Hmsg.
    congruence.
  - intros d Hok Hjson Hacc.
    rewrite Hjson, Hok in Hmsg. simpl in Hmsg.
    unfold validators_accept in Hacc.
    apply andb_prop in Hacc as [Hacc Hl]. apply andb_prop in Hacc as [Hv Ho].
    apply negb_true_iff in Hv. rewrite Hv in Hmsg.
    assert (Ho' : negb (is_undefined d) && validator_rejects (validateOptional options) d = false).
    { destruct (is_undefined d); simpl in *; [reflexivity|].
      apply negb_true_iff in Ho. exact Ho. }
    rewrite Ho' in Hmsg.
    destruct (validateList options); [rewrite Hl in Hmsg|]; simpl in Hmsg; congruence.
  - intros e Hjson. rewrite Hjson in Hmsg. simpl in Hmsg. congruence.
Qed.

Lemma runRawRequest_error_status_witness :
  fst (runRawRequest
         (constant_env (http_response 403 "Forbidden" (Ok (JObj [("detail", JStr "Not allowed")]))))
         expired_snapshot (raw_get "/foo/get/") expired_world)
  = Throw (APIError "Not allowed" 403).
Proof.
  destruct (runRawRequest_error_status
              (constant_env (http_response 403 "Forbidden" (Ok (JObj [("detail", JStr "Not allowed")]))))
              expired_snapshot (raw_get "/foo/get/") expired_world
              (http_response 403 "Forbidden" (Ok (JObj [("detail", JStr "Not allowed")]))))
    as (msg & Hthrow & Hdetail & _ & _).
  - reflexivity.
  - simpl. lia.
  - rewrite Hthrow.
    rewrite (Hdetail (JObj [("detail", JStr "Not allowed")]) "Not allowed"); reflexivity.
Defined.

(** C6 as stated fails: a 404 whose JSON body has no [detail] is thrown
    with an empty message, not with the status text. *)
Lemma runRawRequest_missing_detail :
  let resp := http_response 404 "Not Found" (Ok (JObj [])) in
  let thrown := fst (runRawRequest (constant_env resp) expired_snapshot
                                   (raw_get "/foo/get/") expired_world) in
  thrown = Throw (APIError "" 404) /\
  thrown <> Throw (APIError (statusText resp) (status resp)).
Proof.
  split; [reflexivity|]. vm_compute. discriminate.
Qed.

(** ** The exclusive section of [runTokenRequest] *)

(** A stored token that is found unexpired is there, is not empty, and
    was accepted by [jwtDecode]. *)
Lemma decode_token_fresh_some E token d v x (now : N) :
  decode_token E token = Ok d ->
  get_prop d "exp" = Ok v ->
  ToNumber E v = Ok x ->
  number_lt (seconds now) x = true ->
  exists t, token = Some t /\ t <> "" /\ jwtDecode E t = Ok d.
Proof.
  unfold decode_token. intros Hd Hv Hx Hnow.
  assert (Hzero : d = no_token_data -> False).
  { intros ->. cbn in Hv. injection Hv as <-. cbn in Hx. injection Hx as <-.
    rewrite number_lt_seconds_zero in Hnow. discriminate. }
  destruct token as [t|]; simpl in Hd.
  - destruct (String.eqb t "") eqn:Ht; simpl in Hd.
    + injection Hd as <-. destruct Hzero. reflexivity.
    + destruct (jwtDecode E t) as [d'|] eqn:Hj; simpl in Hd.
      * injection Hd as <-. exists t. apply String.eqb_neq in Ht. auto.
      * injection Hd as <-. destruct Hzero. reflexivity.
  - injection Hd as <-. destruct Hzero. reflexivity.
Qed.

Lemma logged_log ev w : log (logged ev w) = log w ++ [ev].
Proof. reflexivity. Qed.

Lemma persisted_log creds a r w : log (persisted creds a r w) = log w.
Proof. unfold persisted. case_decide; reflexivity. Qed.

Lemma fetches_snoc_lock l : fetches (l ++ [EvLock]) = fetches l.
Proof. rewrite fetches_app. apply app_nil_r. Qed.

Lemma fetches_snoc_unlock l : fetches (l ++ [EvUnlock]) = fetches l.
Proof. rewrite fetches_app. apply app_nil_r. Qed.

Lemma fetches_snoc_fetch l req : fetches (l ++ [EvFetch req]) = fetches l ++ [req].
Proof. rewrite fetches_app. reflexivity. Qed.

Lemma entered_log w : log (entered w) = log w ++ [EvLock].
Proof. reflexivity. Qed.

Lemma locked_log w : log (locked w) = log w ++ [EvLock].
Proof. reflexivity. Qed.

Create Rewrite HintDb js_log.
#[local] Hint Rewrite logged_log persisted_log entered_log locked_log
  fetches_snoc_unlock fetches_snoc_fetch fetches_snoc_lock : js_log.

Lemma clear_storage_cleared st : scope_cleared (clear_storage st).
Proof.
  unfold scope_cleared, clear_storage. split.
  - rewrite lookup_delete_ne by done. apply lookup_delete_eq.
  - apply lookup_delete_eq.
Qed.

(** The transport calls and the outcome of the network branch. *)
Lemma token_network_spec E s creds w :
  fetches (log (snd (token_network E s creds w))) =
    fetches (log w) ++ [raw_fetch_request (token_request creds)] /\
  forall resp, fst (token_network E s creds w) = Ok resp ->
    isAPIAuthTokens (data resp) = true.
Proof.
  unfold token_network.
  destruct (raw_complete s (token_request creds) _) as [resp|e] eqn:Hraw.
  - apply raw_complete_validated in Hraw.
    destruct (isAPIAuthTokens_strings _ Hraw) as (a & rt & Ha & Hr & _).
    rewrite (token_persist_ok creds resp _ (JStr a) (JStr rt) Ha Hr). cbn [fst snd].
    autorewrite with js_log.
    split; [reflexivity|]. intros ? [= <-]. exact Hraw.
  - cbn [fst snd]. autorewrite with js_log.
    split; [reflexivity|]. intros ? [=].
Qed.




Lemma logged_localStorage ev w : localStorage (logged ev w) = localStorage w.
Proof. reflexivity. Qed.

Lemma logged_sessionStorage ev w : sessionStorage (logged ev w) = sessionStorage w.
Proof. reflexivity. Qed.

Lemma insert_pair_holds st a r :
  scope_holds (<["refresh_token" := r]> (<["access_token" := a]> st)) a r.
Proof.
  unfold scope_holds. split.
  - rewrite lookup_insert_ne by done. apply lookup_insert_eq.
  - apply lookup_insert_eq.
Qed.

(** Persisting into cleared storage fills the scope chosen by [remember]
    and leaves the other one cleared. *)
Lemma persisted_scopes creds a r w :
  scope_cleared (localStorage w) -> scope_cleared (sessionStorage w) ->
  if decide (usp_get creds "remember" = Some "true") then
    scope_holds (localStorage (persisted creds a r w)) (js_String a) (js_String r) /\
    scope_cleared (sessionStorage (persisted creds a r w))
  else
    scope_holds (sessionStorage (persisted creds a r w)) (js_String a) (js_String r) /\
    scope_cleared (localStorage (persisted creds a r w)).
Proof.
  intros Hl Hs. unfold persisted.
  case_decide; simpl; (split; [apply insert_pair_holds|assumption]).
Qed.

(** The ways [runTokenRequest] can go, with the world each leaves. *)
Lemma runTokenRequest_outcomes E s creds w :
  let req := raw_fetch_request (token_request creds) in
  (exists e,
     runTokenRequest E s creds w = (Throw e, logged EvUnlock (locked w)) /\
     exists d, decode_token E (current_access w) = Ok d /\ get_prop d "exp" = Throw e) \/
  (exists e,
     runTokenRequest E s creds w = (Throw e, logged EvUnlock (entered w)) /\
     exists d v, decode_token E (current_access w) = Ok d /\ get_prop d "exp" = Ok v /\
                 ToNumber E v = Throw e) \/
  (runTokenRequest E s creds w =
     (Ok (stored_response w),
      logged EvUnlock (persisted creds (opt_value (current_access w))
                         (opt_value (current_refresh w)) (entered w))) /\
   exists t, current_access w = Some t /\ t <> "") \/
  (exists resp a r,
     raw_complete s (token_request creds) (transport E (length (fetches (log w))) req)
       = Ok resp /\
     get_prop (data resp) "access_token" = Ok (JStr a) /\
     get_prop (data resp) "refresh_token" = Ok (JStr r) /\
     runTokenRequest E s creds w =
       (Ok resp, logged EvUnlock (persisted creds (JStr a) (JStr r)
                                    (logged (EvFetch req) (entered w))))) \/
  (exists e,
     raw_complete s (token_request creds) (transport E (length (fetches (log w))) req)
       = Throw e /\
     runTokenRequest E s creds w =
       (Throw e, logged EvUnlock (logged (EvFetch req) (entered w)))).
Proof.
  intros req.
  destruct (decode_token_total E (current_access w)) as [d Hd].
  rewrite (runTokenRequest_unfold E s creds w d Hd).
  destruct (get_prop d "exp") as [v|e] eqn:Hv; [|left; eauto 10].
  destruct (ToNumber E v) as [x|e] eqn:Hx; [|right; left; eauto 10].
  destruct (number_lt _ _) eqn:Hnow.
  - right. right. left. split; [reflexivity|].
    destruct (decode_token_fresh_some E _ d v x _ Hd Hv Hx Hnow) as (t & Ht & Hne & _).
    eauto.
  - unfold token_network. fold req.
    destruct (raw_complete s (token_request creds) _) as [resp|e] eqn:Hraw.
    + right. right. right. left.
      pose proof (raw_complete_validated _ _ _ _ Hraw) as Hvalid.
      destruct (isAPIAuthTokens_strings _ Hvalid) as (a & rt & Ha & Hr & _).
      exists resp, a, rt.
      rewrite (token_persist_ok creds resp _ (JStr a) (JStr rt) Ha Hr). auto.
    + right. right. right. right. eauto.
Qed.

(** What a returning [runTokenRequest] has stored: the returned access
    token and the text of the returned refresh token, which is a string
    unless the stored pair was returned and no refresh token was stored. *)
Lemma runTokenRequest_returns E s creds w w' resp :
  runTokenRequest E s creds w = (Ok resp, w') ->
  exists (a : string) (r : JSValue),
    get_prop (data resp) "access_token" = Ok (JStr a) /\
    get_prop (data resp) "refresh_token" = Ok r /\
    ((exists t, r = JStr t) \/
     (r = JNull /\ current_refresh w = None /\ resp = stored_response w)) /\
    if decide (usp_get creds "remember" = Some "true") then
      scope_holds (localStorage w') a (js_String r) /\ scope_cleared (sessionStorage w')
    else
      scope_holds (sessionStorage w') a (js_String r) /\ scope_cleared (localStorage w').
Proof.
  destruct (runTokenRequest_outcomes E s creds w)
    as [(e & -> & _)|[(e & -> & _)|[(-> & t & Ht & _)|[(resp0 & a & rt & _ & Ha & Hr & ->)
        |(e & _ & ->)]]]]; try discriminate.
  - intros [= <- <-].
    exists t, (opt_value (current_refresh w)). unfold stored_response. rewrite Ht. simpl.
    split; [reflexivity|]. split; [reflexivity|].
    split.
    { destruct (current_refresh w) as [rt|] eqn:Hrt; simpl; [left; eauto|right; auto]. }
    pose proof (persisted_scopes creds (JStr t) (opt_value (current_refresh w)) (entered w)
                  (clear_storage_cleared _) (clear_storage_cleared _)) as H.
    exact H.
  - intros [= <- <-]. exists a, (JStr rt).
    split; [exact Ha|]. split; [exact Hr|]. split; [left; eauto|].
    pose proof (persisted_scopes creds (JStr a) (JStr rt)
                  (logged (EvFetch (raw_fetch_request (token_request creds))) (entered w))
                  (clear_storage_cleared _) (clear_storage_cleared _)) as H.
    exact H.
Qed.




(** ** Logout *)

Lemma clear_tokens_spec w : clear_tokens w = (Ok tt, cleared w).
Proof. destruct w. reflexivity. Qed.

Lemma logout_unfold E s w :
  logout E s w =
    if truthy (refreshToken s) then
      match runRawRequest E s (logout_request (default "" (refreshToken s))) w with
      | (Ok resp, w1) => (Ok resp, cleared w1)
      | (Throw e, w1) => (Throw e, w1)
      end
    else (Ok {| code := 204; data := JUndefined |}, cleared w).
Proof.
  unfold logout.
  destruct (refreshToken s) as [r|] eqn:Hr; cbn [truthy default from_option id].
  - destruct (negb (String.eqb r "")); unfold bind at 1.
    + destruct (runRawRequest E s (logout_request r) w) as [[resp|e] w1]; [|reflexivity].
      unfold bind. rewrite clear_tokens_spec. reflexivity.
    + unfold ret at 1. unfold bind. rewrite clear_tokens_spec. reflexivity.
  - unfold bind, ret. rewrite clear_tokens_spec. reflexivity.
Qed.

Lemma runRawRequest_world E s options w :
  snd (runRawRequest E s options w) = logged (EvFetch (raw_fetch_request options)) w.
Proof. reflexivity. Qed.

(** What [logout] leaves behind, by outcome. *)
Lemma logout_clears_on_return E s w :
  (truthy (refreshToken s) = false ->
   logout E s w = (Ok {| code := 204; data := JUndefined |}, cleared w)) /\
  (forall resp w', logout E s w = (Ok resp, w') ->
     scope_cleared (localStorage w') /\ scope_cleared (sessionStorage w')) /\
  (forall e w', logout E s w = (Throw e, w') ->
     truthy (refreshToken s) = true /\
     runRawRequest E s (logout_request (default "" (refreshToken s))) w = (Throw e, w')).
Proof.
  rewrite logout_unfold. split; [|split].
  - intros H. rewrite H. reflexivity.
  - intros resp w' H.
    destruct (truthy (refreshToken s)).
    + destruct (runRawRequest _ _ _ _) as [[resp0|e] w1]; [|discriminate].
      injection H as <- <-. split; apply clear_storage_cleared.
    + injection H as <- <-. split; apply clear_storage_cleared.
  - intros e w' H.
    destruct (truthy (refreshToken s)); [|discriminate].
    destruct (runRawRequest _ _ _ _) as [[resp0|e0] w1]; [discriminate|].
    injection H as <- <-. split; reflexivity.
Qed.

(** A revoke call that fails makes [logout] fail the same way, with the
    storage as it was. *)
Lemma logout_hands_failure_on E s w e w1 :
  truthy (refreshToken s) = true ->
  runRawRequest E s (logout_request (default "" (refreshToken s))) w = (Throw e, w1) ->
  logout E s w = (Throw e, w1) /\
  localStorage w1 = localStorage w /\ sessionStorage w1 = sessionStorage w.
Proof.
  intros Hr Hraw. rewrite logout_unfold, Hr, Hraw. split; [reflexivity|].
  pose proof (runRawRequest_world E s (logout_request (default "" (refreshToken s))) w) as Hw.
  rewrite Hraw in Hw. cbn [snd] in Hw. subst w1. split; reflexivity.
Qed.

(** C5, as the code has it: without a stored refresh token [logout] makes
    no transport call, clears both scopes and returns a 204; whenever
    [logout] returns, both scopes hold no token; a revoke call that fails
    makes [logout] fail with the same error and leaves the stored tokens
    where they were; and [logout] fails in no other way. *)
Theorem logout_clears_when_it_returns (E : Env) (s : Snapshot) (w : World) :
  (truthy (refreshToken s) = false ->
   logout E s w = (Ok {| code := 204; data := JUndefined |}, cleared w) /\
   log (cleared w) = log w) /\
  (forall resp w', logout E s w = (Ok resp, w') ->
     scope_cleared (localStorage w') /\ scope_cleared (sessionStorage w')) /\
  (forall e w', logout E s w = (Throw e, w') ->
     truthy (refreshToken s) = true /\
     runRawRequest E s (logout_request (default "" (refreshToken s))) w = (Throw e, w')) /\
  (forall e w1, truthy (refreshToken s) = true ->
     runRawRequest E s (logout_request (default "" (refreshToken s))) w = (Throw e, w1) ->
     logout E s w = (Throw e, w1) /\
     localStorage w1 = localStorage w /\ sessionStorage w1 = sessionStorage w).
Proof.
  destruct (logout_clears_on_return E s w) as (Hnone & Hret & Hthrow).
  split; [|split; [assumption|split; [assumption|]]].
  - intros H. split; [apply Hnone, H|reflexivity].
  - intros e w1. apply logout_hands_failure_on.
Qed.

Lemma logout_clears_when_it_returns_witness :
  scope_cleared (localStorage (snd (logout refresh_env expired_snapshot expired_world))) /\
  scope_cleared (sessionStorage (snd (logout refresh_env expired_snapshot expired_world))).
Proof.
  destruct (logout_clears_when_it_returns refresh_env expired_snapshot expired_world)
    as (_ & Hreturns & _).
  apply (Hreturns {| code := 200; data := JObj [] |}).
  vm_compute. reflexivity.
Defined.

(** C5 as stated fails: with the network down, [logout] throws and the
    stored tokens are still there. *)
Lemma logout_failure_keeps_tokens :
  let r := logout offline_env expired_snapshot expired_world in
  fst r = Throw (APIError "Failed to fetch" (-1)) /\
  scope_holds (localStorage (snd r)) old_access_token the_refresh_token /\
  ~ scope_cleared (localStorage (snd r)).
Proof.
  split; [reflexivity|]. split; [split; reflexivity|].
  intros [H _]. vm_compute in H. discriminate.
Qed.

(** ** The storage invariant *)

Lemma scope_cleared_empty st : scope_cleared st -> scope_empty st.
Proof. intros [Ha Hr]. unfold scope_empty. rewrite Ha, Hr. auto. Qed.

(** Whatever its outcome, [runTokenRequest] leaves one scope without any
    token. *)
Lemma runTokenRequest_one_scope E s creds w :
  let w' := snd (runTokenRequest E s creds w) in
  scope_cleared (localStorage w') \/ scope_cleared (sessionStorage w').
Proof.
  destruct (runTokenRequest E s creds w) as [[resp|e] w'] eqn:Hrun; cbn [snd].
  - destruct (runTokenRequest_returns E s creds w w' resp Hrun) as (a & r & _ & _ & _ & H).
    case_decide; destruct H; auto.
  - destruct (runTokenRequest_outcomes E s creds w)
      as [(e0 & H & _)|[(e0 & H & _)|[(H & _)|[(resp0 & a & rt & _ & _ & _ & H)
          |(e0 & _ & H)]]]]; rewrite H in Hrun; try discriminate;
      injection Hrun as _ <-; left; apply clear_storage_cleared.
Qed.

Lemma js_or_spelled_out a b : js_or a b = durable_else_session a b.
Proof.
  unfold js_or, durable_else_session, truthy.
  destruct a as [t|]; [|reflexivity]. destruct (String.eqb t ""); reflexivity.
Qed.

(** C7, as the code has it: after a login or a refresh through
    [runTokenRequest], whether it returned or threw, and after a logout
    that returned, at most one storage scope holds a non-empty token; a
    logout that throws leaves both scopes as they were.  The current
    tokens a render of the hook resolves are the durable values when these
    are non-empty and the session values otherwise. *)
Theorem token_lifecycle_one_scope (E : Env) (s : Snapshot) (op : Op) (w : World) :
  let w' := snd (run_op E s op w) in
  (via_runTokenRequest op = true -> at_most_one_scope w') /\
  (forall resp, fst (run_op E s op w) = Ok resp -> at_most_one_scope w') /\
  (forall e, op = OpLogout -> fst (run_op E s op w) = Throw e ->
     localStorage w' = localStorage w /\ sessionStorage w' = sessionStorage w) /\
  forall td,
    accessToken (useAPI_render w' td) =
      durable_else_session (localStorage w' !! "access_token")
                           (sessionStorage w' !! "access_token") /\
    refreshToken (useAPI_render w' td) =
      durable_else_session (localStorage w' !! "refresh_token")
                           (sessionStorage w' !! "refresh_token").
Proof.
  intros w'. subst w'.
  assert (Hvia : via_runTokenRequest op = true -> at_most_one_scope (snd (run_op E s op w))).
  { unfold at_most_one_scope.
    destruct op as [user password remember| |]; cbn [run_op via_runTokenRequest];
      [intros _|intros _|discriminate].
    - destruct (runTokenRequest_one_scope E s (login_creds user password remember) w);
        [left|right]; apply scope_cleared_empty; assumption.
    - destruct (runTokenRequest_one_scope E s (refresh_creds s) w);
        [left|right]; apply scope_cleared_empty; assumption. }
  split; [exact Hvia|]. split; [|split].
  - intros resp Hret.
    destruct op as [user password remember| |]; try (apply Hvia; reflexivity).
    cbn [run_op] in *.
    destruct (logout_clears_on_return E s w) as (_ & Hclears & _).
    destruct (logout E s w) as [[resp0|e] w'] eqn:Hlogout; cbn [fst snd] in *; [|discriminate].
    left. apply scope_cleared_empty. apply (Hclears resp0 w' eq_refl).
  - intros e -> Hthrow. cbn [run_op] in *.
    destruct (logout_clears_on_return E s w) as (_ & _ & Hfails).
    destruct (logout E s w) as [[resp0|e0] w'] eqn:Hlogout; cbn [fst snd] in *; [discriminate|].
    destruct (Hfails e0 w' eq_refl) as [Hr Hraw].
    destruct (logout_hands_failure_on E s w e0 w' Hr Hraw) as (_ & Hls & Hss). auto.
  - intros td; split; apply js_or_spelled_out.
Qed.

Lemma token_lifecycle_one_scope_witness :
  at_most_one_scope (snd (run_op offline_env expired_snapshot
                            (OpLogin "joe@foo.com" "foobar" true) doubly_stored_world)).
Proof.
  apply (token_lifecycle_one_scope offline_env expired_snapshot
           (OpLogin "joe@foo.com" "foobar" true) doubly_stored_world).
  reflexivity.
Defined.

(** C7 as stated fails: over a storage that holds a pair in both scopes,
    a logout whose revoke call fails completes with both pairs still
    there. *)
Lemma failed_logout_two_scopes :
  let s := useAPI_render doubly_stored_world no_token_data in
  let r := run_op offline_env s OpLogout doubly_stored_world in
  fst r = Throw (APIError "Failed to fetch" (-1)) /\
  scope_holds (localStorage (snd r)) old_access_token the_refresh_token /\
  scope_holds (sessionStorage (snd r)) old_access_token the_refresh_token /\
  ~ at_most_one_scope (snd r).
Proof.
  split; [reflexivity|]. split; [split; reflexivity|]. split; [split; reflexivity|].
  intros [[H _]|[H _]]; vm_compute in H; discriminate.
Qed.

(** ** [request] *)

Lemma default_headers_spec s o w opts :
  request_objs w !! o = Some opts ->
  default_headers s o w = (Ok tt, with_default_headers s o opts w).
Proof.
  intros Ho. unfold default_headers, with_default_headers, load_request, bind at 1.
  rewrite Ho. destruct (headers opts) as [h|] eqn:Hh; [reflexivity|].
  unfold bind at 1, assign_new_headers. rewrite Ho. unfold default_entries.
  destruct (is_GET (method opts)); cbn [negb]; [reflexivity|].
  unfold assign_header. cbn [request_objs header_objs localStorage sessionStorage log ticks].
  rewrite lookup_insert_eq. cbn [headers with_headers].
  rewrite lookup_insert_eq, insert_insert_eq. reflexivity.
Qed.

Lemma with_default_headers_object s o opts w :
  request_objs w !! o = Some opts ->
  exists h, request_objs (with_default_headers s o opts w) !! o = Some (with_headers opts (Some h))
            /\ (forall h0, headers opts = Some h0 -> h = h0)
            /\ (headers opts = None -> h = fresh (dom (header_objs w))).
Proof.
  intros Ho. unfold with_default_headers.
  destruct (headers opts) as [h0|] eqn:Hh.
  - exists h0. rewrite Ho. destruct opts; simpl in *; subst. split; [reflexivity|].
    split; [congruence|discriminate].
  - exists (fresh (dom (header_objs w))). cbn [request_objs]. rewrite lookup_insert_eq.
    split; [reflexivity|]. split; [discriminate|reflexivity].
Qed.

Lemma token_persist_frame creds resp w :
  let w' := snd (token_persist creds resp w) in
  request_objs w' = request_objs w /\ header_objs w' = header_objs w /\ log w' = log w
  /\ ticks w' = ticks w.
Proof.
  destruct (get_prop (data resp) "access_token") as [a|e] eqn:Ha.
  - destruct (get_prop_cases (data resp) "access_token") as [(x & _ & Hall)|Hall].
    + destruct (Hall "refresh_token") as [r Hr].
      rewrite (token_persist_ok creds resp w a r Ha Hr). cbn [snd].
      unfold persisted. case_decide; auto.
    + rewrite Hall in Ha. discriminate.
  - rewrite (token_persist_throw creds resp w e Ha). auto.
Qed.

(** [runTokenRequest] takes the lock once, only appends to the log and
    leaves the caller's objects alone. *)
Lemma runTokenRequest_frame E s creds w :
  let w' := snd (runTokenRequest E s creds w) in
  request_objs w' = request_objs w /\ header_objs w' = header_objs w /\
  filter is_lock (log w') = filter is_lock (log w) ++ [EvLock] /\
  exists events, log w' = log w ++ EvLock :: events.
Proof.
  assert (Hfl : forall l, filter is_lock (l ++ [EvLock]) = filter is_lock l ++ [EvLock])
    by (intros; rewrite filter_app; reflexivity).
  assert (Hfu : forall l, filter is_lock (l ++ [EvUnlock]) = filter is_lock l)
    by (intros; rewrite filter_app; apply app_nil_r).
  assert (Hff : forall l r, filter is_lock (l ++ [EvFetch r]) = filter is_lock l)
    by (intros; rewrite filter_app; apply app_nil_r).
  destruct (runTokenRequest_outcomes E s creds w)
    as [(e0 & -> & _)|[(e0 & -> & _)|[(-> & _)|[(resp0 & a & rt & _ & _ & _ & ->)
        |(e0 & _ & ->)]]]]; cbn [snd].
  - rewrite logged_log, locked_log, Hfu, Hfl.
    repeat split. exists [EvUnlock]. rewrite <- app_assoc. reflexivity.
  - rewrite logged_log, entered_log, Hfu, Hfl.
    repeat split. exists [EvUnlock]. rewrite <- app_assoc. reflexivity.
  - rewrite logged_log, persisted_log, entered_log, Hfu, Hfl.
    unfold persisted. case_decide; cbn; (repeat split; eauto using app_assoc);
      exists [EvUnlock]; rewrite <- app_assoc; reflexivity.
  - rewrite logged_log, persisted_log, logged_log, entered_log, Hfu, Hff, Hfl.
    unfold persisted. case_decide; cbn; (repeat split; eauto using app_assoc);
      eexists; rewrite <- !app_assoc; reflexivity.
  - rewrite !logged_log, entered_log, Hfu, Hff, Hfl.
    repeat split. eexists. rewrite <- !app_assoc. reflexivity.
Qed.

Lemma runTokenRequest_returns_token E s creds w w' resp :
  runTokenRequest E s creds w = (Ok resp, w') ->
  exists a, get_prop (data resp) "access_token" = Ok (JStr a).
Proof.
  intros H. destruct (runTokenRequest_returns E s creds w w' resp H) as (a & r & Ha & _).
  eauto.
Qed.

Lemma expiring_num E td e now :
  get_prop td "exp" = Ok (JNum e) ->
  expiring E td now = Ok (Z.ltb ((e - 10) * 1000) (Z.of_N now)).
Proof.
  intros He. unfold expiring. rewrite He. cbn [res_bind ToNumber].
  rewrite number_lt_minus. reflexivity.
Qed.

Lemma with_default_headers_ticks s o opts w :
  ticks (with_default_headers s o opts w) = ticks w.
Proof. unfold with_default_headers. destruct (headers opts); reflexivity. Qed.

(** The [if] block of [request] that may refresh, by what the comparison
    gives. *)
Lemma refresh_if_expiring_unfold E s o w :
  refresh_if_expiring E s o w =
    match expiring E (tokenData s) (clock E (ticks w)) with
    | Throw e => (Throw e, w)
    | Ok b =>
        if b && truthy (refreshToken s) then
          (let! tokResp := runTokenRequest E s (refresh_creds s) in
           let! tok := lift (get_prop (data tokResp) "access_token") in
           assign_header o "Authorization" ("Bearer " +:+ js_String tok)) (ticked w)
        else (Ok tt, ticked w)
    end.
Proof.
  unfold refresh_if_expiring, expiring.
  unfold bind at 1. unfold lift at 1.
  destruct (get_prop (tokenData s) "exp") as [v|e]; [|reflexivity]. cbn [res_bind].
  unfold bind at 1. unfold lift at 1.
  destruct (ToNumber E v) as [x|e]; [|reflexivity]. cbn [res_bind].
  unfold bind at 1. unfold date_now. fold (ticked w).
  destruct (number_lt _ _ && truthy _); reflexivity.
Qed.

(** [request] when reading or converting the expiry of the token data
    throws: the headers block has run, nothing else. *)
Lemma request_throws_early E s o w opts e :
  truthy (accessToken s) = true ->
  request_objs w !! o = Some opts ->
  expiring E (tokenData s) (clock E (ticks w)) = Throw e ->
  request E s o w = (Throw e, with_default_headers s o opts w).
Proof.
  intros Ha Ho Hexp. unfold request. rewrite Ha. cbn [negb].
  unfold bind at 1. rewrite (default_headers_spec s o w opts Ho).
  unfold bind at 1. rewrite refresh_if_expiring_unfold, with_default_headers_ticks, Hexp.
  reflexivity.
Qed.

(** [request] when the refresh condition holds: one [runTokenRequest], then
    the target call with the authorization header replaced. *)
Lemma request_refresh_path E s o w opts :
  truthy (accessToken s) = true ->
  truthy (refreshToken s) = true ->
  request_objs w !! o = Some opts ->
  expiring E (tokenData s) (clock E (ticks w)) = Ok true ->
  let w1 := ticked (with_default_headers s o opts w) in
  match runTokenRequest E s (refresh_creds s) w1 with
  | (Throw e, w2) => request E s o w = (Throw e, w2)
  | (Ok tokResp, w2) =>
      exists tok h,
        get_prop (data tokResp) "access_token" = Ok (JStr tok) /\
        request_objs w1 !! o = Some (with_headers opts (Some h)) /\
        let w3 := with_authorization h ("Bearer " +:+ tok) w2 in
        request E s o w =
          runRawRequest E s
            (with_headers opts
               (Some (<["Authorization" := "Bearer " +:+ tok]> (default ∅ (header_objs w2 !! h)))))
            w3
  end.
Proof.
  intros Ha Hr Ho Hexp w1.
  pose proof (runTokenRequest_frame E s (refresh_creds s) w1) as (Hro & Hho & _ & _).
  assert (Hreq : request E s o w =
            (let! _ := (let! tokResp := runTokenRequest E s (refresh_creds s) in
                        let! tok := lift (get_prop (data tokResp) "access_token") in
                        assign_header o "Authorization" ("Bearer " +:+ js_String tok)) in
             let! options := read_request o in
             runRawRequest E s options) w1).
  { unfold request. rewrite Ha. cbn [negb].
    unfold bind at 1. rewrite (default_headers_spec s o w opts Ho).
    unfold bind at 1. rewrite refresh_if_expiring_unfold, with_default_headers_ticks, Hexp, Hr.
    cbn [andb]. fold w1. unfold bind at 5. reflexivity. }
  rewrite Hreq.
  destruct (runTokenRequest E s (refresh_creds s) w1) as [[tokResp|e] w2] eqn:Hrun;
    cbn [snd] in *.
  - destruct (runTokenRequest_returns_token E s _ _ _ _ Hrun) as [tok Htok].
    destruct (with_default_headers_object s o opts w Ho) as (h & Hobj & _).
    exists tok, h. split; [exact Htok|]. split; [exact Hobj|].
    unfold bind at 1. unfold bind at 1.
    rewrite Hrun. unfold bind at 1, lift. rewrite Htok. cbn [js_String].
    assert (Hobj2 : request_objs w2 !! o = Some (with_headers opts (Some h)))
      by (rewrite Hro; exact Hobj).
    unfold assign_header. rewrite Hobj2. cbn [headers with_headers].
    unfold bind at 1, read_request. cbn [request_objs header_objs].
    rewrite Hobj2. cbn [headers with_headers mbind option_bind]. rewrite lookup_insert_eq.
    destruct opts; reflexivity.
  - unfold bind at 1. unfold bind at 1. rewrite Hrun. reflexivity.
Qed.

Lemma filter_lock_snoc_fetch l req : filter is_lock (l ++ [EvFetch req]) = filter is_lock l.
Proof. rewrite filter_app. apply app_nil_r. Qed.

Lemma takes_refresh_path_intro E s o w opts :
  truthy (accessToken s) = true ->
  truthy (refreshToken s) = true ->
  request_objs w !! o = Some opts ->
  expiring E (tokenData s) (clock E (ticks w)) = Ok true ->
  takes_refresh_path E s o opts w.
Proof.
  intros Ha Hr Ho Hexp.
  pose proof (request_refresh_path E s o w opts Ha Hr Ho Hexp) as Hpath.
  cbv zeta in Hpath.
  set (w1 := ticked (with_default_headers s o opts w)) in *.
  assert (Hw1 : log w1 = log w /\ ticks w1 = S (ticks w)
                /\ localStorage w1 = localStorage w
                /\ sessionStorage w1 = sessionStorage w).
  { unfold w1, with_default_headers. destruct (headers opts); auto. }
  destruct Hw1 as (Hlog & Hticks & Hls & Hss).
  pose proof (runTokenRequest_frame E s (refresh_creds s) w1) as (_ & _ & Hlock & Hpre).
  rewrite Hlog in Hpre.
  unfold takes_refresh_path.
  destruct (runTokenRequest E s (refresh_creds s) w1) as [[tokResp|e] w2] eqn:Hrun;
    cbn [snd] in *.
  - destruct Hpath as (tok & h & Htok & _ & Hreq). cbv zeta in Hreq.
    rewrite Hreq, runRawRequest_world, logged_log, filter_lock_snoc_fetch.
    split; [rewrite <- Hlog; exact Hlock|].
    split; [reflexivity|]. split; [reflexivity|].
    exists w1, (Ok tokResp), w2.
    do 6 (split; [assumption || reflexivity|]).
    eexists tok, _. split; [exact Htok|]. split; [reflexivity|].
    cbn. rewrite lookup_insert_eq. destruct opts; auto.
  - rewrite Hpath. cbn [snd].
    split; [rewrite <- Hlog; exact Hlock|].
    split; [reflexivity|]. split; [reflexivity|].
    exists w1, (Throw e), w2.
    do 6 (split; [assumption || reflexivity|]). reflexivity.
Qed.

(** C2, as the code has it: when the expiry of the hook's token data is
    strictly less than ten seconds after the current time and a refresh
    token is there, [request] goes through [runTokenRequest] exactly once
    (grant refresh_token, remember set by whether the durable scope held the
    access token) before the target call, and the target call carries the
    token that came back. *)
Theorem request_refreshes_expiring (E : Env) (s : Snapshot) (o : positive) (w : World)
    (options : APIRequest positive) (e : Z) :
  truthy (accessToken s) = true ->
  truthy (refreshToken s) = true ->
  request_objs w !! o = Some options ->
  get_prop (tokenData s) "exp" = Ok (JNum e) ->
  e * 1000 < Z.of_N (clock E (ticks w)) + 10 * 1000 ->
  takes_refresh_path E s o options w.
Proof.
  intros Ha Hr Ho He Hexp. apply takes_refresh_path_intro; try assumption.
  rewrite (expiring_num E _ e _ He). f_equal. apply Z.ltb_lt. lia.
Qed.

Lemma request_refreshes_expiring_witness :
  takes_refresh_path refresh_env expired_snapshot 1 (get_request "/do/refresh/") expired_world.
Proof.
  apply (request_refreshes_expiring refresh_env expired_snapshot 1 expired_world
           (get_request "/do/refresh/") 0).
  - reflexivity.
  - reflexivity.
  - reflexivity.
  - reflexivity.
  - vm_compute. reflexivity.
Defined.

(** C2 as stated fails at the boundary: a token that expires in exactly
    ten seconds is sent as it is, and [runTokenRequest] is not entered. *)
Lemma request_at_ten_seconds :
  let r := request refresh_env edge_snapshot 1 edge_world in
  get_prop (tokenData edge_snapshot) "exp" = Ok (JNum (fixture_now + 10)) /\
  (fixture_now + 10) * 1000 =
    Z.of_N (clock refresh_env (ticks edge_world)) + 10 * 1000 /\
  truthy (refreshToken edge_snapshot) = true /\
  filter is_lock (log (snd r)) = [] /\
  map (fun q => (fr_url q, fr_headers q ≫= fun h => h !! "Authorization")) (fetches (log (snd r)))
    = [("/do/refresh/", Some ("Bearer " +:+ edge_access_token))] /\
  ~ takes_refresh_path refresh_env edge_snapshot 1 (get_request "/do/refresh/") edge_world.
Proof.
  cbv zeta. repeat (split; [vm_compute; reflexivity|]).
  intros [Hlock _]. vm_compute in Hlock. discriminate.
Qed.




(** ** What [request] does to the caller's object *)

Lemma request_no_refresh_path E s o w opts b :
  truthy (accessToken s) = true ->
  request_objs w !! o = Some opts ->
  expiring E (tokenData s) (clock E (ticks w)) = Ok b ->
  b && truthy (refreshToken s) = false ->
  request E s o w =
    (let! options := read_request o in runRawRequest E s options)
      (ticked (with_default_headers s o opts w)).
Proof.
  intros Ha Ho Hexp Hcond. unfold request. rewrite Ha. cbn [negb].
  unfold bind at 1. rewrite (default_headers_spec s o w opts Ho).
  unfold bind at 1. rewrite refresh_if_expiring_unfold, with_default_headers_ticks, Hexp, Hcond.
  reflexivity.
Qed.

Lemma read_then_raw_world E s o w :
  let w' := snd ((let! options := read_request o in runRawRequest E s options) w) in
  request_objs w' = request_objs w /\ header_objs w' = header_objs w.
Proof.
  unfold bind, read_request.
  destruct (request_objs w !! o); cbn [snd]; [|auto].
  rewrite runRawRequest_world. auto.
Qed.

(** The caller's objects after [request]: those after the headers block,
    with at most the authorization entry of the request's own mapping
    assigned once more. *)
Lemma request_heap E s o w opts :
  request_objs w !! o = Some opts ->
  let w' := snd (request E s o w) in
  let wd := with_default_headers s o opts w in
  (truthy (accessToken s) = false /\ w' = w) \/
  (truthy (accessToken s) = true /\
   request_objs w' = request_objs wd /\
   (header_objs w' = header_objs wd \/
    exists h v,
      request_objs wd !! o = Some (with_headers opts (Some h)) /\
      header_objs w' =
        <[h := <["Authorization" := v]> (default ∅ (header_objs wd !! h))]> (header_objs wd))).
Proof.
  intros Ho w' wd. subst w'.
  destruct (truthy (accessToken s)) eqn:Ha.
  2:{ left. split; [reflexivity|]. unfold request. rewrite Ha. reflexivity. }
  right. split; [reflexivity|].
  destruct (expiring E (tokenData s) (clock E (ticks w))) as [b|e] eqn:Hexp.
  2:{ rewrite (request_throws_early E s o w opts e Ha Ho Hexp). cbn [snd]. auto. }
  destruct (b && truthy (refreshToken s)) eqn:Hcond.
  - apply andb_prop in Hcond as [-> Hr].
    pose proof (request_refresh_path E s o w opts Ha Hr Ho Hexp) as Hpath.
    cbv zeta in Hpath.
    pose proof (runTokenRequest_frame E s (refresh_creds s)
                  (ticked (with_default_headers s o opts w))) as (Hro & Hho & _ & _).
    destruct (runTokenRequest E s (refresh_creds s) _) as [[tokResp|e] w2]; cbn [snd] in *.
    + destruct Hpath as (tok & h & _ & Hobj & Hreq).
      rewrite Hreq, runRawRequest_world.
      split; [exact Hro|]. right. exists h, ("Bearer " +:+ tok).
      split; [exact Hobj|].
      cbn [logged emit snd header_objs with_authorization]. rewrite Hho. reflexivity.
    + rewrite Hpath. cbn [snd]. split; [exact Hro|]. left. exact Hho.
  - rewrite (request_no_refresh_path E s o w opts b Ha Ho Hexp Hcond).
    destruct (read_then_raw_world E s o (ticked (with_default_headers s o opts w)))
      as [Hro Hho].
    split; [exact Hro|]. left. exact Hho.
Qed.

Lemma fresh_header_ne (w : World) h (m : gmap string string) :
  header_objs w !! h = Some m -> h <> fresh (dom (header_objs w)).
Proof.
  intros Hm ->. apply (is_fresh (dom (header_objs w))).
  apply elem_of_dom. eauto.
Qed.

Lemma with_headers_same {A} (r : APIRequest A) : with_headers r (headers r) = r.
Proof. destruct r; reflexivity. Qed.

(** The mapping [request] makes for a request that came without headers. *)
Lemma request_new_headers E s o w opts :
  request_objs w !! o = Some opts ->
  headers opts = None ->
  truthy (accessToken s) = true ->
  let w' := snd (request E s o w) in
  let h := fresh (dom (header_objs w)) in
  request_objs w' !! o = Some (with_headers opts (Some h)) /\
  header_objs w !! h = None /\
  exists m, header_objs w' !! h = Some m /\
            is_Some (m !! "Authorization") /\
            m !! "Content-Type" =
              if is_GET (method opts) then None else Some "application/json".
Proof.
  intros Ho Hnone Ha w' h. subst w'.
  destruct (request_heap E s o w opts Ho) as [[Hf _]|(_ & Hro & Hho)]; [congruence|].
  cbv zeta in *.
  assert (Hwd : request_objs (with_default_headers s o opts w) !! o
                  = Some (with_headers opts (Some h))
                /\ header_objs (with_default_headers s o opts w) !! h
                  = Some (default_entries s (method opts))).
  { unfold with_default_headers. rewrite Hnone. cbn [request_objs header_objs].
    split; apply lookup_insert_eq. }
  destruct Hwd as [Hobj Hent].
  assert (Hct : default_entries s (method opts) !! "Content-Type"
                = if is_GET (method opts) then None else Some "application/json").
  { unfold default_entries. destruct (is_GET (method opts)).
    - apply lookup_singleton_ne. discriminate.
    - apply lookup_insert_eq. }
  assert (Hauth : is_Some (default_entries s (method opts) !! "Authorization")).
  { unfold default_entries. destruct (is_GET (method opts)).
    - rewrite lookup_singleton_eq. eauto.
    - rewrite lookup_insert_ne by discriminate. rewrite lookup_singleton_eq. eauto. }
  split; [rewrite Hro; exact Hobj|].
  split; [apply not_elem_of_dom, is_fresh|].
  destruct Hho as [Hho|(h2 & v & Hobj2 & Hho)]; rewrite Hho.
  - exists (default_entries s (method opts)). auto.
  - rewrite Hobj in Hobj2. injection Hobj2 as <-.
    rewrite lookup_insert_eq, Hent. cbn [default from_option id].
    eexists. split; [reflexivity|]. split.
    + rewrite lookup_insert_eq. eauto.
    + rewrite lookup_insert_ne by discriminate. exact Hct.
Qed.

(** How the header mappings that existed come out of [request]. *)
Lemma request_old_headers E s o w opts :
  request_objs w !! o = Some opts ->
  let w' := snd (request E s o w) in
  (forall h m, header_objs w !! h = Some m ->
     exists m', header_objs w' !! h = Some m' /\
                forall k, k <> "Authorization" -> m' !! k = m !! k) /\
  (forall h m, header_objs w !! h = Some m -> headers opts <> Some h ->
     header_objs w' !! h = Some m).
Proof.
  intros Ho w'. subst w'.
  destruct (request_heap E s o w opts Ho) as [[_ Hsame]|(_ & Hro & Hho)]; cbv zeta in *.
  - rewrite Hsame. split; eauto.
  - destruct (with_default_headers_object s o opts w Ho) as (h1 & Hobj & Hsup & Hnew).
    assert (Hold_hdrs : forall h m, header_objs w !! h = Some m ->
              header_objs (with_default_headers s o opts w) !! h = Some m).
    { intros h m Hm. unfold with_default_headers. destruct (headers opts); [exact Hm|].
      cbn [header_objs]. rewrite lookup_insert_ne; [exact Hm|].
      intros Heq. symmetry in Heq. revert Heq. apply (fresh_header_ne w h m Hm). }
    destruct Hho as [Hho|(h2 & v & Hobj2 & Hho)].
    + split; intros h m Hm; [|intros _]; rewrite Hho, (Hold_hdrs h m Hm); eauto.
    + rewrite Hobj in Hobj2. injection Hobj2 as <-.
      split.
      * intros h m Hm. rewrite Hho.
        destruct (decide (h1 = h)) as [->|Hne].
        -- rewrite lookup_insert_eq, (Hold_hdrs h m Hm). eexists. split; [reflexivity|].
           intros k Hk. cbn. apply lookup_insert_ne. congruence.
        -- rewrite lookup_insert_ne by exact Hne. rewrite (Hold_hdrs h m Hm). eauto.
      * intros h m Hm Hnot. rewrite Hho.
        rewrite lookup_insert_ne; [apply Hold_hdrs, Hm|].
        intros ->. destruct (headers opts) as [h0|] eqn:Hh.
        -- apply Hnot. f_equal. symmetry. apply Hsup. reflexivity.
        -- revert Hm. rewrite (Hnew eq_refl). intros Hm.
           apply (fresh_header_ne w _ m Hm). reflexivity.
Qed.

(** C8, as the code has it: [request] assigns to the caller's object.  It
    leaves every other request object alone and, of the caller's object,
    every field but [headers]; a headers mapping the caller supplied stays
    the object's mapping, and a request that came without one gets a new
    mapping with an authorization entry (and the JSON content type unless
    the method is GET); mappings that existed change at most in their
    authorization entry, and only the request's own mapping can change. *)
Theorem request_assigns_only_headers (E : Env) (s : Snapshot) (o : positive) (w : World)
    (options : APIRequest positive) :
  request_objs w !! o = Some options ->
  let w' := snd (request E s o w) in
  (forall o', o' <> o -> request_objs w' !! o' = request_objs w !! o') /\
  (exists h', request_objs w' !! o = Some (with_headers options h') /\
              forall h, headers options = Some h -> h' = Some h) /\
  (headers options = None -> truthy (accessToken s) = true ->
   exists h m,
     request_objs w' !! o = Some (with_headers options (Some h)) /\
     header_objs w !! h = None /\
     header_objs w' !! h = Some m /\
     is_Some (m !! "Authorization") /\
     m !! "Content-Type" =
       if is_GET (method options) then None else Some "application/json") /\
  (forall h m, header_objs w !! h = Some m ->
     exists m', header_objs w' !! h = Some m' /\
                forall k, k <> "Authorization" -> m' !! k = m !! k) /\
  (forall h m, header_objs w !! h = Some m -> headers options <> Some h ->
     header_objs w' !! h = Some m).
Proof.
  intros Ho w'. subst w'.
  assert (Hnew_map : headers options = None -> truthy (accessToken s) = true ->
            exists h m,
              request_objs (snd (request E s o w)) !! o = Some (with_headers options (Some h)) /\
              header_objs w !! h = None /\
              header_objs (snd (request E s o w)) !! h = Some m /\
              is_Some (m !! "Authorization") /\
              m !! "Content-Type" =
                if is_GET (method options) then None else Some "application/json").
  { intros Hnone Ha.
    destruct (request_new_headers E s o w options Ho Hnone Ha) as (H1 & H2 & m & H3 & H4 & H5).
    eauto 10. }
  destruct (request_old_headers E s o w options Ho) as [Hentries Hothers]. cbv zeta in *.
  destruct (request_heap E s o w options Ho) as [[_ Hsame]|(_ & Hro & _)]; cbv zeta in *.
  - rewrite Hsame in *. split; [auto|]. split.
    { exists (headers options). rewrite with_headers_same. auto. }
    split; [exact Hnew_map|]. split; assumption.
  - destruct (with_default_headers_object s o options w Ho) as (h1 & Hobj & Hsup & Hnew).
    assert (Hold_objs : forall o', o' <> o ->
              request_objs (with_default_headers s o options w) !! o' = request_objs w !! o').
    { intros o' Hne. unfold with_default_headers. destruct (headers options); [reflexivity|].
      cbn [request_objs]. apply lookup_insert_ne. congruence. }
    split; [intros o' Hne; rewrite Hro; apply Hold_objs, Hne|].
    split; [exists (Some h1); rewrite Hro; split; [exact Hobj|]; intros h Hh; f_equal; auto|].
    split; [exact Hnew_map|]. split; assumption.
Qed.

Lemma request_assigns_only_headers_witness :
  header_objs (snd (request refresh_env expired_snapshot 2 supplied_world)) !! 7%positive
    ≫= (fun m => m !! "X-Trace") = Some "1".
Proof.
  destruct (request_assigns_only_headers refresh_env expired_snapshot 2 supplied_world
              (with_headers (get_request "/foo/get/") (Some 7%positive)))
    as (_ & _ & _ & Hentries & _).
  - reflexivity.
  - destruct (Hentries 7%positive {[ "Authorization" := "Bearer mine"; "X-Trace" := "1" ]})
      as (m' & Hm' & Hkeep).
    + reflexivity.
    + rewrite Hm'. cbn. rewrite Hkeep by discriminate. reflexivity.
Defined.

(** C8 as stated fails: a request that came without headers leaves
    [request] with a headers mapping, and one that came with its own
    mapping finds the authorization entry of that mapping overwritten. *)
Lemma request_mutates_caller_object :
  let after_plain := snd (request refresh_env expired_snapshot 1 expired_world) in
  let after_supplied := snd (request refresh_env expired_snapshot 2 supplied_world) in
  (headers <$> request_objs expired_world !! 1%positive) = Some None /\
  (headers <$> request_objs after_plain !! 1%positive) = Some (Some 1%positive) /\
  request_objs after_plain !! 1%positive <> request_objs expired_world !! 1%positive /\
  (header_objs supplied_world !! 7%positive ≫= fun m => m !! "Authorization")
    = Some "Bearer mine" /\
  (header_objs after_supplied !! 7%positive ≫= fun m => m !! "Authorization")
    = Some ("Bearer " +:+ new_access_token).
Proof.
  cbv zeta. split; [vm_compute; reflexivity|]. split; [vm_compute; reflexivity|].
  split; [|split; vm_compute; reflexivity].
  intros Heq. apply (f_equal (fmap headers)) in Heq. vm_compute in Heq. discriminate.
Qed.

(** ** Interleaved token requests *)

Lemma flow_enter_spec E f w d :
  decode_token E (current_access w) = Ok d ->
  flow_enter E f w =
    match get_prop d "exp" with
    | Throw e => (Throw e, locked w)
    | Ok v =>
        match ToNumber E v with
        | Throw e => (Throw e, entered w)
        | Ok x =>
            if number_lt (seconds (clock E (ticks w))) x then
              (Ok (HasStored (stored_response w)), entered w)
            else
              (Ok (Fetching (token_request (flow_creds f))
                     (transport E (length (fetches (log w)))
                        (raw_fetch_request (token_request (flow_creds f))))),
               logged (EvFetch (raw_fetch_request (token_request (flow_creds f)))) (entered w))
        end
    end.
Proof.
  intros Hd. unfold flow_enter. unfold bind at 1. unfold emit at 1. unfold bind at 1.
  rewrite (token_enter_spec E (flow_creds f) _ d) by (destruct w; exact Hd).
  destruct w as [ls ss ro ho lg tk]. cbn [ticks].
  destruct (get_prop d "exp") as [v|e]; [|reflexivity].
  destruct (ToNumber E v) as [x|e]; [|reflexivity].
  destruct (number_lt _ _); [reflexivity|].
  unfold bind, fetch, ret, ticked, cleared. cbn [log]. rewrite fetches_snoc_lock. reflexivity.
Qed.

Lemma flow_leave_stored f resp w a r :
  get_prop (data resp) "access_token" = Ok a ->
  get_prop (data resp) "refresh_token" = Ok r ->
  flow_leave f (Ok resp) w = (Ok resp, logged EvUnlock (persisted (flow_creds f) a r w)).
Proof.
  intros Ha Hr. unfold flow_leave, bind, lift.
  rewrite (token_persist_ok _ _ _ a r Ha Hr). reflexivity.
Qed.

Lemma raw_complete_fresh E T s creds out :
  fresh_answer E T out ->
  exists resp a r,
    raw_complete s (token_request creds) out = Ok resp /\
    get_prop (data resp) "access_token" = Ok (JStr a) /\
    get_prop (data resp) "refresh_token" = Ok r /\
    fresh_token E T a.
Proof.
  intros (resp & d & a & -> & H204 & H400 & Hok & Hjson & Hvalid & Ha & Hfresh).
  destruct (isAPIAuthTokens_strings d Hvalid) as (a' & r & _ & Hr & _).
  exists {| data := d; code := status resp |}, a, (JStr r).
  split; [|cbn [data]; auto].
  simpl. unfold raw_try_body.
  apply Z.eqb_neq in H204. rewrite H204, Hjson. simpl. rewrite Hok. simpl.
  rewrite Hvalid. simpl. rewrite andb_false_r.
  assert (Hle : Z.leb 400 (status resp) = false) by (apply Z.leb_gt; lia).
  rewrite Hle. reflexivity.
Qed.

Lemma current_access_persisted creds a r w :
  a <> "" ->
  scope_cleared (localStorage w) ->
  current_access (persisted creds (JStr a) r w) = Some a.
Proof.
  intros Hne [Hla _]. unfold current_access, persisted.
  assert (Ht : truthy (Some a) = true)
    by (simpl; apply negb_true_iff; apply String.eqb_neq; exact Hne).
  case_decide; cbn [localStorage sessionStorage js_String].
  - rewrite lookup_insert_ne by done. rewrite lookup_insert_eq.
    unfold js_or. rewrite Ht. reflexivity.
  - rewrite Hla. unfold js_or at 1. cbn [truthy].
    rewrite lookup_insert_ne by done. apply lookup_insert_eq.
Qed.

Lemma current_access_logged ev w : current_access (logged ev w) = current_access w.
Proof. reflexivity. Qed.

Lemma persisted_fetches creds a r w : fetches (log (persisted creds a r w)) = fetches (log w).
Proof. rewrite persisted_log. reflexivity. Qed.

Lemma stored_response_pair w a :
  current_access w = Some a -> stored_pair (stored_response w) a.
Proof.
  intros Ha. exists (opt_value (current_refresh w)). unfold stored_response. rewrite Ha.
  split; reflexivity.
Qed.

Lemma fresh_token_decodes E T a :
  fresh_token E T a ->
  exists d e, decode_token E (Some a) = Ok d /\ get_prop d "exp" = Ok (JNum e) /\ T <= e * 1000.
Proof.
  intros (Hne & d & e & Hd & He & HT). exists d, e. split; [|auto].
  apply decode_token_accepted; assumption.
Qed.

Lemma fresh_token_readable E T a : fresh_token E T a -> expiry_readable E (Some a).
Proof.
  intros Hfresh. destruct (fresh_token_decodes E T a Hfresh) as (d & e & Hd & He & _).
  exists d, (JNum e), (Finite (inject_Z e)). auto.
Qed.

(** The zero claims are always readable. *)
Lemma expiry_readable_empty E token :
  truthy token = false -> expiry_readable E token.
Proof.
  intros Ht. exists no_token_data, (JNum 0), (Finite (inject_Z 0)).
  split; [|split; reflexivity].
  apply decode_token_zero. destruct token as [t|]; [|auto].
  right. left. simpl in Ht. apply negb_false_iff, String.eqb_eq in Ht. congruence.
Qed.

Lemma expiry_readable_persisted E creds a r w :
  scope_cleared (localStorage w) -> scope_cleared (sessionStorage w) ->
  expiry_readable E (Some a) ->
  expiry_readable E (current_access (persisted creds (JStr a) r w)).
Proof.
  intros Hls Hss Hread. destruct (decide (a = "")) as [->|Hne].
  - apply expiry_readable_empty. destruct Hls as [Hla _], Hss as [Hsa _].
    unfold current_access, persisted.
    case_decide; cbn [localStorage sessionStorage js_String].
    + rewrite lookup_insert_ne by done. rewrite lookup_insert_eq.
      unfold js_or. cbn [truthy String.eqb negb]. rewrite Hsa. reflexivity.
    + rewrite Hla. unfold js_or at 1. cbn [truthy].
      rewrite lookup_insert_ne by done. rewrite lookup_insert_eq. reflexivity.
  - rewrite (current_access_persisted creds a r w Hne Hls). exact Hread.
Qed.

Lemma expiry_readable_reads E token d :
  expiry_readable E token ->
  decode_token E token = Ok d ->
  exists v x, get_prop d "exp" = Ok v /\ ToNumber E v = Ok x.
Proof.
  intros (d' & v & x & Hd' & Hv & Hx) Hd. rewrite Hd in Hd'. injection Hd' as <-. eauto.
Qed.

(** Other flows keep their phase when flow [i] moves. *)
Lemma lookup_moved (fl : list Flow) i j f f' g :
  fl !! i = Some f ->
  <[i := f']> fl !! j = Some g ->
  (j = i /\ g = f') \/ (j <> i /\ fl !! j = Some g).
Proof.
  intros Hi Hj. destruct (decide (j = i)) as [->|Hne].
  - left. split; [reflexivity|].
    rewrite list_lookup_insert_eq in Hj by (eapply lookup_lt_Some; eassumption).
    congruence.
  - right. split; [exact Hne|]. rewrite list_lookup_insert_ne in Hj by congruence. exact Hj.
Qed.

Ltac moved Hf H :=
  let Hne := fresh "Hne" in
  destruct (lookup_moved _ _ _ _ _ _ Hf H) as [[-> ->]|[Hne H']]; clear H.

Lemma sched_init_inv E T w calls :
  sched_inv E T (expiry_readable E (current_access w)) (length (fetches (log w)))
    (sched_init w calls).
Proof.
  assert (Hwait : forall i f, flows (sched_init w calls) !! i = Some f ->
                    flow_phase f = Waiting).
  { intros i f Hf. cbn [sched_init flows] in Hf. rewrite list_lookup_fmap in Hf.
    destruct (calls !! i); [|discriminate]. injection Hf as <-. reflexivity. }
  unfold sched_inv. cbn [holder world sched_init].
  split; [|split; [|split; [|split; [|split]]]].
  - intros i f Hf Hin. rewrite (Hwait i f Hf) in Hin. discriminate.
  - intros [? [=]].
  - intros Hread. split; [|split].
    + intros i f e Hf Hp. rewrite (Hwait i f Hf) in Hp. discriminate.
    + intros _. exact Hread.
    + intros i f resp Hf Hp. rewrite (Hwait i f Hf) in Hp. discriminate.
  - intros i f resp Hf Hp. rewrite (Hwait i f Hf) in Hp. discriminate.
  - intros i f o out Hf Hp. rewrite (Hwait i f Hf) in Hp. discriminate.
  - left. reflexivity.
Qed.

Section Interleaving.

(** The assumptions of the single-call result: the clock stays before [T],
    and the call number [n0] of the run, if it goes to the token endpoint,
    is answered with a valid pair that does not expire before [T]. *)
Context (E : Env) (T : Z) (readable : Prop) (n0 : nat).
Hypothesis Hclock : forall n, Z.of_N (clock E n) < T.
Hypothesis Hans :
  forall req, fr_url req = token_url -> fresh_answer E T (transport E n0 req).

(** With a token that does not expire before [T] in the storage, the
    section finds it unexpired. *)
Lemma fresh_token_unexpired a d v x n :
  fresh_token E T a ->
  decode_token E (Some a) = Ok d ->
  get_prop d "exp" = Ok v ->
  ToNumber E v = Ok x ->
  number_lt (seconds (clock E n)) x = true.
Proof.
  intros Hfresh Hd Hv Hx.
  destruct (fresh_token_decodes E T a Hfresh) as (d' & e & Hd' & He & HT).
  rewrite Hd in Hd'. injection Hd' as <-. rewrite Hv in He. injection He as ->.
  cbn in Hx. injection Hx as <-. rewrite number_lt_seconds. apply Z.ltb_lt.
  specialize (Hclock n). lia.
Qed.

(** A flow that throws on entering the section: it could not read the
    expiry of the stored token. *)
Lemma sched_enter_throws i σ f e w' :
  sched_inv E T readable n0 σ ->
  flows σ !! i = Some f ->
  holder σ = None ->
  log w' = log (world σ) ++ [EvLock] ->
  (forall d v x, decode_token E (current_access (world σ)) = Ok d ->
                 get_prop d "exp" = Ok v -> ToNumber E v = Ok x -> False) ->
  sched_inv E T readable n0
    {| world := snd (emit EvUnlock w'); holder := None;
       flows := <[i := set_phase f (Finished (Throw e))]> (flows σ) |}.
Proof.
  intros (J1 & J2 & J3 & J4 & J5 & J6) Hf Hh Hlog Hunread.
  assert (Hout : forall j g, flows σ !! j = Some g -> in_section (flow_phase g) = false).
  { intros j g Hg. destruct (in_section (flow_phase g)) eqn:Hin; [|reflexivity].
    specialize (J1 j g Hg Hin). congruence. }
  assert (Hnot : ~ expiry_readable E (current_access (world σ))).
  { intros (d & v & x & Hd & Hv & Hx). eapply Hunread; eassumption. }
  unfold sched_inv. cbn [world holder flows].
  split; [|split; [|split; [|split; [|split]]]].
  - intros j g Hg Hin. moved Hf Hg; [discriminate|].
    rewrite (Hout j g H') in Hin. discriminate.
  - intros [? [=]].
  - intros Hread. exfalso. apply Hnot. destruct (J3 Hread) as (_ & Hcur & _). apply Hcur, Hh.
  - intros j g resp Hg Hp. moved Hf Hg; [discriminate|]. eapply J4; eassumption.
  - intros j g o out Hg Hp. moved Hf Hg; [discriminate|].
    pose proof (Hout j g H') as Hin. rewrite Hp in Hin. discriminate.
  - unfold emit. cbn [snd log]. rewrite fetches_snoc_unlock, Hlog, fetches_snoc_lock.
    destruct J6 as [J6|(Hlen & Hcur & _)]; [left; exact J6|exfalso].
    destruct (Hcur Hh) as (a & Ha & Hfresh).
    apply Hnot. rewrite Ha. eapply fresh_token_readable, Hfresh.
Qed.

Lemma sched_step_inv i σ σ' :
  sched_inv E T readable n0 σ ->
  sched_step E i σ = Some σ' ->
  sched_inv E T readable n0 σ'.
Proof.
  intros Hinv Hstep. pose proof Hinv as (J1 & J2 & J3 & J4 & J5 & J6).
  unfold sched_step in Hstep.
  destruct (flows σ !! i) as [f|] eqn:Hf; [|discriminate].
  destruct (flow_phase f) as [|resp|o out|r] eqn:Hph; [| | |discriminate].
  - (* the flow takes the mutex *)
    destruct (holder σ) eqn:Hh; [discriminate|].
    assert (Hout : forall j g, flows σ !! j = Some g -> in_section (flow_phase g) = false).
    { intros j g Hg. destruct (in_section (flow_phase g)) eqn:Hin; [|reflexivity].
      specialize (J1 j g Hg Hin). congruence. }
    destruct (decode_token_total E (current_access (world σ))) as [d Hd].
    rewrite (flow_enter_spec E f _ d Hd) in Hstep.
    destruct (get_prop d "exp") as [v|e] eqn:Hv.
    2:{ (* reading the expiry throws *)
        injection Hstep as <-.
        apply (sched_enter_throws i σ f e (locked (world σ)) Hinv Hf Hh (locked_log _)).
        intros d' v' x' Hd' Hv' _. congruence. }
    destruct (ToNumber E v) as [x|e] eqn:Hx.
    2:{ (* converting the expiry throws *)
        injection Hstep as <-.
        apply (sched_enter_throws i σ f e (entered (world σ)) Hinv Hf Hh (entered_log _)).
        intros d' v' x' Hd' Hv' Hx'. congruence. }
    destruct (number_lt _ _) eqn:Hnow; injection Hstep as <-; unfold sched_inv;
      cbn [world holder flows].
    + (* the stored token is still valid *)
      destruct (decode_token_fresh_some E _ d v x _ Hd Hv Hx Hnow) as (t & Ht & Htne & Htd).
      split; [|split; [|split; [|split; [|split]]]].
      * intros j g Hg Hin. moved Hf Hg; [reflexivity|].
        rewrite (Hout j g H') in Hin. discriminate.
      * intros _. split; apply clear_storage_cleared.
      * intros Hread. destruct (J3 Hread) as (J3a & J3b & J3c). split; [|split].
        -- intros j g e Hg. moved Hf Hg; [discriminate|]. eapply J3a; eassumption.
        -- discriminate.
        -- intros j g resp Hg Hp. moved Hf Hg.
           ++ injection Hp as <-. exists t. unfold stored_response. rewrite Ht.
              split; [reflexivity|]. rewrite <- Ht. apply J3b. reflexivity.
           ++ pose proof (Hout j g H') as Hin. rewrite Hp in Hin. discriminate.
      * intros j g resp Hg Hp. moved Hf Hg.
        -- injection Hp as <-. exists t. apply stored_response_pair, Ht.
        -- pose proof (Hout j g H') as Hin. rewrite Hp in Hin. discriminate.
      * intros j g o out Hg Hp. moved Hf Hg; [discriminate|].
        pose proof (Hout j g H') as Hin. rewrite Hp in Hin. discriminate.
      * rewrite entered_log, fetches_snoc_lock.
        destruct J6 as [J6|(Hlen & Hcur & _)]; [left; exact J6|right].
        split; [exact Hlen|]. split; [discriminate|].
        intros j g resp Hg Hp. moved Hf Hg.
        -- injection Hp as <-. destruct (Hcur eq_refl) as (a & Ha & Hfresh).
           exists a. split; [apply stored_response_pair, Ha|exact Hfresh].
        -- pose proof (Hout j g H') as Hin. rewrite Hp in Hin. discriminate.
    + (* the network is needed *)
      assert (Hlen : length (fetches (log (world σ))) = n0).
      { destruct J6 as [J6|(_ & Hcur & _)]; [exact J6|exfalso].
        destruct (Hcur eq_refl) as (a & Ha & Hfresh).
        rewrite Ha in Hd.
        rewrite (fresh_token_unexpired a d v x _ Hfresh Hd Hv Hx) in Hnow. discriminate. }
      split; [|split; [|split; [|split; [|split]]]].
      * intros j g Hg Hin. moved Hf Hg; [reflexivity|].
        rewrite (Hout j g H') in Hin. discriminate.
      * intros _. split; apply clear_storage_cleared.
      * intros Hread. destruct (J3 Hread) as (J3a & J3b & J3c). split; [|split].
        -- intros j g e Hg. moved Hf Hg; [discriminate|]. eapply J3a; eassumption.
        -- discriminate.
        -- intros j g resp Hg Hp. moved Hf Hg; [discriminate|].
           pose proof (Hout j g H') as Hin. rewrite Hp in Hin. discriminate.
      * intros j g resp Hg Hp. moved Hf Hg; [discriminate|].
        pose proof (Hout j g H') as Hin. rewrite Hp in Hin. discriminate.
      * intros j g o out Hg Hp. rewrite logged_log, entered_log, fetches_snoc_fetch,
          fetches_snoc_lock, length_app, Hlen. cbn [length].
        moved Hf Hg.
        -- injection Hp as <- <-. split; [reflexivity|].
           split; [rewrite Hlen; apply Hans; reflexivity|lia].
        -- pose proof (Hout j g H') as Hin. rewrite Hp in Hin. discriminate.
      * right. rewrite logged_log, entered_log, fetches_snoc_fetch,
          fetches_snoc_lock, length_app, Hlen. cbn [length].
        split; [lia|]. split; [discriminate|].
        intros j g resp Hg Hp. moved Hf Hg; [discriminate|].
        pose proof (Hout j g H') as Hin. rewrite Hp in Hin. discriminate.
  - (* the flow leaves with the stored response *)
    assert (Hin : in_section (flow_phase f) = true) by (rewrite Hph; reflexivity).
    pose proof (J1 i f Hf Hin) as Hh.
    assert (Hout : forall j g, j <> i -> flows σ !! j = Some g ->
                     in_section (flow_phase g) = false).
    { intros j g Hne Hg. destruct (in_section (flow_phase g)) eqn:Hin'; [|reflexivity].
      specialize (J1 j g Hg Hin'). congruence. }
    destruct (J2 (ex_intro _ i Hh)) as [Hls Hss].
    destruct (J4 i f resp Hf Hph) as (a & r & Ha & Hr).
    rewrite (flow_leave_stored f resp _ (JStr a) r Ha Hr) in Hstep.
    injection Hstep as <-. unfold sched_inv. cbn [world holder flows].
    split; [|split; [|split; [|split; [|split]]]].
    + intros j g Hg Hin'. moved Hf Hg; [discriminate|].
      rewrite (Hout j g Hne H') in Hin'. discriminate.
    + intros [? [=]].
    + intros Hread. destruct (J3 Hread) as (J3a & J3b & J3c). split; [|split].
      * intros j g e Hg. moved Hf Hg; [discriminate|]. eapply J3a; eassumption.
      * intros _. destruct (J3c i f resp Hf Hph) as (a' & Ha' & Hra).
        rewrite Ha in Ha'. injection Ha' as <-.
        rewrite current_access_logged.
        apply (expiry_readable_persisted E (flow_creds f) a r (world σ)); assumption.
      * intros j g resp' Hg Hp. moved Hf Hg; [discriminate|]. eapply J3c; eassumption.
    + intros j g resp' Hg Hp. moved Hf Hg; [discriminate|]. eapply J4; eassumption.
    + intros j g o out Hg Hp. moved Hf Hg; [discriminate|].
      pose proof (Hout j g Hne H') as Hin'. rewrite Hp in Hin'. discriminate.
    + rewrite logged_log, fetches_snoc_unlock, persisted_fetches.
      destruct J6 as [J6|(Hlen & _ & Hst)]; [left; exact J6|right].
      split; [exact Hlen|]. split.
      * intros _. destruct (Hst i f resp Hf Hph) as (a' & (r' & Ha' & _) & Hfresh).
        rewrite Ha in Ha'. injection Ha' as <-.
        exists a. split; [|exact Hfresh].
        apply (current_access_persisted (flow_creds f) a r (world σ)); [apply Hfresh|exact Hls].
      * intros j g resp' Hg Hp. moved Hf Hg; [discriminate|]. eapply Hst; eassumption.
  - (* the flow leaves with the transport's answer *)
    assert (Hin : in_section (flow_phase f) = true) by (rewrite Hph; reflexivity).
    pose proof (J1 i f Hf Hin) as Hh.
    assert (Hout : forall j g, j <> i -> flows σ !! j = Some g ->
                     in_section (flow_phase g) = false).
    { intros j g Hne Hg. destruct (in_section (flow_phase g)) eqn:Hin'; [|reflexivity].
      specialize (J1 j g Hg Hin'). congruence. }
    destruct (J2 (ex_intro _ i Hh)) as [Hls Hss].
    destruct (J5 i f o out Hf Hph) as (-> & Hfresh & Hlen).
    destruct (raw_complete_fresh E T (flow_snapshot f) (flow_creds f) out Hfresh)
      as (resp & a & r & Hraw & Ha & Hr & Hfa).
    rewrite Hraw, (flow_leave_stored f resp _ (JStr a) r Ha Hr) in Hstep.
    injection Hstep as <-. unfold sched_inv. cbn [world holder flows].
    split; [|split; [|split; [|split; [|split]]]].
    + intros j g Hg Hin'. moved Hf Hg; [discriminate|].
      rewrite (Hout j g Hne H') in Hin'. discriminate.
    + intros [? [=]].
    + intros Hread. destruct (J3 Hread) as (J3a & J3b & J3c). split; [|split].
      * intros j g e Hg. moved Hf Hg; [discriminate|]. eapply J3a; eassumption.
      * intros _.
        rewrite current_access_logged.
        rewrite (current_access_persisted (flow_creds f) a r (world σ));
          [|apply Hfa|exact Hls].
        eapply fresh_token_readable, Hfa.
      * intros j g resp' Hg Hp. moved Hf Hg; [discriminate|]. eapply J3c; eassumption.
    + intros j g resp' Hg Hp. moved Hf Hg; [discriminate|]. eapply J4; eassumption.
    + intros j g o out' Hg Hp. moved Hf Hg; [discriminate|].
      pose proof (Hout j g Hne H') as Hin'. rewrite Hp in Hin'. discriminate.
    + rewrite logged_log, fetches_snoc_unlock, persisted_fetches.
      right. split; [exact Hlen|]. split.
      * intros _. exists a. split; [|exact Hfa].
        apply (current_access_persisted (flow_creds f) a r (world σ)); [apply Hfa|exact Hls].
      * intros j g resp' Hg Hp. moved Hf Hg; [discriminate|].
        pose proof (Hout j g Hne H') as Hin'. rewrite Hp in Hin'. discriminate.
Qed.

Lemma sched_run_inv schedule :
  forall σ σ', sched_inv E T readable n0 σ -> sched_run E schedule σ = Some σ' ->
               sched_inv E T readable n0 σ'.
Proof.
  induction schedule as [|i rest IH]; intros σ σ' Hinv Hrun.
  - injection Hrun as <-. exact Hinv.
  - cbn [sched_run] in Hrun.
    destruct (sched_step E i σ) as [σ1|] eqn:Hstep; [|discriminate].
    apply (IH σ1 σ'); [|exact Hrun].
    eapply sched_step_inv; eassumption.
Qed.

End Interleaving.

(** A call on its own: scheduling it through its suspensions (one if it
    throws on entering the section, two otherwise) is [runTokenRequest]. *)
Lemma sched_run_alone E s creds w :
  exists schedule,
    (schedule = [0]%nat \/ schedule = [0; 0]%nat) /\
    sched_run E schedule (sched_init w [(s, creds)]) =
      Some {| world := snd (runTokenRequest E s creds w);
              holder := None;
              flows := [mkFlow s creds (Finished (fst (runTokenRequest E s creds w)))] |}.
Proof.
  destruct (decode_token_total E (current_access w)) as [d Hd].
  rewrite (runTokenRequest_unfold E s creds w d Hd).
  pose proof (flow_enter_spec E (mkFlow s creds Waiting) w d Hd) as Henter.
  cbn [flow_creds] in Henter.
  destruct (get_prop d "exp") as [v|e].
  2:{ exists [0]%nat. split; [auto|].
      cbn [sched_run sched_init map sched_step flows lookup list_lookup holder world fst snd
           flow_phase].
      rewrite Henter. reflexivity. }
  destruct (ToNumber E v) as [x|e].
  2:{ exists [0]%nat. split; [auto|].
      cbn [sched_run sched_init map sched_step flows lookup list_lookup holder world fst snd
           flow_phase].
      rewrite Henter. reflexivity. }
  exists [0; 0]%nat. split; [auto|].
  cbn [sched_run sched_init map sched_step flows lookup list_lookup holder world fst snd
       flow_phase].
  rewrite Henter.
  destruct (number_lt _ _).
  - cbn [sched_step flows lookup list_lookup holder world set_phase flow_phase
         flow_snapshot flow_creds insert list_insert].
    rewrite (flow_leave_stored _ (stored_response w) _
               (opt_value (current_access w)) (opt_value (current_refresh w)))
      by reflexivity.
    reflexivity.
  - cbn [sched_step flows lookup list_lookup holder world set_phase flow_phase
         flow_snapshot flow_creds insert list_insert].
    unfold flow_leave, token_network, bind, lift. cbn [flow_creds set_phase flow_snapshot].
    destruct (raw_complete s (token_request creds) _) as [resp|e]; [|reflexivity].
    destruct (token_persist creds resp _) as [r w']. reflexivity.
Qed.


Lemma refresh_transport_fresh req :
  fr_url req = token_url ->
  fresh_answer refresh_env ((fixture_now + 300) * 1000) (refresh_transport 0 req).
Proof.
  intros Hurl. unfold refresh_transport. rewrite Hurl.
  exists (http_response 200 "OK" (Ok good_token)), good_token, new_access_token.
  split; [reflexivity|]. split; [discriminate|]. split; [reflexivity|].
  split; [reflexivity|]. split; [reflexivity|]. split; [reflexivity|].
  split; [reflexivity|]. split; [discriminate|].
  eexists _, (fixture_now + 300). split; [reflexivity|]. split; [reflexivity|]. lia.
Defined.



(** Why "no request throws" asks for a readable expiry: over a stored
    token that decodes to [null] the first request to enter throws a
    [TypeError] before any call, with the storage cleared; the second one
    then finds nothing stored and makes the one call. *)
Example first_flow_over_null_payload :
  let w := remembered_world null_payload_token the_refresh_token in
  let s := useAPI_render w no_token_data in
  exists σ,
    sched_run refresh_env [0; 1; 1]%nat
      (sched_init w [(s, refresh_creds s); (s, refresh_creds s)]) = Some σ /\
    option_map flow_phase (flows σ !! 0%nat) =
      Some (Finished (Throw (JSError "TypeError"
                               "Cannot read properties of null (reading 'exp')"))) /\
    option_map flow_phase (flows σ !! 1%nat) =
      Some (Finished (Ok {| code := 200; data := good_token |})) /\
    map fr_url (fetches (log (world σ))) = ["/api/oauth2/token/"].
Proof.
  cbv zeta. eexists. split; [vm_compute; reflexivity|].
  split; [vm_compute; reflexivity|]. split; vm_compute; reflexivity.
Qed.

(** * Further properties of the hook *)

(** ** The type predicate *)

(** X1: [isAPIAuthTokens] accepts exactly the objects whose [access_token]
    and [refresh_token] are strings and whose [token_type] is "bearer";
    everything else, [null] and [undefined] included, is rejected. *)
Theorem isAPIAuthTokens_exactly (val : JSValue) :
  isAPIAuthTokens val = true <->
  exists props a r,
    val = JObj props /\
    assoc "access_token" props = Some (JStr a) /\
    assoc "refresh_token" props = Some (JStr r) /\
    assoc "token_type" props = Some (JStr "bearer").
Proof.
  split.
  - intros Hv. destruct (isAPIAuthTokens_strings val Hv) as (a & r & Ha & Hr & Ht).
    destruct val as [| | | | |elems|props]; try discriminate.
    exists props, a, r. simpl in Ha, Hr, Ht.
    destruct (assoc "access_token" props) as [x|]; [|discriminate].
    destruct (assoc "refresh_token" props) as [y|]; [|discriminate].
    destruct (assoc "token_type" props) as [z|]; [|discriminate].
    simpl in *. repeat split; congruence.
  - intros (props & a & r & -> & Ha & Hr & Ht).
    unfold isAPIAuthTokens. simpl. rewrite Ha, Hr, Ht. reflexivity.
Qed.

(** ** The request executor *)

(** X2: whatever [runRawRequest] throws is an [APIError]; its code is -1
    when the transport rejected and the status of the response otherwise. *)
Theorem runRawRequest_throws_APIError (E : Env) (s : Snapshot)
    (options : APIRequest (gmap string string)) (w : World) (e : Exn) :
  fst (runRawRequest E s options w) = Throw e ->
  exists msg,
    e = APIError msg
          match transport E (length (fetches (log w))) (raw_fetch_request options) with
          | Reject _ => -1
          | Resolve resp => status resp
          end.
Proof.
  unfold runRawRequest, bind, fetch, lift. cbn [fst].
  destruct (transport E _ _) as [resp|e0]; cbn [raw_complete].
  - destruct (raw_try_body s options resp) as [r|e1]; cbn [try_catch]; [discriminate|].
    intros [= <-]. eauto.
  - intros [= <-]. eauto.
Qed.

Lemma runRawRequest_throws_APIError_witness :
  exists msg, APIError "Failed to fetch" (-1) = APIError msg (-1).
Proof.
  apply (runRawRequest_throws_APIError offline_env expired_snapshot (raw_get "/foo/get/")
           expired_world (APIError "Failed to fetch" (-1))).
  reflexivity.
Defined.

Lemma raw_try_body_ok s options resp r :
  raw_try_body s options resp = Ok r ->
  code r = status resp /\ status resp < 400 /\
  validators_accept options (data r) = true /\
  (status resp = 204 \/ (ok resp = true /\ json resp = Ok (data r))).
Proof.
  unfold raw_try_body.
  set (fetched := if Z.eqb (status resp) 204 then _ else _).
  assert (Hsrc : forall d, fetched = Ok d ->
            status resp = 204 \/ (ok resp = true /\ json resp = Ok d)).
  { subst fetched. intros d. destruct (Z.eqb (status resp) 204) eqn:H204.
    - intros _. left. apply Z.eqb_eq. exact H204.
    - destruct (json resp) as [d0|]; cbn [res_bind]; [|discriminate].
      destruct (ok resp); cbn [negb].
      + intros [= <-]. auto.
      + destruct (get_prop d0 "detail"); cbn [res_bind]; discriminate. }
  destruct fetched as [d|]; cbn [res_bind]; [|discriminate].
  specialize (Hsrc d eq_refl).
  unfold validators_accept.
  destruct (validator_rejects (validate options) d) eqn:Hv; [discriminate|].
  assert (Hfinish : forall tail : bool, tail = true ->
            (is_undefined d || negb (validator_rejects (validateOptional options) d)) = true ->
            (if Z.leb 400 (status resp)
             then Throw (APIError (statusText resp) (status resp))
             else Ok {| code := status resp; data := d |}) = Ok r ->
            code r = status resp /\ status resp < 400 /\
            negb false
            && (is_undefined (data r) || negb (validator_rejects (validateOptional options) (data r)))
            && tail = true /\
            (status resp = 204 \/ ok resp = true /\ json resp = Ok (data r))).
  { intros tail -> Hopt. destruct (Z.leb 400 (status resp)) eqn:H400; [discriminate|].
    intros [= <-]. apply Z.leb_gt in H400. cbn [code data]. rewrite Hopt. auto. }
  destruct (is_undefined d) eqn:Hu; cbn [negb andb orb].
  - destruct (validateList options) as [p|].
    + destruct (is_array_every p d) eqn:Hl; cbn [negb]; [|discriminate].
      intros Hr. destruct (Hfinish true eq_refl eq_refl Hr) as (H1 & H2 & H3 & H4).
      assert (data r = d) as -> by (destruct (Z.leb 400 (status resp)); [discriminate|];
                                    injection Hr as <-; reflexivity).
      rewrite Hv, Hu, Hl. auto.
    + intros Hr. destruct (Hfinish true eq_refl eq_refl Hr) as (H1 & H2 & H3 & H4).
      assert (data r = d) as -> by (destruct (Z.leb 400 (status resp)); [discriminate|];
                                    injection Hr as <-; reflexivity).
      rewrite Hv, Hu. auto.
  - destruct (validator_rejects (validateOptional options) d) eqn:Ho; [discriminate|].
    destruct (validateList options) as [p|].
    + destruct (is_array_every p d) eqn:Hl; cbn [negb]; [|discriminate].
      intros Hr. destruct (Hfinish true eq_refl eq_refl Hr) as (H1 & H2 & H3 & H4).
      assert (data r = d) as -> by (destruct (Z.leb 400 (status resp)); [discriminate|];
                                    injection Hr as <-; reflexivity).
      rewrite Hv, Hu, Ho, Hl. auto.
    + intros Hr. destruct (Hfinish true eq_refl eq_refl Hr) as (H1 & H2 & H3 & H4).
      assert (data r = d) as -> by (destruct (Z.leb 400 (status resp)); [discriminate|];
                                    injection Hr as <-; reflexivity).
      rewrite Hv, Hu, Ho. auto.
Qed.

(** X3: what [runRawRequest] returns has the status of the response as its
    code, a status below 400, and data that every validator of the request
    accepted; unless the status is 204 the response was [ok] and the data
    is its parsed body. *)
Theorem runRawRequest_returns_validated (E : Env) (s : Snapshot)
    (options : APIRequest (gmap string string)) (w : World) (r : APIResponse) :
  fst (runRawRequest E s options w) = Ok r ->
  exists resp,
    transport E (length (fetches (log w))) (raw_fetch_request options) = Resolve resp /\
    code r = status resp /\
    status resp < 400 /\
    validators_accept options (data r) = true /\
    (status resp = 204 \/ (ok resp = true /\ json resp = Ok (data r))).
Proof.
  unfold runRawRequest, bind, fetch, lift. cbn [fst].
  destruct (transport E _ _) as [resp|e0]; cbn [raw_complete]; [|discriminate].
  destruct (raw_try_body s options resp) as [r0|e1] eqn:Hbody; cbn [try_catch]; [|discriminate].
  intros [= <-]. exists resp. split; [reflexivity|]. apply (raw_try_body_ok s options resp r0 Hbody).
Qed.

Lemma runRawRequest_returns_validated_witness :
  exists resp,
    transport refresh_env 0 (raw_fetch_request (token_request (login_creds "joe" "pw" true)))
      = Resolve resp /\
    200 = status resp /\
    status resp < 400 /\
    validators_accept (token_request (login_creds "joe" "pw" true)) good_token = true /\
    (status resp = 204 \/ (ok resp = true /\ json resp = Ok good_token)).
Proof.
  apply (runRawRequest_returns_validated refresh_env expired_snapshot
           (token_request (login_creds "joe" "pw" true)) expired_world
           {| code := 200; data := good_token |}).
  reflexivity.
Defined.

(** X4: when the response is [ok], its body parses and a validator of the
    request rejects the data, [runRawRequest] throws 'Response validation
    failed' with the status of the response, also for a status of 400 or
    more. *)
Theorem runRawRequest_validation_failure (E : Env) (s : Snapshot)
    (options : APIRequest (gmap string string)) (w : World) (resp : Response) (d : JSValue) :
  transport E (length (fetches (log w))) (raw_fetch_request options) = Resolve resp ->
  status resp <> 204 ->
  ok resp = true ->
  json resp = Ok d ->
  validators_accept options d = false ->
  fst (runRawRequest E s options w) =
    Throw (APIError "Response validation failed" (status resp)).
Proof.
  intros Htr H204 Hok Hjson Hrej.
  unfold runRawRequest, bind, fetch, lift. cbn [fst]. rewrite Htr. cbn [raw_complete].
  unfold raw_try_body. apply Z.eqb_neq in H204. rewrite H204, Hjson. cbn [res_bind].
  rewrite Hok. cbn [negb res_bind].
  unfold validators_accept in Hrej.
  destruct (validator_rejects (validate options) d); [reflexivity|].
  destruct (is_undefined d); cbn [negb andb orb] in *.
  - destruct (validateList options) as [p|]; [|discriminate].
    rewrite Hrej. reflexivity.
  - destruct (validator_rejects (validateOptional options) d); [reflexivity|].
    cbn [negb andb] in Hrej.
    destruct (validateList options) as [p|]; [|discriminate].
    rewrite Hrej. reflexivity.
Qed.

Lemma runRawRequest_validation_failure_witness :
  fst (runRawRequest (constant_env (http_response 200 "OK" (Ok (JObj [("hello", JNum 1)]))))
         expired_snapshot (token_request []) expired_world)
  = Throw (APIError "Response validation failed" 200).
Proof.
  apply (runRawRequest_validation_failure
           (constant_env (http_response 200 "OK" (Ok (JObj [("hello", JNum 1)]))))
           expired_snapshot (token_request []) expired_world
           (http_response 200 "OK" (Ok (JObj [("hello", JNum 1)])))
           (JObj [("hello", JNum 1)])); try reflexivity.
  discriminate.
Defined.

(** X5: a 204 from any url but the token endpoint is never parsed: the
    data is [undefined] whatever the body and the [ok] flag are;
    [validateOptional] is not asked, [validate] is asked about [undefined],
    and a [validateList] always fails. *)
Theorem runRawRequest_no_content (E : Env) (s : Snapshot)
    (options : APIRequest (gmap string string)) (w : World) (resp : Response) :
  transport E (length (fetches (log w))) (raw_fetch_request options) = Resolve resp ->
  status resp = 204 ->
  url options <> "/api/oauth2/token/" ->
  fst (runRawRequest E s options w) =
    if validator_rejects (validate options) JUndefined
       || bool_decide (is_Some (validateList options))
    then Throw (APIError "Response validation failed" 204)
    else Ok {| code := 204; data := JUndefined |}.
Proof.
  intros Htr H204 Hurl.
  unfold runRawRequest, bind, fetch, lift. cbn [fst]. rewrite Htr. cbn [raw_complete].
  unfold raw_try_body. rewrite H204. cbn [Z.eqb Pos.eqb].
  apply String.eqb_neq in Hurl. unfold token_url. rewrite Hurl. cbn [res_bind].
  destruct (validator_rejects (validate options) JUndefined); [reflexivity|].
  cbn [is_undefined negb andb orb].
  destruct (validateList options) as [p|]; reflexivity.
Qed.

Lemma runRawRequest_no_content_witness :
  fst (runRawRequest (constant_env (http_response 204 "No Content" empty_body))
         expired_snapshot (raw_get "/foo/get/") expired_world)
  = Ok {| code := 204; data := JUndefined |}.
Proof.
  apply (runRawRequest_no_content (constant_env (http_response 204 "No Content" empty_body))
           expired_snapshot (raw_get "/foo/get/") expired_world
           (http_response 204 "No Content" empty_body)); try reflexivity.
  discriminate.
Defined.

(** ** Token requests *)

Lemma raw_complete_throws_APIError s options out e :
  raw_complete s options out = Throw e -> exists msg c, e = APIError msg c.
Proof.
  destruct out as [resp|e0]; cbn [raw_complete].
  - destruct (raw_try_body s options resp); cbn [try_catch]; [discriminate|].
    intros [= <-]. eauto.
  - intros [= <-]. eauto.
Qed.

(** X7: [runTokenRequest] always releases the mutex it took and calls the
    transport at most once: what it adds to the record of events is the
    lock and the unlock, with the one POST to the token endpoint between
    them when the stored token was not valid any more.  It reads the clock
    once, unless reading [exp] off what the stored token decodes to
    throws: then it throws the same before the clock is read and before
    any call.  It leaves the caller's objects alone. *)
Theorem runTokenRequest_events (E : Env) (s : Snapshot) (creds : URLSearchParams) (w : World) :
  let r := runTokenRequest E s creds w in
  (log (snd r) = log w ++ [EvLock; EvUnlock] \/
   log (snd r) =
     log w ++ [EvLock; EvFetch (raw_fetch_request (token_request creds)); EvUnlock]) /\
  (exists d,
     decode_token E (current_access w) = Ok d /\
     match get_prop d "exp" with
     | Ok _ => ticks (snd r) = S (ticks w)
     | Throw e =>
         ticks (snd r) = ticks w /\ fst r = Throw e /\
         log (snd r) = log w ++ [EvLock; EvUnlock]
     end) /\
  request_objs (snd r) = request_objs w /\
  header_objs (snd r) = header_objs w.
Proof.
  cbv zeta.
  destruct (runTokenRequest_frame E s creds w) as (Hro & Hho & _ & _). cbv zeta in *.
  split; [|split; [|split; assumption]].
  - destruct (runTokenRequest_outcomes E s creds w)
      as [(e0 & -> & _)|[(e0 & -> & _)|[(-> & _)|[(resp0 & a & rt & _ & _ & _ & ->)
          |(e0 & _ & ->)]]]]; cbn [snd];
      autorewrite with js_log; rewrite <- ?app_assoc;
      first [left; reflexivity | right; reflexivity].
  - destruct (decode_token_total E (current_access w)) as [d Hd].
    exists d. split; [exact Hd|].
    rewrite (runTokenRequest_unfold E s creds w d Hd).
    destruct (get_prop d "exp") as [v|e].
    + destruct (ToNumber E v) as [x|e]; [|reflexivity].
      destruct (number_lt _ _).
      * cbn [snd logged emit ticks]. unfold persisted. case_decide; reflexivity.
      * unfold token_network.
        destruct (raw_complete s (token_request creds) _) as [resp|e]; [|reflexivity].
        pose proof (token_persist_frame creds resp
                      (logged (EvFetch (raw_fetch_request (token_request creds))) (entered w)))
          as (_ & _ & _ & Hticks).
        destruct (token_persist creds resp _) as [r0 w0]. cbn [snd] in *.
        cbn [logged emit snd ticks]. exact Hticks.
    + cbn [fst snd]. autorewrite with js_log. rewrite <- app_assoc. auto.
Qed.

(** X8: when [runTokenRequest] throws, no token is left in either storage
    scope.  Either it has made its one call to the token endpoint and what
    it throws is an [APIError] (a login with wrong credentials, a refresh
    the server refuses, a network that is down); or it has made no call
    and throws what reading or converting the [exp] of the decoded stored
    token threw. *)
Theorem runTokenRequest_failure_clears (E : Env) (s : Snapshot) (creds : URLSearchParams)
    (w w' : World) (e : Exn) :
  runTokenRequest E s creds w = (Throw e, w') ->
  scope_cleared (localStorage w') /\
  scope_cleared (sessionStorage w') /\
  ((exists msg c, e = APIError msg c) /\
   fetches (log w') = fetches (log w) ++ [raw_fetch_request (token_request creds)] \/
   fetches (log w') = fetches (log w) /\
   exists d, decode_token E (current_access w) = Ok d /\
             (get_prop d "exp" = Throw e \/
              exists v, get_prop d "exp" = Ok v /\ ToNumber E v = Throw e)).
Proof.
  destruct (runTokenRequest_outcomes E s creds w)
    as [(e0 & -> & d & Hd & Hv)|[(e0 & -> & d & v & Hd & Hv & Hx)|[(-> & _)
        |[(resp0 & a & rt & _ & _ & _ & ->)|(e0 & Hraw & ->)]]]]; try discriminate;
    intros [= <- <-]; (split; [apply clear_storage_cleared|]);
    (split; [apply clear_storage_cleared|]); autorewrite with js_log.
  - right. eauto 10.
  - right. eauto 10.
  - left. split; [|reflexivity]. eapply raw_complete_throws_APIError, Hraw.
Qed.

Lemma runTokenRequest_failure_clears_witness :
  scope_cleared (localStorage (snd (login offline_env expired_snapshot "joe@foo.com" "foobar"
                                      true doubly_stored_world))) /\
  scope_cleared (sessionStorage (snd (login offline_env expired_snapshot "joe@foo.com" "foobar"
                                        true doubly_stored_world))).
Proof.
  destruct (runTokenRequest_failure_clears offline_env expired_snapshot
              (login_creds "joe@foo.com" "foobar" true) doubly_stored_world
              (snd (login offline_env expired_snapshot "joe@foo.com" "foobar" true
                      doubly_stored_world))
              (APIError "Failed to fetch" (-1)))
    as (Hls & Hss & _).
  - vm_compute. reflexivity.
  - auto.
Defined.

(** X6: a 204 from the token endpoint is taken as a validation of the
    tokens the hook rendered with: [runTokenRequest] returns them (empty
    strings for missing ones) with code 204 and stores them in the scope
    chosen by the remember flag, the other scope holding nothing. *)
Theorem runTokenRequest_no_content (E : Env) (s : Snapshot) (creds : URLSearchParams)
    (w : World) (d : JSValue) (e : Z) (resp : Response) :
  decode_token E (current_access w) = Ok d ->
  get_prop d "exp" = Ok (JNum e) ->
  e * 1000 <= Z.of_N (clock E (ticks w)) ->
  transport E (length (fetches (log w))) (raw_fetch_request (token_request creds))
    = Resolve resp ->
  status resp = 204 ->
  let a := default "" (js_or (accessToken s) (Some "")) in
  let r := default "" (js_or (refreshToken s) (Some "")) in
  let w' := snd (runTokenRequest E s creds w) in
  fst (runTokenRequest E s creds w) =
    Ok {| code := 204;
          data := JObj [("access_token", JStr a); ("refresh_token", JStr r);
                        ("token_type", JStr "bearer")] |} /\
  if decide (usp_get creds "remember" = Some "true") then
    scope_holds (localStorage w') a r /\ scope_cleared (sessionStorage w')
  else
    scope_holds (sessionStorage w') a r /\ scope_cleared (localStorage w').
Proof.
  intros Hd He Hnow Htr H204 a r w'. subst w'.
  rewrite (runTokenRequest_unfold_num E s creds w d e Hd He).
  apply Z.ltb_ge in Hnow. rewrite Hnow. unfold token_network.
  rewrite Htr. cbn [raw_complete]. unfold raw_try_body. rewrite H204.
  cbn [Z.eqb Pos.eqb url token_request String.eqb Ascii.eqb Bool.eqb token_url res_bind
       validate validateOptional validateList validator_rejects try_catch].
  fold a r.
  change (isAPIAuthTokens (JObj [("access_token", JStr a); ("refresh_token", JStr r);
                                 ("token_type", JStr "bearer")])) with true.
  cbn [negb andb is_undefined Z.leb Z.compare Pos.compare Pos.compare_cont try_catch].
  rewrite (token_persist_ok creds _ _ (JStr a) (JStr r)) by reflexivity.
  cbn [fst snd]. split; [reflexivity|].
  pose proof (persisted_scopes creds (JStr a) (JStr r)
                (logged (EvFetch (raw_fetch_request (token_request creds))) (entered w))
                (clear_storage_cleared _) (clear_storage_cleared _)) as H.
  exact H.
Qed.

Lemma runTokenRequest_no_content_witness :
  fst (runTokenRequest (constant_env (http_response 204 "No Content" empty_body))
         expired_snapshot (refresh_creds expired_snapshot) expired_world)
  = Ok {| code := 204;
          data := JObj [("access_token", JStr old_access_token);
                        ("refresh_token", JStr the_refresh_token);
                        ("token_type", JStr "bearer")] |}.
Proof.
  destruct (runTokenRequest_no_content (constant_env (http_response 204 "No Content" empty_body))
              expired_snapshot (refresh_creds expired_snapshot) expired_world
              (TokenData "joe@example.com" (fixture_now - 600) (fixture_now - 300) "")
              (fixture_now - 300)
              (http_response 204 "No Content" empty_body)) as [Hres _].
  - reflexivity.
  - reflexivity.
  - vm_compute. discriminate.
  - reflexivity.
  - reflexivity.
  - exact Hres.
Defined.

(** What a render reads after a pair was persisted into cleared storage. *)
Lemma current_after_persist creds (a : string) r w key :
  scope_cleared (localStorage w) -> scope_cleared (sessionStorage w) ->
  let w' := persisted creds (JStr a) r w in
  (key = "access_token" -> a <> "" ->
   js_or (localStorage w' !! key) (sessionStorage w' !! key) = Some a) /\
  (key = "access_token" -> a = "" ->
   truthy (js_or (localStorage w' !! key) (sessionStorage w' !! key)) = false) /\
  (key = "refresh_token" -> js_String r <> "" ->
   js_or (localStorage w' !! key) (sessionStorage w' !! key) = Some (js_String r)) /\
  (key = "refresh_token" -> js_String r = "" ->
   truthy (js_or (localStorage w' !! key) (sessionStorage w' !! key)) = false) /\
  truthy (localStorage w' !! "access_token")
    = bool_decide (usp_get creds "remember" = Some "true") && negb (String.eqb a "").
Proof.
  intros [Hla Hlr] [Hsa Hsr] w'. subst w'. unfold persisted.
  assert (Ht : forall x : string, x <> "" -> truthy (Some x) = true).
  { intros x Hx. simpl. apply negb_true_iff. apply String.eqb_neq. exact Hx. }
  case_decide as Hrem; cbn [localStorage sessionStorage js_String].
  - rewrite bool_decide_eq_true_2 by exact Hrem.
    split; [|split; [|split; [|split]]].
    + intros -> Hne. rewrite lookup_insert_ne by done. rewrite lookup_insert_eq.
      unfold js_or. rewrite (Ht a Hne). reflexivity.
    + intros -> ->. rewrite lookup_insert_ne by done. rewrite lookup_insert_eq.
      unfold js_or. cbn [truthy String.eqb negb]. rewrite Hsa. reflexivity.
    + intros -> Hne. rewrite lookup_insert_eq. unfold js_or. rewrite (Ht _ Hne). reflexivity.
    + intros -> Hempty. rewrite lookup_insert_eq, Hempty.
      unfold js_or. cbn [truthy String.eqb negb]. rewrite Hsr. reflexivity.
    + rewrite lookup_insert_ne by done. rewrite lookup_insert_eq. reflexivity.
  - rewrite bool_decide_eq_false_2 by exact Hrem.
    split; [|split; [|split; [|split]]].
    + intros -> Hne. rewrite Hla. unfold js_or at 1. cbn [truthy].
      rewrite lookup_insert_ne by done. apply lookup_insert_eq.
    + intros -> ->. rewrite Hla. unfold js_or at 1. cbn [truthy].
      rewrite lookup_insert_ne by done. rewrite lookup_insert_eq. reflexivity.
    + intros -> Hne. rewrite Hlr. unfold js_or at 1. cbn [truthy]. apply lookup_insert_eq.
    + intros -> Hempty. rewrite Hlr. unfold js_or at 1. cbn [truthy].
      rewrite lookup_insert_eq, Hempty. reflexivity.
    + rewrite Hla. reflexivity.
Qed.

(** X9: what the next render finds after [runTokenRequest] has returned.
    Its current access token is the returned one (none if that was empty)
    and its effect decodes that token; its current refresh token is the
    text of the returned one: the returned string (none if empty), or
    "null" when the returned refresh token was [null]; and the refresh
    that render would ask for carries the remember flag of this call, as
    long as the access token is not empty: the scope chosen at login
    survives every refresh. *)
Theorem runTokenRequest_then_render (E : Env) (s : Snapshot) (creds : URLSearchParams)
    (w w' : World) (resp : APIResponse) (td : JSValue) :
  runTokenRequest E s creds w = (Ok resp, w') ->
  exists (a : string) (r : JSValue),
    get_prop (data resp) "access_token" = Ok (JStr a) /\
    get_prop (data resp) "refresh_token" = Ok r /\
    let s' := useAPI_render w' td in
    (a <> "" -> accessToken s' = Some a) /\
    (a = "" -> truthy (accessToken s') = false) /\
    useAPI_effect E s' = decode_token E (Some a) /\
    (js_String r <> "" -> refreshToken s' = Some (js_String r)) /\
    (js_String r = "" -> truthy (refreshToken s') = false) /\
    (r = JNull -> refreshToken s' = Some "null") /\
    usp_get (refresh_creds s') "remember" =
      Some (if decide (usp_get creds "remember" = Some "true")
            then if String.eqb a "" then "false" else "true"
            else "false").
Proof.
  intros Hrun.
  assert (Hshape : exists (a : string) r0 w0,
            get_prop (data resp) "access_token" = Ok (JStr a) /\
            get_prop (data resp) "refresh_token" = Ok r0 /\
            scope_cleared (localStorage w0) /\ scope_cleared (sessionStorage w0) /\
            w' = logged EvUnlock (persisted creds (JStr a) r0 w0)).
  { destruct (runTokenRequest_outcomes E s creds w)
      as [(e0 & Heq & _)|[(e0 & Heq & _)|[(Heq & t & Ht & _)
          |[(resp0 & a & rt & _ & Ha & Hr & Heq)|(e0 & _ & Heq)]]]];
      rewrite Heq in Hrun; try discriminate; injection Hrun as <- <-.
    - exists t, (opt_value (current_refresh w)), (entered w).
      unfold stored_response. rewrite Ht. cbn.
      split; [reflexivity|]. split; [reflexivity|]. split; [apply clear_storage_cleared|].
      split; [apply clear_storage_cleared|]. reflexivity.
    - exists a, (JStr rt),
        (logged (EvFetch (raw_fetch_request (token_request creds))) (entered w)).
      split; [exact Ha|]. split; [exact Hr|]. split; [apply clear_storage_cleared|].
      split; [apply clear_storage_cleared|]. reflexivity. }
  destruct Hshape as (a & r0 & w0 & Ha & Hr0 & Hl0 & Hs0 & ->).
  exists a, r0. split; [exact Ha|]. split; [exact Hr0|]. cbv zeta.
  pose proof (current_after_persist creds a r0 w0 "access_token" Hl0 Hs0)
    as (Hacc & Hacc0 & _ & _ & Hrem).
  pose proof (current_after_persist creds a r0 w0 "refresh_token" Hl0 Hs0)
    as (_ & _ & Href & Href0 & _).
  cbv zeta in *.
  set (s' := useAPI_render (logged EvUnlock (persisted creds (JStr a) r0 w0)) td).
  assert (Haccess : a <> "" -> accessToken s' = Some a) by (intros Hne; apply Hacc; auto).
  assert (Hnone : a = "" -> truthy (accessToken s') = false)
    by (intros He; apply Hacc0; auto).
  assert (Hrefresh : js_String r0 <> "" -> refreshToken s' = Some (js_String r0))
    by (intros Hne; apply Href; auto).
  split; [exact Haccess|]. split; [exact Hnone|].
  split.
  { unfold useAPI_effect. destruct (decide (a = "")) as [He|Hne].
    - specialize (Hnone He). subst a.
      rewrite (decode_token_zero E (Some "")) by auto.
      apply decode_token_zero.
      destruct (accessToken s') as [t|]; [|auto]. right. left.
      simpl in Hnone. apply negb_false_iff, String.eqb_eq in Hnone. congruence.
    - rewrite (Haccess Hne). reflexivity. }
  split; [exact Hrefresh|].
  split; [intros He; apply Href0; auto|].
  split; [intros ->; apply Hrefresh; discriminate|].
  unfold refresh_creds. cbn [usp_get String.eqb Ascii.eqb Bool.eqb].
  change (accessTokenLS s') with
    (localStorage (persisted creds (JStr a) r0 w0) !! "access_token").
  rewrite Hrem. case_decide as Hd'.
  - rewrite bool_decide_eq_true_2 by exact Hd'. cbn [andb].
    destruct (String.eqb a ""); reflexivity.
  - rewrite bool_decide_eq_false_2 by exact Hd'. reflexivity.
Qed.

Lemma runTokenRequest_then_render_witness :
  accessToken (useAPI_render
                 (snd (login refresh_env expired_snapshot "joe@example.com" "foobar" false
                         expired_world)) no_token_data)
  = Some new_access_token.
Proof.
  destruct (runTokenRequest_then_render refresh_env expired_snapshot
              (login_creds "joe@example.com" "foobar" false) expired_world
              (snd (login refresh_env expired_snapshot "joe@example.com" "foobar" false
                      expired_world))
              {| code := 200; data := good_token |} no_token_data)
    as (a & r & Ha & _ & Haccess & _).
  - vm_compute. reflexivity.
  - injection Ha as <-. apply Haccess. discriminate.
Defined.

(** ** Requests *)

Lemma with_headers_twice {A B C} (r : APIRequest A) (x : option B) (y : option C) :
  with_headers (with_headers r x) y = with_headers r y.
Proof. reflexivity. Qed.

(** [request] when nothing has to be refreshed: the one call, with the
    headers the caller brought or the default ones. *)
Lemma request_plain E s o w opts b :
  truthy (accessToken s) = true ->
  request_objs w !! o = Some opts ->
  expiring E (tokenData s) (clock E (ticks w)) = Ok b ->
  b && truthy (refreshToken s) = false ->
  request E s o w =
    runRawRequest E s
      (with_headers opts
         match headers opts with
         | Some h => header_objs w !! h
         | None => Some (default_entries s (method opts))
         end)
      (ticked (with_default_headers s o opts w)).
Proof.
  intros Ha Ho Hexp Hcond. rewrite (request_no_refresh_path E s o w opts b Ha Ho Hexp Hcond).
  unfold bind, read_request. cbn [ticked request_objs header_objs].
  unfold with_default_headers.
  destruct (headers opts) as [h|] eqn:Hh.
  - rewrite Ho. rewrite Hh. cbn [mbind option_bind]. destruct opts; reflexivity.
  - cbn [request_objs header_objs]. rewrite lookup_insert_eq.
    cbn [headers with_headers mbind option_bind]. rewrite lookup_insert_eq. reflexivity.
Qed.

Lemma calls_of_request_intro E s o w opts :
  truthy (accessToken s) = true ->
  request_objs w !! o = Some opts ->
  calls_of_request E s opts w (request E s o w).
Proof.
  intros Ha Ho. unfold calls_of_request.
  assert (Hlogd : log (with_default_headers s o opts w) = log w).
  { unfold with_default_headers. destruct (headers opts); reflexivity. }
  assert (Hcur : current_access (ticked (with_default_headers s o opts w)) = current_access w).
  { unfold with_default_headers. destruct (headers opts); reflexivity. }
  destruct (expiring E (tokenData s) (clock E (ticks w))) as [b|e] eqn:Hexp.
  2:{ (* the expiry of the token data cannot be read *)
      exists []. split; [auto|]. right. right. split; [reflexivity|].
      rewrite (request_throws_early E s o w opts e Ha Ho Hexp). cbn [fst snd].
      rewrite Hlogd. eauto. }
  destruct (b && truthy (refreshToken s)) eqn:Hcond.
  - apply andb_prop in Hcond as [-> Hr].
    pose proof (request_refresh_path E s o w opts Ha Hr Ho Hexp) as Hpath. cbv zeta in Hpath.
    set (w1 := ticked (with_default_headers s o opts w)) in *.
    assert (Hlog1 : log w1 = log w) by exact Hlogd.
    destruct (runTokenRequest_outcomes E s (refresh_creds s) w1)
      as [(e & Heq & d & Hd & Hv)|[(e & Heq & d & v & Hd & Hv & Hx)|[(Heq & _)
          |[(resp & a & r & _ & _ & _ & Heq)|(e & Hraw & Heq)]]]]; rewrite Heq in Hpath.
    + exists []. split; [auto|]. right. right. split; [reflexivity|].
      rewrite Hpath. cbn [fst snd].
      rewrite logged_log, locked_log, fetches_snoc_unlock, fetches_snoc_lock, Hlog1.
      split; [reflexivity|]. exists e. split; [reflexivity|]. right.
      exists d. rewrite <- Hcur. fold w1. auto.
    + exists []. split; [auto|]. right. right. split; [reflexivity|].
      rewrite Hpath. cbn [fst snd].
      rewrite logged_log, entered_log, fetches_snoc_unlock, fetches_snoc_lock, Hlog1.
      split; [reflexivity|]. exists e. split; [reflexivity|]. right.
      exists d. rewrite <- Hcur. fold w1. eauto.
    + exists []. split; [auto|]. left.
      destruct Hpath as (tok & h & _ & _ & ->). eexists. rewrite runRawRequest_world.
      split.
      { rewrite logged_log, fetches_snoc_fetch. cbn [with_authorization log].
        rewrite logged_log, persisted_log, entered_log, fetches_snoc_unlock,
          fetches_snoc_lock, Hlog1. reflexivity. }
      cbn. destruct opts; auto.
    + exists [raw_fetch_request (token_request (refresh_creds s))]. split; [auto|]. left.
      destruct Hpath as (tok & h & _ & _ & ->). eexists. rewrite runRawRequest_world.
      split.
      { rewrite logged_log, fetches_snoc_fetch. cbn [with_authorization log].
        rewrite logged_log, persisted_log, logged_log, entered_log, fetches_snoc_unlock,
          fetches_snoc_fetch, fetches_snoc_lock, Hlog1, <- app_assoc. reflexivity. }
      cbn. destruct opts; auto.
    + exists [raw_fetch_request (token_request (refresh_creds s))]. split; [auto|].
      right. left.
      split; [reflexivity|]. rewrite Hpath. cbn [fst snd].
      split.
      * rewrite !logged_log, entered_log, fetches_snoc_unlock, fetches_snoc_fetch,
          fetches_snoc_lock, Hlog1. reflexivity.
      * destruct (raw_complete_throws_APIError _ _ _ _ Hraw) as (msg & c & ->). eauto.
  - exists []. split; [auto|]. left.
    rewrite (request_plain E s o w opts b Ha Ho Hexp Hcond). eexists.
    rewrite runRawRequest_world.
    assert (Hlog1 : log (ticked (with_default_headers s o opts w)) = log w) by exact Hlogd.
    split.
    { rewrite logged_log, fetches_snoc_fetch, Hlog1. reflexivity. }
    cbn. destruct opts; auto.
Qed.

(** X12: the transport calls of a [request] with an access token are the
    caller's call, preceded by the POST of the refresh grant to the token
    endpoint when the token had to be renewed over the network; or, when
    that refresh fails, the refresh call alone, [request] throwing an
    [APIError]; or none at all, [request] throwing because the expiry of
    its token data, or of the stored token the refresh re-read, could not
    be read.  Without an access token nothing happens at all. *)
Theorem request_transport_calls (E : Env) (s : Snapshot) (o : positive) (w : World)
    (options : APIRequest positive) :
  request_objs w !! o = Some options ->
  (truthy (accessToken s) = false ->
   request E s o w = (Throw (APIError "Missing access token" 401), w)) /\
  (truthy (accessToken s) = true ->
   calls_of_request E s options w (request E s o w)).
Proof.
  intros Ho. split; intros Ha.
  - unfold request. rewrite Ha. reflexivity.
  - apply calls_of_request_intro; assumption.
Qed.

Lemma request_transport_calls_witness :
  calls_of_request refresh_env expired_snapshot (get_request "/do/refresh/") expired_world
    (request refresh_env expired_snapshot 1 expired_world).
Proof.
  destruct (request_transport_calls refresh_env expired_snapshot 1 expired_world
              (get_request "/do/refresh/")) as [_ Hcalls].
  - reflexivity.
  - apply Hcalls. reflexivity.
Defined.

(** The fourth shape is real: a refresh over a stored token that decodes
    to [null] makes [request] throw a [TypeError] without any call. *)
Example request_over_null_payload :
  let w := remembered_world null_payload_token the_refresh_token in
  let s := useAPI_render w no_token_data in
  let r := request refresh_env s 1 w in
  fst r = Throw (JSError "TypeError" "Cannot read properties of null (reading 'exp')") /\
  fetches (log (snd r)) = [].
Proof. cbv zeta. split; vm_compute; reflexivity. Qed.



(** ** Logout *)

(** X13: [logout] never takes the mutex and never reads the clock.  It
    makes no transport call when the hook rendered without a refresh
    token, and otherwise exactly one: a POST to /api/oauth2/logout/ with the
    form content type, no authorization header, and the refresh token and
    the grant type as its body. *)
Theorem logout_calls (E : Env) (s : Snapshot) (w : World) :
  let w' := snd (logout E s w) in
  filter is_lock (log w') = filter is_lock (log w) /\
  ticks w' = ticks w /\
  fetches (log w') =
    fetches (log w) ++
    if truthy (refreshToken s) then
      [ {| fr_url := "/api/oauth2/logout/";
           fr_method := POST;
           fr_headers := Some {[ "Content-Type" := "application/x-www-form-urlencoded" ]};
           fr_body := Some (usp_toString [("refresh_token", default "" (refreshToken s));
                                          ("grant_type", "refresh_token")]) |} ]
    else [].
Proof.
  rewrite logout_unfold.
  destruct (truthy (refreshToken s)).
  - destruct (runRawRequest E s _ w) as [[resp|e] w1] eqn:Hraw;
      pose proof (runRawRequest_world E s (logout_request (default "" (refreshToken s))) w)
        as Hw; rewrite Hraw in Hw; cbn [snd] in *; subst w1;
      cbn [cleared log ticks]; rewrite logged_log, fetches_snoc_fetch, filter_lock_snoc_fetch;
      auto.
  - cbn [snd cleared log ticks]. rewrite app_nil_r. auto.
Qed.

(** X10: once [logout] has returned, a hook rendered over the storage it
    left has no current token: its session info is the empty one (no user,
    not read-write, expiry 0) and its [request] throws 'Missing access
    token' with code 401 without calling the transport. *)
Theorem request_after_logout (E : Env) (s : Snapshot) (w w' : World) (resp : APIResponse)
    (td : JSValue) (o : positive) :
  logout E s w = (Ok resp, w') ->
  accessToken (useAPI_render w' td) = None /\
  refreshToken (useAPI_render w' td) = None /\
  request E (useAPI_render w' td) o w' = (Throw (APIError "Missing access token" 401), w') /\
  forall td', useAPI_effect E (useAPI_render w' td) = Ok td' ->
    session_info (useAPI_render w' td') =
      Ok {| user := SubValue (JStr ""); readwrite := false; expiry := JNum 0 |}.
Proof.
  intros Hlogout.
  destruct (logout_clears_on_return E s w) as (_ & Hret & _).
  destruct (Hret resp w' Hlogout) as [[Hla Hlr] [Hsa Hsr]].
  assert (Ha : accessToken (useAPI_render w' td) = None).
  { unfold accessToken, useAPI_render. cbn. rewrite Hla, Hsa. reflexivity. }
  assert (Hr : refreshToken (useAPI_render w' td) = None).
  { unfold refreshToken, useAPI_render. cbn. rewrite Hlr, Hsr. reflexivity. }
  split; [exact Ha|]. split; [exact Hr|]. split.
  - unfold request. rewrite Ha. reflexivity.
  - intros td'. unfold useAPI_effect. rewrite Ha. intros [= <-]. reflexivity.
Qed.

Lemma request_after_logout_witness :
  request refresh_env
    (useAPI_render (snd (logout refresh_env expired_snapshot expired_world)) no_token_data)
    1 (snd (logout refresh_env expired_snapshot expired_world))
  = (Throw (APIError "Missing access token" 401),
     snd (logout refresh_env expired_snapshot expired_world)).
Proof.
  apply (request_after_logout refresh_env expired_snapshot expired_world
           (snd (logout refresh_env expired_snapshot expired_world))
           {| code := 200; data := JObj [] |} no_token_data 1).
  vm_compute. reflexivity.
Defined.

(** ** Query keys *)

Lemma method_name_inj m1 m2 : method_name m1 = method_name m2 -> m1 = m2.
Proof. destruct m1, m2; simpl; intros H; try reflexivity; discriminate. Qed.

Lemma flat_pairs_inj (p q : URLSearchParams) :
  flat_map (fun kv => [fst kv; snd kv]) p = flat_map (fun kv => [fst kv; snd kv]) q -> p = q.
Proof.
  revert q. induction p as [|[k v] p IH]; intros [|[k' v'] q]; simpl; intros H;
    try reflexivity; try discriminate.
  injection H as -> -> H. f_equal. apply IH, H.
Qed.

(** X14: the query key of [useQuery] and [asyncQuery] tells requests apart
    by method, url and parameters, and by nothing else: two requests have
    the same key exactly when these agree, a request without parameters
    counting like one with an empty parameter list; headers, body and
    validators do not enter the key. *)
Theorem queryKey_same_iff {H : Type} (o1 o2 : APIRequest H) :
  queryKey o1 = queryKey o2 <->
  method o1 = method o2 /\ url o1 = url o2 /\
  default [] (params o1) = default [] (params o2).
Proof.
  unfold queryKey.
  assert (Hflat : forall o : APIRequest H,
            match params o with
            | Some p => flat_map (fun kv => [fst kv; snd kv]) p
            | None => []
            end = flat_map (fun kv => [fst kv; snd kv]) (default [] (params o))).
  { intros o. destruct (params o); reflexivity. }
  rewrite !Hflat. split.
  - intros Heq. injection Heq as Hm Hu Hp.
    split; [apply method_name_inj, Hm|]. split; [exact Hu|]. apply flat_pairs_inj, Hp.
  - intros (-> & -> & ->). reflexivity.
Qed.

(** ** Mutations *)

Lemma calls_of_request_frame E s opts w1 w2 r :
  log w1 = log w2 -> ticks w1 = ticks w2 ->
  localStorage w1 = localStorage w2 -> sessionStorage w1 = sessionStorage w2 ->
  calls_of_request E s opts w1 r -> calls_of_request E s opts w2 r.
Proof.
  unfold calls_of_request, current_access. intros -> -> -> ->. auto.
Qed.

Lemma with_default_headers_others s o opts w :
  delete o (request_objs (with_default_headers s o opts w)) = delete o (request_objs w).
Proof.
  unfold with_default_headers. destruct (headers opts); [reflexivity|].
  cbn [request_objs]. apply delete_insert_eq.
Qed.

(** X15: the callback of [useMutationQuery] passes [request] a request
    object of its own, a copy of the hook's options with the body
    replaced: every request object that existed before the mutation is
    still what it was afterwards.  The copy shares the headers mapping of
    the options: of the mappings that existed, only that one can change,
    and only in its authorization entry.  Without a current access token
    the callback throws 'Missing access token' with code 401; with one,
    the transport calls it makes are those of [request] for the options
    with the body replaced: the JSON text of the data when the data is
    truthy, no body otherwise. *)
Theorem mutation_fn_calls (JSON_stringify : JSValue -> string) (E : Env) (s : Snapshot)
    (apiOpts : APIRequest positive) (data : JSValue) (w : World) :
  let sent := if js_truthy data then Some (JSON_stringify data) else None in
  let r := mutation_fn JSON_stringify E s apiOpts data w in
  request_objs w ⊆ request_objs (snd r) /\
  (forall h m, header_objs w !! h = Some m ->
     exists m', header_objs (snd r) !! h = Some m' /\
                forall k, k <> "Authorization" -> m' !! k = m !! k) /\
  (forall h m, header_objs w !! h = Some m -> headers apiOpts <> Some h ->
     header_objs (snd r) !! h = Some m) /\
  (truthy (accessToken s) = false ->
   fst r = Throw (APIError "Missing access token" 401) /\ log (snd r) = log w) /\
  (truthy (accessToken s) = true ->
   calls_of_request E s (with_body apiOpts sent) w r).
Proof.
  intros sent r. subst r. unfold mutation_fn. fold sent.
  set (o := fresh (dom (request_objs w))).
  set (w1 := mkWorld (localStorage w) (sessionStorage w)
                     (<[o := with_body apiOpts sent]> (request_objs w))
                     (header_objs w) (log w) (ticks w)).
  assert (Hrun : (let! o' := new_request (with_body apiOpts sent) in request E s o') w
                 = request E s o w1) by reflexivity.
  rewrite Hrun.
  assert (Hfresh : request_objs w !! o = None).
  { apply not_elem_of_dom. apply is_fresh. }
  assert (Ho : request_objs w1 !! o = Some (with_body apiOpts sent)).
  { cbn [w1 request_objs]. apply lookup_insert_eq. }
  destruct (request_old_headers E s o w1 _ Ho) as [Hentries Hothers]. cbv zeta in *.
  split; [|split; [|split; [|split]]].
  - destruct (request_heap E s o w1 _ Ho) as [[_ Hw]|(_ & Hobjs & _)]; cbv zeta in *.
    + rewrite Hw. cbn [w1 request_objs]. apply insert_subseteq, Hfresh.
    + rewrite Hobjs. apply map_subseteq_spec. intros o' r' Ho'.
      assert (Hne : o' <> o) by (intros ->; congruence).
      rewrite <- (lookup_delete_ne _ o o') by congruence.
      rewrite with_default_headers_others.
      rewrite lookup_delete_ne by congruence.
      cbn [w1 request_objs]. rewrite lookup_insert_ne by congruence. exact Ho'.
  - intros h m Hm. apply (Hentries h m Hm).
  - intros h m Hm Hne. apply (Hothers h m Hm). exact Hne.
  - intros Ha. unfold request. rewrite Ha. split; reflexivity.
  - intros Ha. apply (calls_of_request_frame E s _ w1 w); try reflexivity.
    apply (calls_of_request_intro E s o w1 _ Ha Ho).
Qed.

Lemma mutation_fn_calls_witness :
  calls_of_request refresh_env expired_snapshot
    (with_body (get_request "/api/items/") (Some "payload")) expired_world
    (mutation_fn (fun _ => "payload") refresh_env expired_snapshot (get_request "/api/items/")
       (JBool true) expired_world).
Proof.
  apply (mutation_fn_calls (fun _ => "payload") refresh_env expired_snapshot
           (get_request "/api/items/") (JBool true) expired_world).
  vm_compute. reflexivity.
Defined.

(** The sharing is real: a mutation whose options bring their own headers
    mapping, run when the token has to be refreshed, overwrites the
    authorization entry of that mapping. *)
Example mutation_overwrites_shared_headers :
  let apiOpts := with_headers (get_request "/foo/post/") (Some 7%positive) in
  let r := mutation_fn (fun _ => "payload") refresh_env expired_snapshot apiOpts
             (JBool true) supplied_world in
  (header_objs supplied_world !! 7%positive ≫= fun m => m !! "Authorization")
    = Some "Bearer mine" /\
  (header_objs (snd r) !! 7%positive ≫= fun m => m !! "Authorization")
    = Some ("Bearer " +:+ new_access_token) /\
  (header_objs (snd r) !! 7%positive ≫= fun m => m !! "X-Trace") = Some "1".
Proof. cbv zeta. split; [|split]; vm_compute; reflexivity. Qed.

(** ** The fetch mock *)

Lemma mock_fetch_state g p m url params :
  snd (MockFetch.mock_fetch g p m url params) =
    {| MockFetch.responses := MockFetch.responses m;
       MockFetch.enabled := MockFetch.enabled m;
       MockFetch.calls :=
         MockFetch.calls m ++
         [(MockFetch.mock_request url params,
           MockFetch.recorded (MockFetch.responses m) (MockFetch.mock_request url params))] |}.
Proof.
  unfold MockFetch.mock_fetch, MockFetch.recorded.
  destruct (MockFetch.first_match _ _); reflexivity.
Qed.

Lemma mock_fetch_outcome_rules g p m1 m2 url params :
  MockFetch.responses m1 = MockFetch.responses m2 ->
  fst (MockFetch.mock_fetch g p m1 url params) = fst (MockFetch.mock_fetch g p m2 url params).
Proof.
  intros Hrs. unfold MockFetch.mock_fetch. rewrite Hrs.
  destruct (MockFetch.first_match _ _); reflexivity.
Qed.

(** X16: the mock answers a series of [fetch] calls one by one from its
    rules and records every one of them: the outcomes are those each call
    would get on its own, the rules and the enabled flag stay as they
    were, [calls()] grows by one entry per call, in call order, holding the
    request as the mock read it and the response chosen for it; so the
    answer to a request does not depend on the calls made before it. *)
Theorem mock_fetches_record (getReasonPhrase : Z -> Res string)
    (JSON_parse : string -> Res JSValue) (m : MockFetch.MockFetch)
    (reqs : list (string * option MockFetch.RequestInit)) :
  let r := MockFetch.mock_fetches getReasonPhrase JSON_parse m reqs in
  fst r = map (fun c => fst (MockFetch.mock_fetch getReasonPhrase JSON_parse m (fst c) (snd c)))
              reqs /\
  MockFetch.responses (snd r) = MockFetch.responses m /\
  MockFetch.enabled (snd r) = MockFetch.enabled m /\
  MockFetch.calls (snd r) =
    MockFetch.calls m ++
    map (fun c => (MockFetch.mock_request (fst c) (snd c),
                   MockFetch.recorded (MockFetch.responses m)
                     (MockFetch.mock_request (fst c) (snd c)))) reqs /\
  forall url params,
    fst (MockFetch.mock_fetch getReasonPhrase JSON_parse (snd r) url params) =
    fst (MockFetch.mock_fetch getReasonPhrase JSON_parse m url params).
Proof.
  cbv zeta.
  assert (Hmain : forall reqs m,
    fst (MockFetch.mock_fetches getReasonPhrase JSON_parse m reqs) =
      map (fun c => fst (MockFetch.mock_fetch getReasonPhrase JSON_parse m (fst c) (snd c)))
          reqs /\
    MockFetch.responses (snd (MockFetch.mock_fetches getReasonPhrase JSON_parse m reqs))
      = MockFetch.responses m /\
    MockFetch.enabled (snd (MockFetch.mock_fetches getReasonPhrase JSON_parse m reqs))
      = MockFetch.enabled m /\
    MockFetch.calls (snd (MockFetch.mock_fetches getReasonPhrase JSON_parse m reqs)) =
      MockFetch.calls m ++
      map (fun c => (MockFetch.mock_request (fst c) (snd c),
                     MockFetch.recorded (MockFetch.responses m)
                       (MockFetch.mock_request (fst c) (snd c)))) reqs).
  { clear. induction reqs as [|[url params] rest IH]; intros m.
    - simpl. rewrite app_nil_r. auto.
    - cbn [MockFetch.mock_fetches].
      pose proof (mock_fetch_state getReasonPhrase JSON_parse m url params) as Hst.
      destruct (MockFetch.mock_fetch getReasonPhrase JSON_parse m url params) as [out m1] eqn:H1.
      cbn [snd] in Hst.
      destruct (IH m1) as (Hout & Hrs & Hen & Hcalls).
      destruct (MockFetch.mock_fetches getReasonPhrase JSON_parse m1 rest) as [outs m2].
      cbn [fst snd] in *.
      assert (Hrs1 : MockFetch.responses m1 = MockFetch.responses m) by (subst m1; reflexivity).
      split; [|split; [|split]].
      + rewrite Hout. cbn [map fst snd]. rewrite H1. cbn [fst]. f_equal.
        apply map_ext. intros c.
        apply mock_fetch_outcome_rules, Hrs1.
      + congruence.
      + rewrite Hen. subst m1. reflexivity.
      + rewrite Hcalls, Hrs1. subst m1. cbn [MockFetch.calls map fst snd].
        rewrite <- app_assoc. reflexivity. }
  destruct (Hmain reqs m) as (H1 & H2 & H3 & H4).
  split; [exact H1|]. split; [exact H2|]. split; [exact H3|]. split; [exact H4|].
  intros url params. apply mock_fetch_outcome_rules, H2.
Qed.

Lemma mock_fetch_outcome_match g p m1 m2 url params :
  MockFetch.first_match (MockFetch.responses m1) (MockFetch.mock_request url params) =
  MockFetch.first_match (MockFetch.responses m2) (MockFetch.mock_request url params) ->
  fst (MockFetch.mock_fetch g p m1 url params) = fst (MockFetch.mock_fetch g p m2 url params).
Proof.
  intros Hrs. unfold MockFetch.mock_fetch. rewrite <- Hrs.
  destruct (MockFetch.first_match _ _); reflexivity.
Qed.

(** The answer of the mock when [resp] is the rule chosen. *)
Lemma mock_fetch_chosen g p m url params resp :
  MockFetch.first_match (MockFetch.responses m) (MockFetch.mock_request url params) = Some resp ->
  fst (MockFetch.mock_fetch g p m url params) =
    if MockFetch.isError resp then Reject (JSError "TypeError" (MockFetch.body resp))
    else match g (MockFetch.status resp) with
         | Ok text => Resolve (mkResponse (MockFetch.status resp) true text
                                          (p (MockFetch.body resp)))
         | Throw e => Reject e
         end.
Proof. unfold MockFetch.mock_fetch. intros ->. reflexivity. Qed.

Lemma mock_fetch_unmatched g p m url params :
  MockFetch.first_match (MockFetch.responses m) (MockFetch.mock_request url params) = None ->
  fst (MockFetch.mock_fetch g p m url params) =
    Reject (JSError "TypeError" "No response implemented").
Proof. unfold MockFetch.mock_fetch. intros ->. reflexivity. Qed.

(** X17: the rule registered last decides.  A request the new rule's
    predicate accepts is answered by the new rule alone, whatever was
    registered before: a rejection with the body as message for an error
    rule, else a response that is always [ok], with status 200 when none
    (or 0) was given; a request the predicate refuses is answered as if
    the rule had not been registered.  So after [setFailure] every call
    is rejected with the given message. *)
Theorem setResponseIf_latest_wins (getReasonPhrase : Z -> Res string)
    (JSON_parse : string -> Res JSValue) (fn : MockFetch.MockFetchRequest -> bool)
    (body : string) (status : option Z) (headers : option (gmap string string))
    (isError : option bool) (m : MockFetch.MockFetch)
    (url : string) (params : option MockFetch.RequestInit) :
  let st := if Z.eqb (default 0 status) 0 then 200 else default 0 status in
  fst (MockFetch.mock_fetch getReasonPhrase JSON_parse
         (MockFetch.setResponseIf fn body status headers isError m) url params) =
    (if fn (MockFetch.mock_request url params) then
       if default false isError then Reject (JSError "TypeError" body)
       else match getReasonPhrase st with
            | Ok text => Resolve (mkResponse st true text (JSON_parse body))
            | Throw e => Reject e
            end
     else fst (MockFetch.mock_fetch getReasonPhrase JSON_parse m url params)) /\
  fst (MockFetch.mock_fetch getReasonPhrase JSON_parse (MockFetch.setFailure body m) url params)
    = Reject (JSError "TypeError" body).
Proof.
  cbv zeta. split; [|reflexivity].
  destruct (fn (MockFetch.mock_request url params)) eqn:Hfn.
  - rewrite (mock_fetch_chosen _ _ _ _ _
               {| MockFetch.fn := fn; MockFetch.body := body;
                  MockFetch.status := match status with
                                      | Some st => if Z.eqb st 0 then 200 else st
                                      | None => 200
                                      end;
                  MockFetch.headers := default ∅ headers;
                  MockFetch.isError := default false isError |}).
    + cbn [MockFetch.isError MockFetch.body MockFetch.status].
      destruct status as [st|]; reflexivity.
    + unfold MockFetch.setResponseIf.
      cbn [MockFetch.responses MockFetch.first_match MockFetch.fn]. rewrite Hfn. reflexivity.
  - apply mock_fetch_outcome_match. unfold MockFetch.setResponseIf.
    cbn [MockFetch.responses MockFetch.first_match MockFetch.fn]. rewrite Hfn. reflexivity.
Qed.

(** X18: [reset] forgets the rules and the recorded calls and leaves the
    mock enabled, whatever state it was in; the next call is then
    rejected with 'No response implemented' and recorded with status -1. *)
Theorem reset_forgets (getReasonPhrase : Z -> Res string)
    (JSON_parse : string -> Res JSValue) (m : MockFetch.MockFetch)
    (url : string) (params : option MockFetch.RequestInit) :
  MockFetch.reset m =
    {| MockFetch.responses := []; MockFetch.enabled := true; MockFetch.calls := [] |} /\
  MockFetch.mock_fetch getReasonPhrase JSON_parse (MockFetch.reset m) url params =
    (Reject (JSError "TypeError" "No response implemented"),
     {| MockFetch.responses := [];
        MockFetch.enabled := true;
        MockFetch.calls := [(MockFetch.mock_request url params,
                             {| MockFetch.resp_body := "No response implemented";
                                MockFetch.resp_status := -1;
                                MockFetch.resp_headers := ∅;
                                MockFetch.resp_isError := true |})] |}).
Proof.
  assert (Hreset : MockFetch.reset m =
    {| MockFetch.responses := []; MockFetch.enabled := true; MockFetch.calls := [] |}).
  { unfold MockFetch.reset, MockFetch.enable, MockFetch.disable.
    destruct (MockFetch.enabled m); reflexivity. }
  split; [exact Hreset|]. rewrite Hreset. reflexivity.
Qed.

(** X19: a JSON rule gives back the object it was registered with: when
    [JSON.parse] undoes [JSON.stringify] on the body and the status has a
    reason phrase, a request the rule accepts gets a response that is
    [ok], carries the status given (200 when none was) and whose [json()]
    is the body; and the response recorded for the call has a Content-Type
    header: the one the caller gave, else application/json. *)
Theorem setJSONResponseIf_round_trip (getReasonPhrase : Z -> Res string)
    (JSON_stringify : JSValue -> string) (JSON_parse : string -> Res JSValue)
    (fn : MockFetch.MockFetchRequest -> bool) (body : JSValue) (status : option Z)
    (headers : option (gmap string string)) (m : MockFetch.MockFetch)
    (url : string) (params : option MockFetch.RequestInit) (text : string) :
  let st := if Z.eqb (default 0 status) 0 then 200 else default 0 status in
  let r := MockFetch.mock_fetch getReasonPhrase JSON_parse
             (MockFetch.setJSONResponseIf JSON_stringify fn body status headers None m)
             url params in
  JSON_parse (JSON_stringify body) = Ok body ->
  getReasonPhrase st = Ok text ->
  fn (MockFetch.mock_request url params) = true ->
  fst r = Resolve (mkResponse st true text (Ok body)) /\
  exists recorded,
    MockFetch.calls (snd r) = MockFetch.calls m ++ [(MockFetch.mock_request url params, recorded)] /\
    MockFetch.resp_status recorded = st /\
    MockFetch.resp_body recorded = JSON_stringify body /\
    MockFetch.resp_headers recorded !! "Content-Type" =
      Some (default "application/json" (default ∅ headers !! "Content-Type")) /\
    forall k, k <> "Content-Type" ->
      MockFetch.resp_headers recorded !! k = default ∅ headers !! k.
Proof.
  cbv zeta. intros Hparse Hphrase Hfn.
  assert (Hst : match status with
                | Some st => if Z.eqb st 0 then 200 else st
                | None => 200
                end = if Z.eqb (default 0 status) 0 then 200 else default 0 status).
  { destruct status as [st|]; reflexivity. }
  unfold MockFetch.mock_fetch, MockFetch.setJSONResponseIf, MockFetch.setResponseIf.
  cbn [MockFetch.responses MockFetch.first_match MockFetch.fn].
  rewrite Hfn.
  cbn [fst snd MockFetch.resp_isError MockFetch.isError MockFetch.resp_body MockFetch.body
       MockFetch.resp_status MockFetch.status MockFetch.calls MockFetch.headers
       MockFetch.resp_headers default from_option id negb andb].
  rewrite Hst, Hphrase, Hparse. split; [reflexivity|].
  eexists. split; [reflexivity|].
  cbn [MockFetch.resp_status MockFetch.resp_body MockFetch.resp_headers].
  split; [reflexivity|]. split; [reflexivity|].
  generalize (default ∅ headers). intros h.
  destruct (h !! "Content-Type") as [ct|] eqn:Hct.
  - rewrite bool_decide_eq_true_2 by eauto. cbn [negb]. rewrite Hct. split; [reflexivity|].
    reflexivity.
  - rewrite bool_decide_eq_false_2 by (intros [x Hx]; congruence). cbn [negb].
    rewrite lookup_insert_eq. split; [reflexivity|].
    intros k Hk. apply lookup_insert_ne. congruence.
Qed.

Lemma setJSONResponseIf_round_trip_witness :
  fst (MockFetch.mock_fetch fixture_getReasonPhrase fixture_JSON_parse
         (MockFetch.setJSONResponseIf fixture_JSON_stringify (fun _ => true) (JObj [])
            (Some 404) None None MockFetch.initial)
         "/foo/get/" None)
  = Resolve (mkResponse 404 true "Not Found" (Ok (JObj []))).
Proof.
  apply (setJSONResponseIf_round_trip fixture_getReasonPhrase fixture_JSON_stringify
           fixture_JSON_parse (fun _ => true) (JObj []) (Some 404) None MockFetch.initial
           "/foo/get/" None "Not Found"); reflexivity.
Defined.

Lemma raw_try_body_accepted s options resp d :
  status resp <> 204 ->
  ok resp = true ->
  json resp = Ok d ->
  validators_accept options d = true ->
  raw_try_body s options resp =
    if Z.leb 400 (status resp) then Throw (APIError (statusText resp) (status resp))
    else Ok {| data := d; code := status resp |}.
Proof.
  intros H204 Hok Hjson Hacc. unfold raw_try_body.
  apply Z.eqb_neq in H204. rewrite H204, Hjson. cbn [res_bind]. rewrite Hok. cbn [negb res_bind].
  unfold validators_accept in Hacc.
  apply andb_prop in Hacc as [Hacc Hl]. apply andb_prop in Hacc as [Hv Ho].
  apply negb_true_iff in Hv. rewrite Hv.
  assert (Ho' : negb (is_undefined d) && validator_rejects (validateOptional options) d = false).
  { destruct (is_undefined d); [reflexivity|]. simpl in *. apply negb_true_iff, Ho. }
  rewrite Ho'.
  destruct (validateList options); [rewrite Hl|]; reflexivity.
Qed.

(** X20: [runRawRequest] run against the mock.  A call no rule accepts,
    a call answered by an error rule, and a call answered with a status
    that has no reason phrase all fail with code -1 (the message being
    'No response implemented', the rule's body, the phrase lookup's
    message).  Every response the mock resolves is [ok]: an accepted body
    comes back as the data with the rule's status as code below 400, and
    from 400 on the error carries the reason phrase of the status,
    whatever the body holds. *)
Theorem runRawRequest_against_mock (getReasonPhrase : Z -> Res string)
    (JSON_parse : string -> Res JSValue) (m : MockFetch.MockFetch)
    (E : Env) (s : Snapshot) (options : APIRequest (gmap string string)) (w : World) :
  (forall n req, transport E n req = MockFetch.as_transport getReasonPhrase JSON_parse m n req) ->
  let sent := raw_fetch_request options in
  let chosen := MockFetch.first_match (MockFetch.responses m)
                  (MockFetch.mock_request (fr_url sent) (MockFetch.init_of sent)) in
  let r := fst (runRawRequest E s options w) in
  (chosen = None -> r = Throw (APIError "No response implemented" (-1))) /\
  (forall rule, chosen = Some rule -> MockFetch.isError rule = true ->
     r = Throw (APIError (MockFetch.body rule) (-1))) /\
  (forall rule e, chosen = Some rule -> MockFetch.isError rule = false ->
     getReasonPhrase (MockFetch.status rule) = Throw e ->
     r = Throw (APIError (exn_message e) (-1))) /\
  (forall rule text d, chosen = Some rule -> MockFetch.isError rule = false ->
     getReasonPhrase (MockFetch.status rule) = Ok text ->
     MockFetch.status rule <> 204 ->
     JSON_parse (MockFetch.body rule) = Ok d ->
     validators_accept options d = true ->
     r = if Z.leb 400 (MockFetch.status rule)
         then Throw (APIError text (MockFetch.status rule))
         else Ok {| data := d; code := MockFetch.status rule |}).
Proof.
  intros Htr sent chosen r.
  assert (Hr : r = raw_complete s options
                     (fst (MockFetch.mock_fetch getReasonPhrase JSON_parse m (fr_url sent)
                             (MockFetch.init_of sent)))).
  { subst r. unfold runRawRequest, bind, fetch, lift. cbn [fst]. rewrite Htr. reflexivity. }
  split; [|split; [|split]].
  - intros Hc. rewrite Hr, (mock_fetch_unmatched _ _ _ _ _ Hc). reflexivity.
  - intros rule Hc He. rewrite Hr, (mock_fetch_chosen _ _ _ _ _ _ Hc), He. reflexivity.
  - intros rule e Hc He Hg. rewrite Hr, (mock_fetch_chosen _ _ _ _ _ _ Hc), He, Hg. reflexivity.
  - intros rule text d Hc He Hg H204 Hp Hacc.
    rewrite Hr, (mock_fetch_chosen _ _ _ _ _ _ Hc), He, Hg.
    cbn [raw_complete].
    rewrite (raw_try_body_accepted s options _ d); [| exact H204 | reflexivity | exact Hp | exact Hacc].
    cbn [status statusText]. destruct (Z.leb 400 (MockFetch.status rule)); reflexivity.
Qed.

Lemma runRawRequest_against_mock_witness :
  fst (runRawRequest
         (mock_env (MockFetch.setResponse "{}" (Some 404) None None MockFetch.initial))
         expired_snapshot (raw_get "/foo/get/") expired_world)
  = Throw (APIError "Not Found" 404).
Proof.
  destruct (runRawRequest_against_mock fixture_getReasonPhrase fixture_JSON_parse
              (MockFetch.setResponse "{}" (Some 404) None None MockFetch.initial)
              (mock_env (MockFetch.setResponse "{}" (Some 404) None None MockFetch.initial))
              expired_snapshot (raw_get "/foo/get/") expired_world)
    as (_ & _ & _ & H).
  - intros n req. reflexivity.
  - exact (H {| MockFetch.fn := fun _ => true; MockFetch.body := "{}";
                MockFetch.status := 404; MockFetch.headers := ∅;
                MockFetch.isError := false |}
             "Not Found" (JObj []) eq_refl eq_refl eq_refl ltac:(discriminate)
             eq_refl eq_refl).
Defined.

(** ** Login *)

(** X23: [login] goes through [runTokenRequest] like a refresh.  While
    the expiry of the stored access token is a number after the clock it
    returns the stored pair without calling the transport, whatever user
    and password were given; when it is a number not after the clock it
    makes one POST to the token endpoint whose body holds the four form
    fields; and when reading the expiry off the decoded token throws (a
    token whose payload is the JSON text null), [login] throws the same
    and makes no call.  When it returns, the returned access token is
    stored in [localStorage] if [remember] was set and in [sessionStorage]
    if not, and the other storage holds no token; the refresh token stored
    with it is the returned one, or the text "null" when the stored pair
    was returned and held no refresh token. *)
Theorem login_outcomes (E : Env) (s : Snapshot) (user password : string) (remember : bool)
    (w : World) (d : JSValue) :
  decode_token E (current_access w) = Ok d ->
  let now := Z.of_N (clock E (ticks w)) in
  let r := login E s user password remember w in
  (forall e, get_prop d "exp" = Ok (JNum e) -> now < e * 1000 ->
   fst r = Ok (stored_response w) /\ fetches (log (snd r)) = fetches (log w)) /\
  (forall e, get_prop d "exp" = Ok (JNum e) -> e * 1000 <= now ->
   exists sent,
     fetches (log (snd r)) = fetches (log w) ++ [sent] /\
     fr_url sent = "/api/oauth2/token/" /\
     fr_method sent = POST /\
     fr_body sent =
       Some ("username=" +:+ urlencode user +:+ "&password=" +:+ urlencode password
             +:+ "&remember=" +:+ (if remember then "true" else "false")
             +:+ "&grant_type=password")) /\
  (forall err, get_prop d "exp" = Throw err ->
   fst r = Throw err /\ fetches (log (snd r)) = fetches (log w)) /\
  (forall resp, fst r = Ok resp ->
   exists (a : string) (t : JSValue) (stored : string),
     get_prop (data resp) "access_token" = Ok (JStr a) /\
     get_prop (data resp) "refresh_token" = Ok t /\
     (t = JStr stored \/
      (t = JNull /\ stored = "null" /\ current_refresh w = None /\
       resp = stored_response w)) /\
     if remember then
       scope_holds (localStorage (snd r)) a stored /\ scope_cleared (sessionStorage (snd r))
     else
       scope_holds (sessionStorage (snd r)) a stored /\ scope_cleared (localStorage (snd r))).
Proof.
  intros Hd now r. subst r. unfold login.
  set (creds := login_creds user password remember).
  assert (Hbody : usp_toString creds =
            "username=" +:+ urlencode user +:+ "&password=" +:+ urlencode password
            +:+ "&remember=" +:+ (if remember then "true" else "false")
            +:+ "&grant_type=password").
  { subst creds. destruct remember; reflexivity. }
  split; [|split; [|split]].
  - intros e He Hlt.
    rewrite (runTokenRequest_unfold_num E s creds w d e Hd He). fold now.
    apply Z.ltb_lt in Hlt. rewrite Hlt. cbn [fst snd].
    autorewrite with js_log. auto.
  - intros e He Hge.
    exists (raw_fetch_request (token_request creds)).
    split; [|split; [reflexivity|split; [reflexivity|]]].
    + rewrite (runTokenRequest_unfold_num E s creds w d e Hd He). fold now.
      apply Z.ltb_ge in Hge. rewrite Hge. apply token_network_spec.
    + cbn [raw_fetch_request token_request fr_body body]. rewrite Hbody. reflexivity.
  - intros err He.
    rewrite (runTokenRequest_unfold E s creds w d Hd), He. cbn [fst snd].
    autorewrite with js_log. auto.
  - intros resp Hresp.
    destruct (runTokenRequest E s creds w) as [res w'] eqn:Hrun. cbn [fst snd] in *. subst res.
    destruct (runTokenRequest_returns E s creds w w' resp Hrun)
      as (a & t & Ha & Ht & Hkind & Hscope).
    assert (Hscope' : forall stored, js_String t = stored ->
              if remember then
                scope_holds (localStorage w') a stored /\ scope_cleared (sessionStorage w')
              else
                scope_holds (sessionStorage w') a stored /\ scope_cleared (localStorage w')).
    { intros stored <-. subst creds. destruct remember; exact Hscope. }
    destruct Hkind as [[rt ->]|(-> & Hnone & ->)].
    + exists a, (JStr rt), rt. split; [exact Ha|]. split; [exact Ht|].
      split; [left; reflexivity|]. apply Hscope'. reflexivity.
    + exists a, JNull, "null". split; [exact Ha|]. split; [exact Ht|].
      split; [right; auto|]. apply Hscope'. reflexivity.
Qed.

Lemma login_outcomes_witness :
  exists sent,
    fetches (log (snd (login refresh_env expired_snapshot "joe@example.com" "foobar" true
                         expired_world)))
      = fetches (log expired_world) ++ [sent] /\
    fr_body sent =
      Some "username=joe%40example.com&password=foobar&remember=true&grant_type=password".
Proof.
  destruct (login_outcomes refresh_env expired_snapshot "joe@example.com" "foobar" true
              expired_world
              (TokenData "joe@example.com" (fixture_now - 600) (fixture_now - 300) ""))
    as (_ & H & _).
  - vm_compute. reflexivity.
  - destruct (H (fixture_now - 300)) as (sent & Hlog & _ & _ & Hbody);
      [reflexivity|vm_compute; discriminate|].
    exists sent. split; [exact Hlog|exact Hbody].
Defined.

(** ** Form bodies *)

Lemma count_char_app c a b : count_char c (a +:+ b) = (count_char c a + count_char c b)%nat.
Proof. induction a as [|x a IH]; simpl; [reflexivity|]. rewrite IH. lia. Qed.

Lemma urlencode_byte_plain (c : ascii) :
  count_char "&" (urlencode_byte c) = 0%nat /\ count_char "=" (urlencode_byte c) = 0%nat.
Proof.
  destruct c as [[] [] [] [] [] [] [] []]; vm_compute; split; reflexivity.
Qed.

Lemma urlencode_plain (s : string) :
  count_char "&" (urlencode s) = 0%nat /\ count_char "=" (urlencode s) = 0%nat.
Proof.
  induction s as [|c s [IH1 IH2]]; [split; reflexivity|].
  cbn [urlencode]. rewrite !count_char_app, IH1, IH2.
  destruct (urlencode_byte_plain c) as [-> ->]. split; reflexivity.
Qed.

(** X24: the form body of a token request has exactly one [=] per field
    and one [&] between two fields, whatever the names and values hold:
    the body [login] sends has four [=] and three [&] for every user name
    and password, which can therefore not add a field of their own. *)
Theorem token_request_body_fields (creds : URLSearchParams) (user password : string)
    (remember : bool) :
  (forall text, body (token_request creds) = Some text ->
     count_char "=" text = length creds /\
     count_char "&" text = pred (length creds)) /\
  (forall text, body (token_request (login_creds user password remember)) = Some text ->
     count_char "=" text = 4%nat /\ count_char "&" text = 3%nat).
Proof.
  assert (Hgen : forall p : URLSearchParams,
            count_char "=" (usp_toString p) = length p /\
            count_char "&" (usp_toString p) = pred (length p)).
  { induction p as [|[k v] rest [IH1 IH2]]; [split; reflexivity|].
    destruct (urlencode_plain k) as [Hk1 Hk2]. destruct (urlencode_plain v) as [Hv1 Hv2].
    destruct rest as [|kv rest].
    - cbn [usp_toString]. rewrite !count_char_app, Hk1, Hk2, Hv1, Hv2. split; reflexivity.
    - change (usp_toString ((k, v) :: kv :: rest))
        with (urlencode k +:+ "=" +:+ urlencode v +:+ "&" +:+ usp_toString (kv :: rest)).
      rewrite !count_char_app, Hk1, Hk2, Hv1, Hv2, IH1, IH2. cbn [length pred].
      split; simpl; lia. }
  split.
  - intros text [= <-]. apply Hgen.
  - intros text [= <-]. apply (Hgen (login_creds user password remember)).
Qed.

Lemma token_request_body_fields_witness :
  count_char "=" "username=a%26b%3Dc&password=%26&remember=false&grant_type=password" = 4%nat /\
  count_char "&" "username=a%26b%3Dc&password=%26&remember=false&grant_type=password" = 3%nat.
Proof.
  destruct (token_request_body_fields [] "a&b=c" "&" false) as [_ H].
  apply H. vm_compute. reflexivity.
Defined.
